(** * The inference-server core: batching cache, task nodes and facade

    A shallow embedding of [cache.h] (CacheBase, CacheDynamic, CacheStatic),
    of [engine.cpp] (TaskNode) and of [infer_server.cpp] (the InferServer
    facade), with the properties the specification states about them.

    Conventions of the embedding:
    - a pointer to a heap object is a natural number (its identity);
    - a call on an object whose class is not part of the modelled sources
      (RequestControl, Processor, the thread pool) is recorded as an [Event];
    - dereferencing a null pointer, indexing a vector out of range and a
      failed glog [CHECK] have no result: the functions that may do so return
      an [option] (or an [Outcome], for the facade);
    - a call of the cache runs as one step: what other threads do between
      two calls (discarding a request, the timer of the batcher) is a change
      of the arguments of the next call;
    - locks, condition variables and the timing map [perf] are left out. *)

From stdpp Require Import base option list numbers gmap strings.
From Stdlib Require Import ZArith QArith.

Set Warnings "-clear-no-such-hyp".

Local Open Scope Z_scope.
Local Open Scope nat_scope.

(** ** Data model *)

(** Modelled from the spec: the [Status] enumeration is declared in
    [infer_server.h]; section 6 of the specification lists its codes. *)
Inductive Status : Type :=
  | SUCCESS | ERROR_BACKEND | WRONG_TYPE | TIMEOUT | INVALID_PARAM.

#[global] Instance Status_eq_dec : EqDecision Status.
Proof. solve_decision. Defined.

(** [RequestControl*]: the identity of a request's control block. *)
Definition CtrlPtr := nat.

(** Modelled from the spec: [request_ctrl.h] is absent. Of a RequestControl
    the cache reads its request id and its [discarded] flag. *)
Record RequestControl : Type := mkRequestControl {
  RequestId : Z;
  IsDiscarded : bool
}.

(** The RequestControl objects that are alive, by pointer. *)
Definition CtrlHeap := CtrlPtr -> RequestControl.

(** [ctrl->Discard()] *)
Definition Discard (h : CtrlHeap) (c : CtrlPtr) : CtrlHeap :=
  fun c' => if decide (c' = c)
            then mkRequestControl (RequestId (h c')) true
            else h c'.

Record TaskDesc : Type := mkTaskDesc {
  ctrl : CtrlPtr;
  index : nat
}.

(** One client item: an opaque payload (its identity) and the descriptor,
    which is null once the cache has handed the item over. *)
Record InferData : Type := mkInferData {
  payload : nat;
  desc : option TaskDesc
}.

Record Package : Type := mkPackage {
  data : list InferData;
  descs : list TaskDesc;
  priority : Z;
  data_num : nat
}.

(** [class Priority] lives in [priority.h]; the cache only calls [Get]. *)
Record Priority : Type := mkPriority {
  Get : Z -> Z
}.

(** A [Processor] object ([processor.h]): its type name and what a call of
    its virtual [Process] does to the package it is given. *)
Record Processor : Type := mkProcessor {
  TypeName : string;
  Process : Package -> Status * Package
}.

(** A stage of the pipeline: its processor and, unless it is the tail, the
    stage it is linked to. *)
Inductive TaskNode : Type :=
  | TailNode (proc : Processor)
  | LinkedNode (proc : Processor) (down : TaskNode).

Definition processor_ (n : TaskNode) : Processor :=
  match n with TailNode p => p | LinkedNode p _ => p end.
Definition downnode_ (n : TaskNode) : option TaskNode :=
  match n with TailNode _ => None | LinkedNode _ d => Some d end.

(** Calls that leave the modelled code. *)
Inductive Event : Type :=
  | EvProcessFailed (c : CtrlPtr) (s : Status)
  | EvProcessDone (c : CtrlPtr) (s : Status) (d : InferData) (idx : nat)
  | EvDoneNotifier
  | EvVoidPush (prio : Z) (node : TaskNode) (pack : Package).

(** ** CacheBase *)

Record CacheBase : Type := mkCacheBase {
  cache_ : list Package;
  cache_capacity_ : N;
  batch_size_ : N;
  priority_ : Priority;
  running_ : bool
}.

Definition set_cache (b : CacheBase) (q : list Package) : CacheBase :=
  mkCacheBase q (cache_capacity_ b) (batch_size_ b) (priority_ b) (running_ b).

Definition set_running (b : CacheBase) (r : bool) : CacheBase :=
  mkCacheBase (cache_ b) (cache_capacity_ b) (batch_size_ b) (priority_ b) r.

(** Modelled from the spec: [util/batcher.h] is absent. A Batcher
    accumulates items; [AddItem] appends and emits the batch through the sink
    once the size reaches [batch_size]; [Emit] (also fired by the timer)
    flushes a partial batch and does nothing on an empty one. *)
Record Batcher : Type := mkBatcher {
  batcher_items : list InferData
}.

Definition Batcher_AddItem (bs : N) (b : Batcher) (it : InferData)
  : Batcher * option (list InferData) :=
  let items := batcher_items b ++ [it] in
  if (bs <=? N.of_nat (length items))%N
  then (mkBatcher [], Some items)
  else (mkBatcher items, None).

Definition Batcher_Emit (b : Batcher) : Batcher * option (list InferData) :=
  match batcher_items b with
  | [] => (b, None)
  | items => (mkBatcher [], Some items)
  end.

(** The two concrete caches; each contains its CacheBase sub-object. *)
Inductive Cache : Type :=
  | CacheDynamic (base : CacheBase) (batcher_ : Batcher)
  | CacheStatic (base : CacheBase).

Definition base (c : Cache) : CacheBase :=
  match c with CacheDynamic b _ => b | CacheStatic b => b end.

Definition set_base (c : Cache) (b : CacheBase) : Cache :=
  match c with
  | CacheDynamic _ bt => CacheDynamic b bt
  | CacheStatic _ => CacheStatic b
  end.



Definition Running (c : Cache) : bool := running_ (base c).
Definition BatchSize (b : CacheBase) : N := batch_size_ b.

Definition Start (c : Cache) : Cache := set_base c (set_running (base c) true).

(** [it->desc->ctrl]: no result on a null descriptor. *)
Definition item_ctrl (it : InferData) : option CtrlPtr := ctrl <$> desc it.

(** The predicate of the [find_if] in [Pop]. *)
Definition item_discarded (h : CtrlHeap) (it : InferData) : option bool :=
  (fun c => IsDiscarded (h c)) <$> item_ctrl it.

(** [std::find_if(data.begin(), data.end(), ...) != data.end()]: the items
    are inspected in order and the search stops at the first hit. *)
Fixpoint find_discarded (h : CtrlHeap) (l : list InferData) : option bool :=
  match l with
  | [] => Some false
  | it :: rest =>
      b ← item_discarded h it;
      if b : bool then Some true else find_discarded h rest
  end.

(** [p->desc.reset()] *)
Definition reset_desc (it : InferData) : InferData := mkInferData (payload it) None.

(** [MoveDescToPackage]: the descriptors move from the items to [descs]. *)
Definition MoveDescToPackage (pack : Package) : option Package :=
  ds ← mapM desc (data pack);
  Some (mkPackage (reset_desc <$> data pack) (descs pack ++ ds)
                  (priority pack) (data_num pack)).

(** ** CacheDynamic *)

(** One pass of the inner [for] of [ClearDiscard]: live items go to the
    local list, discarded ones are reported. *)
Fixpoint CacheDynamic_sweep_items (h : CtrlHeap) (l : list InferData)
  : option (list InferData * list Event) :=
  match l with
  | [] => Some ([], [])
  | it :: rest =>
      c ← item_ctrl it;
      '(keep, evs) ← CacheDynamic_sweep_items h rest;
      if IsDiscarded (h c)
      then Some (keep, EvProcessFailed c SUCCESS :: evs)
      else Some (it :: keep, evs)
  end.

(** The [do ... while (pack)] of [ClearDiscard]: every package of the queue
    is popped and swept, front first. *)
Fixpoint CacheDynamic_sweep (h : CtrlHeap) (q : list Package)
  : option (list InferData * list Event) :=
  match q with
  | [] => Some ([], [])
  | pack :: rest =>
      '(keep, evs) ← CacheDynamic_sweep_items h (data pack);
      '(keep', evs') ← CacheDynamic_sweep h rest;
      Some (keep ++ keep', evs ++ evs')
  end.

(** The [while (!cache.empty())] of [ClearDiscard]: [cur] is the data of the
    package being filled, [out] the queue built so far. [priority0] is the
    value [new Package] leaves in [priority] (the struct is declared in
    [infer_server.h]). *)
Fixpoint CacheDynamic_rebatch (priority0 : Z) (bs : N) (cur : list InferData)
    (items : list InferData) (out : list Package) : list Package :=
  match items with
  | [] => out
  | it :: rest =>
      let cur' := cur ++ [it] in
      if (bs <=? N.of_nat (length cur'))%N || bool_decide (rest = [])
      then CacheDynamic_rebatch priority0 bs [] rest
             (out ++ [mkPackage cur' [] priority0 (length cur')])
      else CacheDynamic_rebatch priority0 bs cur' rest out
  end.

(** [CacheDynamic::ClearDiscard(pack)]. The first turn of the
    [do ... while] pops the front of the queue and sweeps [pack], which [Pop]
    took from the front; the next turns do the same with every package that
    is left. Then the live items are packed again. *)
Definition CacheDynamic_ClearDiscard (priority0 : Z) (h : CtrlHeap) (b : CacheBase)
    (pack : Package) : option (CacheBase * list Event) :=
  match cache_ b with
  | [] => None
  | _ :: rest =>
      '(keep, evs) ← CacheDynamic_sweep h (pack :: rest);
      Some (set_cache b (CacheDynamic_rebatch priority0 (BatchSize b) [] keep []), evs)
  end.

Definition CacheDynamic_PreparePackage (pack : Package) : option Package :=
  MoveDescToPackage pack.

(** ** CacheStatic *)

(** The [do ... while (pack)] of [ClearDiscard]: a package stays when the
    control of its first item is live, and is reported and dropped as a whole
    otherwise. *)
Fixpoint CacheStatic_sweep (h : CtrlHeap) (q : list Package)
  : option (list Package * list Event) :=
  match q with
  | [] => Some ([], [])
  | pack :: rest =>
      first ← data pack !! 0;
      c ← item_ctrl first;
      if IsDiscarded (h c)
      then
        cs ← mapM item_ctrl (data pack);
        '(keep, evs) ← CacheStatic_sweep h rest;
        Some (keep, ((fun c => EvProcessFailed c SUCCESS) <$> cs) ++ evs)
      else
        '(keep, evs) ← CacheStatic_sweep h rest;
        Some (pack :: keep, evs)
  end.

(** [CacheStatic::ClearDiscard(pack)], with the same first turn. *)
Definition CacheStatic_ClearDiscard (h : CtrlHeap) (b : CacheBase) (pack : Package)
  : option (CacheBase * list Event) :=
  match cache_ b with
  | [] => None
  | _ :: rest =>
      '(keep, evs) ← CacheStatic_sweep h (pack :: rest);
      Some (set_cache b keep, evs)
  end.

Definition CacheStatic_PreparePackage (pack : Package) : option Package :=
  Some (mkPackage (reset_desc <$> data pack) (descs pack)
                  (priority pack) (data_num pack)).

(** ** CacheBase::Pop *)

(** Virtual dispatch of [ClearDiscard] and [PreparePackage]. *)
Definition ClearDiscard (priority0 : Z) (h : CtrlHeap) (c : Cache) (pack : Package)
  : option (Cache * list Event) :=
  match c with
  | CacheDynamic b bt =>
      '(b', evs) ← CacheDynamic_ClearDiscard priority0 h b pack;
      Some (CacheDynamic b' bt, evs)
  | CacheStatic b =>
      '(b', evs) ← CacheStatic_ClearDiscard h b pack;
      Some (CacheStatic b', evs)
  end.

Definition PreparePackage (c : Cache) (pack : Package) : option Package :=
  match c with
  | CacheDynamic _ _ => CacheDynamic_PreparePackage pack
  | CacheStatic _ => CacheStatic_PreparePackage pack
  end.

(** What a call of [Pop] does once it holds the lock: it keeps waiting on the
    condition variable ([PopBlocked]: the queue is empty and the cache runs),
    returns [nullptr], or returns a package. *)
Inductive PopResult : Type :=
  | PopBlocked
  | PopNull
  | PopPack (pack : Package).

Definition Pop (priority0 : Z) (h : CtrlHeap) (c : Cache)
  : option (PopResult * Cache * list Event) :=
  match cache_ (base c) with
  | [] =>
      if Running c then Some (PopBlocked, c, []) else Some (PopNull, c, [])
  | pack :: _ =>
      found ← find_discarded h (data pack);
      '(c1, evs) ← (if found : bool then ClearDiscard priority0 h c pack
                    else Some (c, []));
      match cache_ (base c1) with
      | [] => Some (PopNull, c1, evs)
      | pack' :: rest =>
          p ← PreparePackage c1 pack';
          Some (PopPack p, set_base c1 (set_cache (base c1) rest), evs)
      end
  end.

(** ** Enqueue, Push, Stop *)

(** The sink the constructor of CacheDynamic gives to its Batcher. *)
Definition CacheDynamic_notifier (h : CtrlHeap) (b : CacheBase) (batch : list InferData)
  : option CacheBase :=
  first ← batch !! 0;
  c ← item_ctrl first;
  Some (set_cache b (cache_ b ++
          [mkPackage batch [] (Get (priority_ b) (- RequestId (h c))) (length batch)])).

Definition CacheDynamic_emit (h : CtrlHeap) (b : CacheBase) (em : option (list InferData))
  : option CacheBase :=
  match em with
  | Some batch => CacheDynamic_notifier h b batch
  | None => Some b
  end.

Fixpoint CacheDynamic_Enqueue (h : CtrlHeap) (items : list InferData)
    (b : CacheBase) (bt : Batcher) : option (CacheBase * Batcher) :=
  match items with
  | [] => Some (b, bt)
  | it :: rest =>
      _ ← desc it;
      let '(bt', em) := Batcher_AddItem (BatchSize b) bt it in
      b' ← CacheDynamic_emit h b em;
      CacheDynamic_Enqueue h rest b' bt'
  end.

(** [BatchSize() - 1], computed on [uint32_t]. *)
Definition BatchSize_minus_1 (b : CacheBase) : N :=
  Z.to_N ((Z.of_N (BatchSize b) - 1) mod 2 ^ 32).

Definition CopyDescToPackageContinuous (pack : Package) : option Package :=
  first ← data pack !! 0;
  c ← item_ctrl first;
  Some (mkPackage (data pack)
          (descs pack ++ ((fun desc_idx => mkTaskDesc c desc_idx) <$> seq 0 (data_num pack)))
          (priority pack) (data_num pack)).

Definition CopyDescToPackage (pack : Package) : option Package :=
  ds ← mapM desc (data pack);
  Some (mkPackage (data pack) (descs pack ++ ds) (priority pack) (data_num pack)).

(** The [for] of [CacheStatic::Enqueue]. [items] is what is left of
    [in->data] (so [idx == data_size - 1] reads [rest = []]), [pack] the data
    of the package being filled, [q] the queue. *)
Fixpoint CacheStatic_Enqueue_loop (h : CtrlHeap) (b : CacheBase) (data_size in_data_num : nat)
    (items : list InferData) (pack : list InferData) (batch_idx : nat) (q : list Package)
  : option (list Package) :=
  match items with
  | [] => Some q
  | it :: rest =>
      _ ← desc it;
      let pack := pack ++ [it] in
      let batch_idx := S batch_idx in
      if (BatchSize_minus_1 b <? N.of_nat batch_idx)%N || bool_decide (rest = [])
      then
        first ← pack !! 0;
        c ← item_ctrl first;
        let p := mkPackage pack [] (Get (priority_ b) (- RequestId (h c)))
                   (if data_size =? 1 then in_data_num else batch_idx) in
        p' ← (if (data_size =? 1) && negb (in_data_num =? 1)
              then CopyDescToPackageContinuous p
              else CopyDescToPackage p);
        CacheStatic_Enqueue_loop h b data_size in_data_num rest [] 0 (q ++ [p'])
      else
        CacheStatic_Enqueue_loop h b data_size in_data_num rest pack batch_idx q
  end.

Definition CacheStatic_Enqueue (h : CtrlHeap) (b : CacheBase) (inp : Package)
  : option CacheBase :=
  q ← CacheStatic_Enqueue_loop h b (length (data inp)) (data_num inp) (data inp) [] 0 (cache_ b);
  Some (set_cache b q).

Definition Enqueue (h : CtrlHeap) (c : Cache) (pack : Package) : option Cache :=
  match c with
  | CacheDynamic b bt =>
      '(b', bt') ← CacheDynamic_Enqueue h (data pack) b bt;
      Some (CacheDynamic b' bt')
  | CacheStatic b =>
      b' ← CacheStatic_Enqueue h b pack;
      Some (CacheStatic b')
  end.

(** [CacheBase::Push]; [pack] is a [PackagePtr]. *)
Definition Push (h : CtrlHeap) (c : Cache) (pack : option Package) : option (bool * Cache) :=
  p ← pack;
  if Running c
  then c' ← Enqueue h c p; Some (true, c')
  else Some (false, c).

(** [Stop]; CacheDynamic overrides it to flush its batcher. *)
Definition Stop (h : CtrlHeap) (c : Cache) : option Cache :=
  match c with
  | CacheDynamic b bt =>
      let '(bt', em) := Batcher_Emit bt in
      b' ← CacheDynamic_emit h (set_running b false) em;
      Some (CacheDynamic b' bt')
  | CacheStatic b => Some (CacheStatic (set_running b false))
  end.

(** The timer of the Batcher fires: a partial batch is emitted. *)
Definition Timer (h : CtrlHeap) (c : Cache) : option Cache :=
  match c with
  | CacheDynamic b bt =>
      let '(bt', em) := Batcher_Emit bt in
      b' ← CacheDynamic_emit h b em;
      Some (CacheDynamic b' bt')
  | CacheStatic b => Some (CacheStatic b)
  end.

(** The constructors: a cache starts empty and not running. *)
Definition CacheBase_new (capacity batch_size : N) (prio : Priority) : CacheBase :=
  mkCacheBase [] capacity batch_size prio false.
Definition CacheDynamic_new (capacity batch_size : N) (prio : Priority) : Cache :=
  CacheDynamic (CacheBase_new capacity batch_size prio) (mkBatcher []).
Definition CacheStatic_new (capacity batch_size : N) (prio : Priority) : Cache :=
  CacheStatic (CacheBase_new capacity batch_size prio).

(** ** TaskNode *)

Definition set_priority (pack : Package) (prio : Z) : Package :=
  mkPackage (data pack) (descs pack) prio (data_num pack).

(** One turn of the [for] at the tail:
    [descs[idx]->ctrl->ProcessDone(SUCCESS, data[idx], descs[idx]->index, perf)].
    The timing map [perf] is left out. *)
Definition ProcessDone_at (pack : Package) (idx : nat) : option Event :=
  d ← descs pack !! idx;
  it ← data pack !! idx;
  Some (EvProcessDone (ctrl d) SUCCESS it (index d)).

Section TaskNode.

(** [Priority::Next], a static function of [priority.h]. *)
Variable Next : Z -> Z.

Definition Transmit (n : TaskNode) (pack : Package) : option (list Event) :=
  match downnode_ n with
  | Some down =>
      let pack := set_priority pack (Next (priority pack)) in
      Some [EvVoidPush (priority pack) down pack]
  | None =>
      evs ← mapM (ProcessDone_at pack) (seq 0 (length (descs pack)));
      Some (evs ++ [EvDoneNotifier])
  end.

(** [TaskNode::operator()]. The processor works on the package in place:
    [Process] gives the status and the package as it leaves the call. *)
Definition TaskNode_call (n : TaskNode) (pack : Package) : option (list Event) :=
  let '(s, pack) := Process (processor_ n) pack in
  if bool_decide (s <> SUCCESS)
  then Some ((fun it => EvProcessFailed (ctrl it) s) <$> descs pack)
  else Transmit n pack.

End TaskNode.

(** ** The InferServer facade *)

(** How a call ends: it returns; or a glog [CHECK] fails, which logs a fatal
    message and aborts the process; or it dereferences a null or dangling
    pointer; or it waits for ever. *)
Inductive Outcome (A : Type) : Type :=
  | Returns (a : A)
  | CheckFailed (msg : string)
  | Undefined
  | Blocks.
Arguments Returns {A} a.
Arguments CheckFailed {A} msg.
Arguments Undefined {A}.
Arguments Blocks {A}.

(** A loaded model ([model/model.h]): the accessors the facade calls. *)
Record Model : Type := mkModel {
  Path : string;
  FunctionName : string
}.

(** The fields of [SessionDesc] the facade reads; the shared pointers may be
    null. *)
Record SessionDesc : Type := mkSessionDesc {
  name : string;
  model : option Model;
  preproc : option Processor;
  postproc : option Processor;
  engine_num : N;
  show_perf : bool
}.

Definition set_name (desc : SessionDesc) (n : string) : SessionDesc :=
  mkSessionDesc n (model desc) (preproc desc) (postproc desc)
                (engine_num desc) (show_perf desc).

Definition set_postproc (desc : SessionDesc) (p : option Processor) : SessionDesc :=
  mkSessionDesc (name desc) (model desc) (preproc desc) p
                (engine_num desc) (show_perf desc).

(** [Executor_t] and [Session_t] are raw pointers. *)
Definition Executor_t := nat.
Definition Session_t := nat.

(** An Executor object: the descriptor it was built from and the sessions
    linked to it. *)
Record Executor : Type := mkExecutor {
  executor_desc : SessionDesc;
  link_set : list Session_t
}.

Definition GetName (e : Executor) : string := name (executor_desc e).

(** A Session object: the arguments of its constructor and its observer. *)
Record Session : Type := mkSession {
  session_name : string;
  session_executor : Executor_t;
  sync_link : bool;
  session_show_perf : bool;
  observer_ : option nat
}.

Definition GetExecutor (s : Session) : Executor_t := session_executor s.
Definition IsSyncLink (s : Session) : bool := sync_link s.

(** [InferServerPrivate], with the Executor and Session objects it has
    allocated and the size of its thread pool. The facade functions below
    take the object that [priv_] points to. *)
Record InferServerPrivate : Type := mkInferServerPrivate {
  executor_map_ : gmap string Executor_t;
  tp_size : N;
  device_id_ : Z;
  executors : gmap Executor_t Executor;
  sessions : gmap Session_t Session;
  next_ptr : nat
}.

(** The name under which [CreateExecutor] registers an executor. *)
Definition executor_name_of (m : Model) (pre post : Processor) : string :=
  Path m +:+ "_" +:+ FunctionName m +:+ "_" +:+ TypeName pre +:+ "_" +:+ TypeName post.

(** What the environment decides during an asynchronous [Request]: whether
    [WaitIfCacheFull] succeeds and what [Session::Send] returns. *)
Record RequestEnv : Type := mkRequestEnv {
  WaitIfCacheFull : bool;
  Send : option CtrlPtr
}.

(** What the environment decides during a [RequestSync]: whether
    [WaitIfCacheFull] succeeds, the milliseconds it took, what
    [Session::Send] returns, and the arguments of the callback when it
    fulfils the future before the wait on the future ends. *)
Record SyncEnv : Type := mkSyncEnv {
  sync_WaitIfCacheFull : bool;
  wait_time : Q;
  sync_Send : option CtrlPtr;
  callback : option (Status * Package)
}.

(** What a [RequestSync] leaves behind: its return value, [*status],
    [*output], whether [Session::Send] was called, and the control it
    discarded. *)
Record SyncResult : Type := mkSyncResult {
  sync_ret : bool;
  status_after : Status;
  output_after : Package;
  send_called : bool;
  discarded_ctrl : option CtrlPtr
}.

(** Conversion of a [double] to [int]: the fraction is dropped. *)
Definition double_to_int (q : Q) : Z := Z.quot (Qnum q) (Zpos (Qden q)).

Section Facade.

(** Whether [new Executor(...)] succeeds for a descriptor; when it does
    not, the constructor throws [std::runtime_error]. The class lives in
    [executor.h]. *)
Variable Executor_ctor_ok : SessionDesc -> bool.

(** [GetCpuCoreNumber()], from [util/env.h]. *)
Variable GetCpuCoreNumber : N.

(** [std::make_shared<Postprocessor>()], from [processor.h]. *)
Variable default_Postprocessor : Processor.

Definition CreateExecutor (priv : InferServerPrivate) (desc : SessionDesc)
  : Outcome (option Executor_t * InferServerPrivate) :=
  match model desc, preproc desc, postproc desc with
  | Some m, Some pre, Some post =>
      let executor_name := executor_name_of m pre post in
      match executor_map_ priv !! executor_name with
      | Some executor => Returns (Some executor, priv)
      | None =>
          if Executor_ctor_ok desc
          then
            let executor := next_ptr priv in
            let thread_num := tp_size priv in
            let max_thread_num := (3 * GetCpuCoreNumber)%N in
            let grown :=
              if (thread_num <? max_thread_num)%N
              then N.min (thread_num + (3 * engine_num desc) mod 2 ^ 32) max_thread_num
              else thread_num in
            Returns (Some executor,
                     mkInferServerPrivate
                       (<[executor_name := executor]> (executor_map_ priv))
                       grown (device_id_ priv)
                       (<[executor := mkExecutor (set_name desc executor_name) []]>
                          (executors priv))
                       (sessions priv) (S (next_ptr priv)))
          else Returns (None, priv)
      end
  | _, _, _ => Undefined
  end.

Definition CreateSession (priv : InferServerPrivate) (desc : SessionDesc)
    (observer : option nat) : Outcome (option Session_t * InferServerPrivate) :=
  match model desc with
  | None => CheckFailed "model is null!"
  | Some _ =>
  match preproc desc with
  | None => CheckFailed "preproc is null!"
  | Some _ =>
      let desc :=
        match postproc desc with
        | None => set_postproc desc (Some default_Postprocessor)
        | Some _ => desc
        end in
      match CreateExecutor priv desc with
      | Returns (None, priv) => Returns (None, priv)
      | Returns (Some executor, priv) =>
          match executors priv !! executor with
          | None => Undefined
          | Some ex =>
              let session := next_ptr priv in
              Returns (Some session,
                       mkInferServerPrivate
                         (executor_map_ priv) (tp_size priv) (device_id_ priv)
                         (<[executor := mkExecutor (executor_desc ex)
                                          (link_set ex ++ [session])]> (executors priv))
                         (<[session := mkSession (name desc) executor
                                         (negb (bool_decide (is_Some observer)))
                                         (show_perf desc) observer]> (sessions priv))
                         (S (next_ptr priv)))
          end
      | CheckFailed msg => CheckFailed msg
      | Undefined => Undefined
      | Blocks => Blocks
      end
  end
  end.

Definition Request (priv : InferServerPrivate) (session : option Session_t)
    (input : option Package) (timeout : Z) (env : RequestEnv) : Outcome bool :=
  match session with
  | None => CheckFailed "Session is null!"
  | Some session =>
  match input with
  | None => CheckFailed "input is null!"
  | Some _ =>
  match sessions priv !! session with
  | None => Undefined
  | Some s =>
      if IsSyncLink s then Returns false
      else if negb (WaitIfCacheFull env) then Returns false
      else Returns (bool_decide (is_Some (Send env)))
  end
  end
  end.

(** [status] and [output] are what the two pointers point to, when they
    are not null. *)
Definition RequestSync (priv : InferServerPrivate) (session : option Session_t)
    (input : option Package) (status : option Status) (output : option Package)
    (timeout : Z) (env : SyncEnv) : Outcome SyncResult :=
  match session with
  | None => CheckFailed "Session is null!"
  | Some session =>
  match input with
  | None => CheckFailed "input is null!"
  | Some _ =>
  match output with
  | None => CheckFailed "output is null!"
  | Some output =>
  match status with
  | None => CheckFailed "status is null!"
  | Some status =>
  match sessions priv !! session with
  | None => Undefined
  | Some s =>
      if negb (IsSyncLink s) then Returns (mkSyncResult false status output false None)
      else if negb (sync_WaitIfCacheFull env)
      then Returns (mkSyncResult false TIMEOUT output false None)
      else
        let timeout' :=
          if (0 <? timeout)%Z
          then double_to_int (inject_Z timeout - wait_time env)
          else timeout in
        if (0 <? timeout)%Z && (timeout' <? 1)%Z
        then Returns (mkSyncResult false TIMEOUT output false None)
        else
          match sync_Send env with
          | None => Returns (mkSyncResult false status output true None)
          | Some ctrl =>
              match callback env with
              | Some (s, data) => Returns (mkSyncResult true s data true None)
              | None =>
                  if (0 <? timeout')%Z
                  then Returns (mkSyncResult true TIMEOUT output true (Some ctrl))
                  else Blocks
              end
          end
  end
  end
  end
  end
  end.

End Facade.

(** * Properties of the cache: definitions *)

(** The discard sweep as a function of the queue alone: what [ClearDiscard]
    does when it is given the front package, as in [Pop]. *)
Definition sweep_queue (priority0 : Z) (h : CtrlHeap) (c : Cache)
  : option (Cache * list Event) :=
  match c with
  | CacheDynamic b bt =>
      '(keep, evs) ← CacheDynamic_sweep h (cache_ b);
      Some (CacheDynamic
              (set_cache b (CacheDynamic_rebatch priority0 (BatchSize b) [] keep [])) bt,
            evs)
  | CacheStatic b =>
      '(keep, evs) ← CacheStatic_sweep h (cache_ b);
      Some (CacheStatic (set_cache b keep), evs)
  end.

(** ** Well-formed queues

    [Enqueue] checks that every item it accepts carries a descriptor, and
    no queued package is empty. *)

Definition has_desc (it : InferData) : Prop := is_Some (desc it).

Definition package_wf (p : Package) : Prop :=
  data p <> [] /\ Forall has_desc (data p).

(** The items the batcher of a dynamic cache still holds went through the
    same check. *)
Definition batcher_wf (c : Cache) : Prop :=
  match c with
  | CacheDynamic _ bt => Forall has_desc (batcher_items bt)
  | CacheStatic _ => True
  end.

Definition cache_wf (c : Cache) : Prop :=
  Forall package_wf (cache_ (base c)) /\ batcher_wf c.

(** ** What the sweeps keep and what they report *)

Definition item_live (h : CtrlHeap) (it : InferData) : Prop :=
  exists c, item_ctrl it = Some c /\ IsDiscarded (h c) = false.

Definition item_dead (h : CtrlHeap) (it : InferData) : Prop :=
  exists c, item_ctrl it = Some c /\ IsDiscarded (h c) = true.

(** The report a sweep makes for an item it removes. *)
Definition reported_success (it : InferData) (ev : Event) : Prop :=
  exists c, item_ctrl it = Some c /\ ev = EvProcessFailed c SUCCESS.

Definition queue_items (q : list Package) : list InferData :=
  concat (data <$> q).

(** Sample objects for the closed instances below: controls 0 and 1 with
    request ids 0 and 1, none discarded, and the identity priority. *)
Definition sample_heap : CtrlHeap := fun c => mkRequestControl (Z.of_nat c) false.
Definition sample_priority : Priority := mkPriority (fun bias => bias).
Definition sample_item (pl c idx : nat) : InferData :=
  mkInferData pl (Some (mkTaskDesc c idx)).

(** ** When the sweep of [Pop] leaves nothing *)

(** The head package holds an item whose control is discarded. *)
Definition head_has_discarded (h : CtrlHeap) (c : Cache) : Prop :=
  exists pack rest, cache_ (base c) = pack :: rest /\ Exists (item_dead h) (data pack).

(** The sweep reclaims the whole queue: under DYNAMIC every queued item is
    discarded, under STATIC the first item of every queued package is. *)
Definition all_reclaimed (h : CtrlHeap) (c : Cache) : Prop :=
  match c with
  | CacheDynamic b _ => Forall (item_dead h) (queue_items (cache_ b))
  | CacheStatic b =>
      Forall (fun p => exists first, data p !! 0 = Some first /\ item_dead h first)
             (cache_ b)
  end.

(** The sentence of the specification on [Pop] returning null: only on a
    stopped and empty cache. *)
Definition Pop_null_only_when_stopped_and_empty : Prop :=
  forall priority0 h c c' evs,
    cache_wf c ->
    Pop priority0 h c = Some (PopNull, c', evs) ->
    Running c = false /\ cache_ (base c) = [].

(** ** The states a cache goes through

    A cache is built by a constructor and then driven by [Start], [Stop],
    [Push], [Pop] and the timer of its batcher, with the controls in any
    state at each call. [accepts c pack] restricts the packages that are
    pushed. *)
Inductive reachable (accepts : Cache -> Package -> Prop) : Cache -> Prop :=
  | reach_new_dynamic capacity batch_size prio :
      reachable accepts (CacheDynamic_new capacity batch_size prio)
  | reach_new_static capacity batch_size prio :
      reachable accepts (CacheStatic_new capacity batch_size prio)
  | reach_Start c :
      reachable accepts c -> reachable accepts (Start c)
  | reach_Stop h c c' :
      reachable accepts c -> Stop h c = Some c' -> reachable accepts c'
  | reach_Timer h c c' :
      reachable accepts c -> Timer h c = Some c' -> reachable accepts c'
  | reach_Push h c pack r c' :
      reachable accepts c -> accepts c pack ->
      Push h c (Some pack) = Some (r, c') -> reachable accepts c'
  | reach_Pop priority0 h c r c' evs :
      reachable accepts c -> Pop priority0 h c = Some (r, c', evs) ->
      reachable accepts c'.

(** Any package may be pushed. *)
Definition any_package (c : Cache) (pack : Package) : Prop := True.

(** All the items of the package belong to one request, as in a package
    that [Session::Send] builds (it attaches one RequestControl to every
    item). *)
Definition one_request (pack : Package) : Prop :=
  exists c, Forall (fun it => item_ctrl it = Some c) (data pack).

(** A package pushed to a static cache holds the items of one request. *)
Definition static_one_request (c : Cache) (pack : Package) : Prop :=
  match c with
  | CacheDynamic _ _ => True
  | CacheStatic _ => one_request pack
  end.

(** ** Invariants of the queue *)

(** The control of [d] is the control of an item of the package. *)
Definition desc_of_package (p : Package) (d : TaskDesc) : Prop :=
  exists it, it ∈ data p /\ item_ctrl it = Some (ctrl d).

(** A continuous blob: one payload, [data_num] descriptors. *)
Definition continuous_blob (p : Package) : Prop :=
  length (data p) = 1 /\ length (descs p) = data_num p.

Definition dynamic_package_inv (bs : N) (p : Package) : Prop :=
  package_wf p /\ descs p = [] /\
  ((1 <= bs)%N -> (N.of_nat (length (data p)) <= bs)%N).

Definition static_package_inv (bs : N) (p : Package) : Prop :=
  package_wf p /\ Forall (desc_of_package p) (descs p) /\
  ((1 <= bs < 2 ^ 32)%N ->
   (N.of_nat (length (descs p)) <= bs)%N \/ continuous_blob p).

Definition cache_inv (c : Cache) : Prop :=
  match c with
  | CacheDynamic b bt =>
      Forall (dynamic_package_inv (batch_size_ b)) (cache_ b) /\
      Forall has_desc (batcher_items bt) /\
      ((1 <= batch_size_ b)%N ->
       (N.of_nat (length (batcher_items bt)) < batch_size_ b)%N)
  | CacheStatic b => Forall (static_package_inv (batch_size_ b)) (cache_ b)
  end.

(** Every package queued in a static cache holds the items of one request. *)
Definition static_uniform (c : Cache) : Prop :=
  match c with
  | CacheDynamic _ _ => True
  | CacheStatic b => Forall one_request (cache_ b)
  end.

(** No descriptor of the package belongs to a discarded request. *)
Definition package_live (h : CtrlHeap) (p : Package) : Prop :=
  Forall (fun d => IsDiscarded (h (ctrl d)) = false) (descs p).

(** Every package [Pop] returns holds only items of live requests, under
    both strategies and whatever was pushed, packages that mix the items of
    several requests included. [Session::Send] builds no such package: it
    attaches one RequestControl to all the items of a request. *)
Definition Pop_returns_only_live : Prop :=
  forall priority0 h c p c' evs,
    reachable any_package c ->
    Pop priority0 h c = Some (PopPack p, c', evs) -> package_live h p.

(** ** The sentences of the specification that the code does not meet as
    they stand, and the concrete runs that show it *)


(** A package with an item of request 0 and an item of request 1; no call
    of [Session::Send] builds it. *)
Definition mixed_package : Package :=
  mkPackage [sample_item 7 0 0; sample_item 8 1 0] [] 0%Z 2.

(** The static cache (capacity 8, batch size 4) after [Start] and the push
    of [mixed_package]. *)
Definition mixed_cache : Cache :=
  CacheStatic (mkCacheBase
    [mkPackage [sample_item 7 0 0; sample_item 8 1 0]
               [mkTaskDesc 0 0; mkTaskDesc 1 0] 0%Z 2]
    8 4 sample_priority true).

(** What [Pop] returns from [mixed_cache] once request 1 is discarded. *)
Definition mixed_popped : Package :=
  mkPackage [mkInferData 7 None; mkInferData 8 None]
            [mkTaskDesc 0 0; mkTaskDesc 1 0] 0%Z 2.

(** One item of request 1. *)
Definition single_package : Package := mkPackage [sample_item 7 1 0] [] 0%Z 1.

(** The static cache after [Start] and the push of [single_package]. *)
Definition single_cache : Cache :=
  CacheStatic (mkCacheBase
    [mkPackage [sample_item 7 1 0] [mkTaskDesc 1 0] (-1)%Z 1]
    8 4 sample_priority true).

(** What [Pop] returns from [single_cache]. *)
Definition single_popped : Package :=
  mkPackage [mkInferData 7 None] [mkTaskDesc 1 0] (-1)%Z 1.



(** The dynamic cache (batch size 4) after [Start], the push of
    [single_package] and the timer of the batcher. *)
Definition single_dynamic_cache : Cache :=
  CacheDynamic (mkCacheBase
    [mkPackage [sample_item 7 1 0] [] (-1)%Z 1]
    8 4 sample_priority true) (mkBatcher []).

(** A cache whose queue is empty. *)
Definition drained_static_cache : Cache :=
  CacheStatic (mkCacheBase [] 8 4 sample_priority true).
Definition drained_dynamic_cache : Cache :=
  CacheDynamic (mkCacheBase [] 8 4 sample_priority true) (mkBatcher []).


(** * Properties of the facade: definitions *)


(** The sentence of the specification on invalid arguments: a facade call
    with a null argument returns a failure value. *)
Definition null_argument_returns_failure : Prop :=
  (forall ctor_ok cores dpost priv desc observer,
     model desc = None \/ preproc desc = None ->
     exists priv', CreateSession ctor_ok cores dpost priv desc observer
                   = Returns (None, priv')) /\
  (forall priv session input timeout env,
     session = None \/ input = None ->
     Request priv session input timeout env = Returns false) /\
  (forall priv session input status output timeout env,
     session = None \/ input = None ->
     exists r, RequestSync priv session input (Some status) (Some output) timeout env
               = Returns r /\ sync_ret r = false).

(** Sample objects of the facade. *)
Definition sample_processor (type_name : string) : Processor :=
  mkProcessor type_name (fun pack => (SUCCESS, pack)).
Definition failing_processor : Processor :=
  mkProcessor "Failing" (fun pack => (ERROR_BACKEND, pack)).
Definition sample_model : Model := mkModel "resnet50.cambricon" "subnet0".
Definition sample_desc : SessionDesc :=
  mkSessionDesc "session" (Some sample_model) (Some (sample_processor "Preproc"))
                (Some (sample_processor "Postproc")) 2 false.
Definition null_model_desc : SessionDesc :=
  mkSessionDesc "session" None (Some (sample_processor "Preproc"))
                (Some (sample_processor "Postproc")) 2 false.
(** A server that has created nothing yet, with one pool thread. *)
Definition fresh_server : InferServerPrivate :=
  mkInferServerPrivate ∅ 1 0%Z ∅ ∅ 0.
(** [fresh_server] after a first [CreateSession] with [sample_desc] and no
    observer, on a host with 4 cores: executor 0, session 1, 7 threads. *)
Definition linked_server : InferServerPrivate :=
  mkInferServerPrivate
    {[ "resnet50.cambricon_subnet0_Preproc_Postproc" := 0 ]} 7 0%Z
    {[ 0 := mkExecutor
              (set_name sample_desc "resnet50.cambricon_subnet0_Preproc_Postproc") [1] ]}
    {[ 1 := mkSession "session" 0 true false None ]} 2.
(** A server with one synchronous session (pointer 1) on executor 0. *)
Definition sync_server : InferServerPrivate :=
  mkInferServerPrivate ∅ 1 0%Z ∅ {[ 1 := mkSession "session" 0 true false None ]} 2.
Definition sample_env_cache_full : SyncEnv := mkSyncEnv false 5 None None.
Definition sample_env_no_answer : SyncEnv := mkSyncEnv true 0 (Some 3) None.

(** The package of a request of [n] items, as [Session::Send] hands it to
    the cache: item [i] carries the descriptor [(c, i)]. *)
Definition request_package (c n : nat) : Package :=
  mkPackage ((fun i => sample_item i c i) <$> seq 0 n) [] 0%Z n.

(** The sizes of the queued packages. *)
Definition queue_sizes (c : Cache) : list nat :=
  (fun p => length (data p)) <$> cache_ (base c).

(** Several pushes in a row. *)
Fixpoint push_all (h : CtrlHeap) (c : Cache) (packs : list Package) : option Cache :=
  match packs with
  | [] => Some c
  | pack :: rest => '(_, c') ← Push h c (Some pack); push_all h c' rest
  end.


(** * More of the cache: definitions *)

(** The item carries a descriptor whose request is not discarded. *)
Definition is_live (h : CtrlHeap) (it : InferData) : bool :=
  match item_ctrl it with
  | Some c => negb (IsDiscarded (h c))
  | None => false
  end.

(** What the dynamic sweep reports for an item: nothing when it is live. *)
Definition discard_report (h : CtrlHeap) (it : InferData) : option Event :=
  match item_ctrl it with
  | Some c => if IsDiscarded (h c) then Some (EvProcessFailed c SUCCESS) else None
  | None => None
  end.

(** The items of the package a [Pop] hands over. *)
Definition returned_items (r : PopResult) : list InferData :=
  match r with
  | PopPack p => data p
  | _ => []
  end.

(** [CacheBase::WaitIfFull(timeout)]. When the queue is at capacity the call
    waits on the condition variable; [size_at_wake] is the size of the queue
    when that wait ends, which is the first moment the queue is below
    capacity or, for [wait_for], the end of the timeout. *)
Definition WaitIfFull (c : Cache) (timeout : Z) (size_at_wake : nat) : Outcome bool :=
  if (cache_capacity_ (base c) <=? N.of_nat (length (cache_ (base c))))%N
  then
    if (0 <? timeout)%Z
    then Returns (N.of_nat size_at_wake <? cache_capacity_ (base c))%N
    else if (N.of_nat size_at_wake <? cache_capacity_ (base c))%N
         then Returns true
         else Blocks
  else Returns true.

(** The dynamic cache (batch size 2) after [Start] and the pushes of four
    requests of one item, requests 0 to 3. *)
Definition paired_dynamic_cache : Cache :=
  CacheDynamic (mkCacheBase
    [mkPackage [sample_item 0 0 0; sample_item 0 1 0] [] 0%Z 2;
     mkPackage [sample_item 0 2 0; sample_item 0 3 0] [] (-2)%Z 2]
    8 2 sample_priority true) (mkBatcher []).

(** [paired_dynamic_cache] after the sweep, requests 0 and 2 being
    discarded. *)
Definition swept_dynamic_cache : Cache :=
  CacheDynamic (mkCacheBase
    [mkPackage [sample_item 0 1 0; sample_item 0 3 0] [] 0%Z 2]
    8 2 sample_priority true) (mkBatcher []).

(** The items the batcher of a dynamic cache holds; a static cache has no
    batcher. *)
Definition pending_items (c : Cache) : list InferData :=
  match c with
  | CacheDynamic _ bt => batcher_items bt
  | CacheStatic _ => []
  end.

(** [~CacheDynamic]: [CHECK_EQ(batcher_->Size(), 0u)]. The destructor of
    CacheStatic is the default one. *)
Definition Cache_destroy (c : Cache) : Outcome unit :=
  match c with
  | CacheDynamic _ bt =>
      if length (batcher_items bt) =? 0
      then Returns tt
      else CheckFailed "Executor Destruction] Batcher should not have any data"
  | CacheStatic _ => Returns tt
  end.

(** The first item of the package belongs to a live request. *)
Definition head_live (h : CtrlHeap) (p : Package) : bool :=
  match data p !! 0 with
  | Some first => is_live h first
  | None => false
  end.

(** What the static sweep reports for a package it drops: one report per
    item, to the control of the item. *)
Definition package_reports (p : Package) : list Event :=
  omap (fun it => (fun c => EvProcessFailed c SUCCESS) <$> item_ctrl it) (data p).

(** A dynamic cache (batch size 4) that runs, with one item in its batcher. *)
Definition pending_dynamic_cache : Cache :=
  CacheDynamic (mkCacheBase [] 8 4 sample_priority true) (mkBatcher [sample_item 7 1 0]).

(** [single_cache] with a second package, of request 0, behind the first. *)
Definition two_request_cache : Cache :=
  CacheStatic (mkCacheBase
    [mkPackage [sample_item 7 1 0] [mkTaskDesc 1 0] (-1)%Z 1;
     mkPackage [sample_item 8 0 0; sample_item 9 0 1] [mkTaskDesc 0 0; mkTaskDesc 0 1] 0%Z 2]
    8 4 sample_priority true).

(** * The engine: definitions *)

(** A node as the vector [nodes_] of an Engine stores it: its processor and
    the node it is linked to, a pointer into the same vector, kept here as
    an index. *)
Record NodeCell : Type := mkNodeCell {
  cell_processor : Processor;
  cell_downnode : option nat
}.

(** Modelled from the spec: [TaskNode::Link], declared in [engine.h], sets
    the forward link of a node. *)
Definition Link (nodes : list NodeCell) (idx down : nat) : list NodeCell :=
  alter (fun c => mkNodeCell (cell_processor c) (Some down)) idx nodes.

(** [nodes_.size() - 1], computed on [size_t] (64 bits). *)
Definition size_minus_1 (size : nat) : nat :=
  Z.to_nat ((Z.of_nat size - 1) mod 2 ^ 64).

(** The loop [for (idx = 0; idx < nodes_.size() - 1; ++idx)
    nodes_[idx].Link(&nodes_[idx + 1])] of the constructor and of [Fork];
    [turns] counts the turns that are left. Indexing the vector out of its
    range has no defined result. *)
Fixpoint Engine_link (turns idx : nat) (nodes : list NodeCell) : option (list NodeCell) :=
  match turns with
  | 0 => Some nodes
  | S turns =>
      if bool_decide (idx + 1 < length nodes)
      then Engine_link turns (S idx) (Link nodes idx (idx + 1))
      else None
  end.

(** [Engine::Engine(processors, done_func, tp)]: the vector [nodes_]. Every
    node gets the same notifier, which decrements [task_num_] and calls
    [done_func]; [EvDoneNotifier] stands for a call of it. *)
Definition Engine_new (processors : list Processor) : Outcome (list NodeCell) :=
  let nodes := (fun p => mkNodeCell p None) <$> processors in
  match Engine_link (size_minus_1 (length nodes)) 0 nodes with
  | Some nodes => Returns nodes
  | None => Undefined
  end.

Section Fork.

(** [Processor::Fork], of [processor.h]. *)
Variable Processor_Fork : Processor -> Processor.

(** Modelled from the spec: [TaskNode::Fork], declared in [engine.h], gives
    a node for a clone of the processor. [keep_link] tells whether the new
    node starts with the link of the old one. *)
Variable keep_link : bool.

Definition TaskNode_Fork (c : NodeCell) : NodeCell :=
  mkNodeCell (Processor_Fork (cell_processor c))
             (if keep_link then cell_downnode c else None).

(** [Engine::Fork]: the vector [nodes_] of the new engine. *)
Definition Engine_Fork (nodes : list NodeCell) : Outcome (list NodeCell) :=
  let forked := TaskNode_Fork <$> nodes in
  match Engine_link (size_minus_1 (length forked)) 0 forked with
  | Some nodes => Returns nodes
  | None => Undefined
  end.

End Fork.

(** The node at [idx] with the nodes it reaches through the links. *)
Fixpoint Engine_node (fuel : nat) (nodes : list NodeCell) (idx : nat) : option TaskNode :=
  match fuel with
  | 0 => None
  | S fuel =>
      c ← nodes !! idx;
      match cell_downnode c with
      | None => Some (TailNode (cell_processor c))
      | Some down => LinkedNode (cell_processor c) <$> Engine_node fuel nodes down
      end
  end.

(** The processors in a line, the last one at the tail. *)
Fixpoint Engine_chain (p : Processor) (rest : list Processor) : TaskNode :=
  match rest with
  | [] => TailNode p
  | q :: rest => LinkedNode p (Engine_chain q rest)
  end.

(** The number of links behind a node. *)
Fixpoint TaskNode_depth (n : TaskNode) : nat :=
  match n with
  | TailNode _ => 0
  | LinkedNode _ down => S (TaskNode_depth down)
  end.

(** Modelled from the spec: the thread pool ([util/thread_pool.h]) runs
    every task pushed to it. [ThreadPool_run] replaces a push by what the
    call of the pushed node does, pushes included; [fuel] bounds the number
    of tasks run in a row. *)
Fixpoint ThreadPool_run (Next : Z -> Z) (fuel : nat) (ev : Event) {struct fuel}
  : option (list Event) :=
  match ev with
  | EvVoidPush _ node pack =>
      match fuel with
      | 0 => None
      | S fuel =>
          evs ← TaskNode_call Next node pack;
          evss ← mapM (ThreadPool_run Next fuel) evs;
          Some (concat evss)
      end
  | _ => Some [ev]
  end.

(** The way of a package through the stages from [n] on: the status of the
    last processor that ran and the package as that processor left it. A
    stage runs after the one before returned SUCCESS, on the package with
    the priority of the next tier. *)
Fixpoint Engine_flow (Next : Z -> Z) (n : TaskNode) (pack : Package) : Status * Package :=
  let '(s, pack') := Process (processor_ n) pack in
  match n with
  | TailNode _ => (s, pack')
  | LinkedNode _ down =>
      if bool_decide (s <> SUCCESS)
      then (s, pack')
      else Engine_flow Next down (set_priority pack' (Next (priority pack')))
  end.

(** A processor that fails on the packages of priority 1 and more. *)
Definition picky_processor : Processor :=
  mkProcessor "Picky"
    (fun pack => (if (1 <=? priority pack)%Z then ERROR_BACKEND else SUCCESS, pack)).

(** The vector of nodes of the processors [ps] in which node [i] has the
    link [link i]. *)
Definition Engine_cells (link : nat -> option nat) (ps : list Processor) : list NodeCell :=
  imap (fun i p => mkNodeCell p (link i)) ps.

(** The links of a line of [size] nodes: each node to the next one, the
    last one to none. *)
Definition line_link (size : nat) (i : nat) : option nat :=
  if bool_decide (S i < size) then Some (S i) else None.

(** What the nodes report at the end of a pipeline that passed: a
    [ProcessDone] for every desc, then the done notifier. *)
Definition done_reports (pack : Package) : list Event :=
  zip_with (fun d it => EvProcessDone (ctrl d) SUCCESS it (index d)) (descs pack) (data pack)
  ++ [EvDoneNotifier].

(** What a node reports when its processor fails. *)
Definition failed_reports (s : Status) (pack : Package) : list Event :=
  (fun d => EvProcessFailed (ctrl d) s) <$> descs pack.

(** * More of the facade: definitions *)

(** Modelled from the spec: [Executor::Unlink] and
    [Executor::GetSessionNum], declared in [executor.h]: a session leaves
    the set of the linked sessions; the number of linked sessions. *)
Definition Unlink (e : Executor) (session : Session_t) : Executor :=
  mkExecutor (executor_desc e) (filter (fun s => s <> session) (link_set e)).

Definition GetSessionNum (e : Executor) : nat := length (link_set e).

(** [InferServerPrivate::ExistExecutor]; it reads the name through the
    pointer. *)
Definition ExistExecutor (priv : InferServerPrivate) (executor : Executor_t) : Outcome bool :=
  match executors priv !! executor with
  | None => Undefined
  | Some ex => Returns (bool_decide (is_Some (executor_map_ priv !! GetName ex)))
  end.

Section Destroy.

(** [2 * executor->GetEngineNum()]; [GetEngineNum] is declared in
    [executor.h]. *)
Variable th_num : Executor -> N.

(** [InferServerPrivate::CheckAndDestroyExecutor]. [IdleNumber] is what
    [tp_->IdleNumber()] returns when the pool is asked. *)
Definition CheckAndDestroyExecutor (priv : InferServerPrivate) (session : option Session_t)
    (executor : option Executor_t) (IdleNumber : Z) : Outcome InferServerPrivate :=
  match executor with
  | None => CheckFailed "Executor is null!"
  | Some executor =>
  match session with
  | None => CheckFailed "Session is null!"
  | Some session =>
  match executors priv !! executor, sessions priv !! session with
  | Some ex, Some _ =>
      let ex := Unlink ex session in
      let sessions := delete session (sessions priv) in
      if GetSessionNum ex =? 0
      then
        let name := GetName ex in
        if bool_decide (is_Some (executor_map_ priv !! name))
        then
          let size := tp_size priv in
          let resized :=
            if (th_num ex <? Z.to_N (IdleNumber mod 2 ^ 32))%N
            then Z.to_N ((Z.of_N size - Z.of_N (th_num ex)) mod 2 ^ 64)
            else size in
          Returns (mkInferServerPrivate (delete name (executor_map_ priv)) resized
                     (device_id_ priv) (delete executor (executors priv)) sessions
                     (next_ptr priv))
        else CheckFailed "executor does not belong to this InferServer"
      else
        Returns (mkInferServerPrivate (executor_map_ priv) (tp_size priv) (device_id_ priv)
                   (<[executor := ex]> (executors priv)) sessions (next_ptr priv))
  | _, _ => Undefined
  end
  end
  end.

(** [InferServer::DestroySession]. *)
Definition DestroySession (priv : InferServerPrivate) (session : option Session_t)
    (IdleNumber : Z) : Outcome (bool * InferServerPrivate) :=
  match session with
  | None => CheckFailed "Session is null!"
  | Some session =>
  match sessions priv !! session with
  | None => Undefined
  | Some s =>
      let executor := GetExecutor s in
      match ExistExecutor priv executor with
      | Returns false => Returns (false, priv)
      | Returns true =>
          match CheckAndDestroyExecutor priv (Some session) (Some executor) IdleNumber with
          | Returns priv => Returns (true, priv)
          | CheckFailed msg => CheckFailed msg
          | Undefined => Undefined
          | Blocks => Blocks
          end
      | CheckFailed msg => CheckFailed msg
      | Undefined => Undefined
      | Blocks => Blocks
      end
  end
  end.

End Destroy.

(** The objects of a server hang together: an entry of the executor map
    points to a live Executor that has that name and a linked session; a
    live Executor is registered under its name; the sessions linked to an
    Executor are the live sessions that point to it; and the pointers in
    use are below [next_ptr]. *)
Record server_wf (priv : InferServerPrivate) : Prop := mkServerWf {
  wf_map : forall nm e, executor_map_ priv !! nm = Some e ->
             exists ex, executors priv !! e = Some ex /\ GetName ex = nm;
  wf_executor : forall e ex, executors priv !! e = Some ex ->
             executor_map_ priv !! GetName ex = Some e /\ link_set ex <> [] /\
             NoDup (link_set ex) /\ e < next_ptr priv;
  wf_link : forall e ex s, executors priv !! e = Some ex ->
             (s ∈ link_set ex <->
              exists sess, sessions priv !! s = Some sess /\ GetExecutor sess = e);
  wf_session : forall s sess, sessions priv !! s = Some sess ->
             s < next_ptr priv /\ is_Some (executors priv !! GetExecutor sess)
}.

(** Two models whose paths and function names differ and run together to
    the same text. *)
Definition split_model_a : Model := mkModel "net" "v2_subnet0".
Definition split_model_b : Model := mkModel "net_v2" "subnet0".

(** [linked_server] after [DestroySession] of session 1, with 5 idle pool
    threads and an executor of 2 engines: the executor is gone and the pool
    has 4 threads less. *)
Definition destroyed_server : InferServerPrivate :=
  mkInferServerPrivate
    (delete "resnet50.cambricon_subnet0_Preproc_Postproc" (executor_map_ linked_server))
    3 0%Z (delete 0 (executors linked_server)) (delete 1 (sessions linked_server)) 2.

(** Descriptors of the two split models. *)
Definition split_desc_a : SessionDesc :=
  mkSessionDesc "a" (Some split_model_a) (Some (sample_processor "Preproc"))
                (Some (sample_processor "Postproc")) 2 false.
Definition split_desc_b : SessionDesc :=
  mkSessionDesc "b" (Some split_model_b) (Some (sample_processor "Preproc"))
                (Some (sample_processor "Postproc")) 2 false.

(** [fresh_server] after [CreateSession] with [split_desc_a]. *)
Definition split_server : InferServerPrivate :=
  mkInferServerPrivate
    {[ "net_v2_subnet0_Preproc_Postproc" := 0 ]} 7 0%Z
    {[ 0 := mkExecutor (set_name split_desc_a "net_v2_subnet0_Preproc_Postproc") [1] ]}
    {[ 1 := mkSession "a" 0 true false None ]} 2.

(** ** The singleton of a device *)

(** The static [server_map] of [InferServerPrivate::Instance], from device
    ids to the servers allocated so far. *)
Record ServerMap : Type := mkServerMap {
  server_map : gmap Z nat;
  next_server : nat
}.

(** [InferServerPrivate::Instance(device_id)]; [CheckDeviceId] is what
    [edk::MluContext().CheckDeviceId] answers at the time of the call. The
    result is the pointer returned, null when the check fails. *)
Definition Instance (CheckDeviceId : Z -> bool) (st : ServerMap) (device_id : Z)
  : option nat * ServerMap :=
  match server_map st !! device_id with
  | None =>
      if negb (CheckDeviceId device_id)
      then (None, st)
      else
        let server := next_server st in
        (Some server, mkServerMap (<[device_id := server]> (server_map st)) (S server))
  | Some server => (Some server, st)
  end.

(** The static map after further calls of [Instance], for any devices and
    whatever the device check answers. *)
Inductive later_map : ServerMap -> ServerMap -> Prop :=
  | later_map_refl st : later_map st st
  | later_map_step st st1 check device_id :
      later_map st st1 ->
      later_map st (Instance check st1 device_id).2.

(** * The decoder: definitions

    [easy_decode.cpp]. Bytes and the fixed-width integers of the code are
    integers of [Z], with the wrap-around written out. *)

(** ** detail::CheckProgressiveMode *)

(** [(data[i] << 8) | data[i + 1]], stored in a [uint16_t]. [data] is the
    buffer behind the pointer; reading past its end has no defined result. *)
Definition read_u16 (data : list Z) (i : Z) : option Z :=
  hi ← data !! Z.to_nat i;
  lo ← data !! Z.to_nat (i + 1)%Z;
  Some (Z.lor (Z.shiftl hi 8) lo mod 2 ^ 16)%Z.

(** The markers of the frames of a progressive JPEG. *)
Definition is_progressive (seg_header : Z) : bool :=
  (seg_header =? 0xffc2)%Z || (seg_header =? 0xffca)%Z.

(** The [while (i < length)] of [CheckProgressiveMode]; [i] is a
    [uint64_t]. [fuel] bounds the number of turns, and [Blocks] stands for a
    loop that has not ended within it. *)
Fixpoint CheckProgressiveMode_loop (fuel : nat) (data : list Z) (length i : Z) : Outcome Z :=
  match fuel with
  | 0 => Blocks
  | S fuel =>
      if (i <? length)%Z
      then
        match read_u16 data i with
        | None => Undefined
        | Some seg_header =>
            if is_progressive seg_header
            then Returns 1%Z
            else
              match read_u16 data (i + 2)%Z with
              | None => Undefined
              | Some step =>
                  CheckProgressiveMode_loop fuel data length ((i + 2 + step) mod 2 ^ 64)%Z
              end
        end
      else Returns 0%Z
  end.

(** [detail::CheckProgressiveMode(data, length)]. Every turn of the loop
    moves [i] forward by two bytes at least, so that a turn for every byte
    of the buffer is enough. *)
Definition CheckProgressiveMode (data : list Z) (length : Z) : Outcome Z :=
  match read_u16 data 0%Z with
  | None => Undefined
  | Some header =>
      if bool_decide (header <> 0xFFD8%Z)
      then Returns (-1)%Z
      else CheckProgressiveMode_loop (S (List.length data)) data length 2%Z
  end.

(** A segment of a JPEG stream: a marker of two bytes, the length of the
    segment in two bytes (it counts itself and the payload), the payload. *)
Record Segment : Type := mkSegment {
  seg_marker : Z;
  seg_payload : list Z
}.

Definition encode_segment (s : Segment) : list Z :=
  let len := (Z.of_nat (List.length (seg_payload s)) + 2)%Z in
  [seg_marker s / 256; seg_marker s mod 256; len / 256; len mod 256]%Z ++ seg_payload s.

(** The start-of-image marker followed by segments. *)
Definition jpeg_stream (segs : list Segment) : list Z :=
  [0xff; 0xd8]%Z ++ concat (encode_segment <$> segs).

(** The marker and the payload fit their fields. *)
Definition segment_ok (s : Segment) : Prop :=
  (0 <= seg_marker s < 2 ^ 16)%Z /\ (Z.of_nat (List.length (seg_payload s)) + 2 < 2 ^ 16)%Z.

Definition has_progressive (segs : list Segment) : bool :=
  existsb (fun s => is_progressive (seg_marker s)) segs.

(** ** The macro ALIGN *)

(** [(((u32_t)(size) + (alignment)-1) & ~((alignment)-1))], for an
    [alignment] of type [int]: the arithmetic is that of [u32_t]. *)
Definition ALIGN (size alignment : Z) : Z :=
  Z.land ((size mod 2 ^ 32 + alignment - 1) mod 2 ^ 32)
         (Z.lnot (alignment - 1) mod 2 ^ 32).

(** ** DecodeHandler *)

(** Modelled from the spec: [EasyDecode::Status], declared in
    [easy_decode.h]; the code names these four states. *)
Inductive DecodeStatus : Type := RUNNING | PAUSED | STOP | EOS.

#[global] Instance DecodeStatus_eq_dec : EqDecision DecodeStatus.
Proof. solve_decision. Defined.

(** The codes of the exceptions the feeding functions throw. *)
Module Exception.
Inductive Code : Type := INTERNAL | UNSUPPORTED | TIMEOUT.
End Exception.

(** The fields of a DecodeHandler that the functions below use; [handle_]
    tells whether the codec handle is set. *)
Record DecodeHandler : Type := mkDecodeHandler {
  handle_ : bool;
  jpeg_decode_ : bool;
  status_ : DecodeStatus;
  send_eos_ : bool;
  pts_key_ : Z;
  vpu_pts_map_ : gmap Z Z;
  packets_count_ : Z
}.

Definition set_pts (st : DecodeHandler) (key : Z) (m : gmap Z Z) : DecodeHandler :=
  mkDecodeHandler (handle_ st) (jpeg_decode_ st) (status_ st) (send_eos_ st) key m
                  (packets_count_ st).

Definition set_status (st : DecodeHandler) (s : DecodeStatus) : DecodeHandler :=
  mkDecodeHandler (handle_ st) (jpeg_decode_ st) s (send_eos_ st) (pts_key_ st)
                  (vpu_pts_map_ st) (packets_count_ st).

(** How a call that may throw ends: it returns, it throws and leaves the
    handler in a state, or it has no defined result (a read past a buffer, a
    failed [CHECK]). *)
Inductive Try (A : Type) : Type :=
  | Ok (a : A)
  | Throw (code : Exception.Code) (st : DecodeHandler)
  | Fault.
Arguments Ok {A} a.
Arguments Throw {A} code st.
Arguments Fault {A}.

(** [DecodeHandler::SetVpuTimestamp]: the key is a [uint32_t] counter. *)
Definition SetVpuTimestamp (st : DecodeHandler) (pts : Z) : Z * DecodeHandler :=
  let key := pts_key_ st in
  (key, set_pts st ((key + 1) mod 2 ^ 32)%Z (<[key := pts]> (vpu_pts_map_ st))).

(** [DecodeHandler::GetVpuTimestamp(key, pts)]; [pts_not_null] tells
    whether the pointer [pts] is set. The result is the return value, what is
    written to [*pts], and the handler. *)
Definition GetVpuTimestamp (st : DecodeHandler) (key : Z) (pts_not_null : bool)
  : bool * option Z * DecodeHandler :=
  match vpu_pts_map_ st !! key with
  | Some pts =>
      let st' := set_pts st (pts_key_ st) (delete key (vpu_pts_map_ st)) in
      if pts_not_null then (true, Some pts, st') else (false, None, st')
  | None => (false, None, st)
  end.

(** What [cnvideoDecFeedData] and [cnjpegDecFeedData] answer. *)
Inductive FeedAnswer : Type :=
  | CNCODEC_SUCCESS
  | CNCODEC_TIMEOUT
  | CNCODEC_ERROR (ecode : Z).

(** The loop [while (retry_time--)] of [FeedVideoData] and [FeedJpegData].
    [retry_time] is the value before the test, [attempt] counts the calls of
    the codec, [answers] gives what the codec answers to each, and [key] is
    the record to erase when the feed fails. The result holds the handler
    after the loop. *)
Fixpoint Feed_loop (retry_time : nat) (attempt : nat) (answers : nat -> FeedAnswer)
    (st : DecodeHandler) (key : Z) : Try DecodeHandler :=
  match retry_time with
  | 0 => Ok st
  | S retry_time =>
      match answers attempt with
      | CNCODEC_TIMEOUT =>
          if retry_time =? 0
          then Throw Exception.TIMEOUT (GetVpuTimestamp st key false).2
          else Feed_loop retry_time (S attempt) answers st key
      | CNCODEC_ERROR _ => Throw Exception.INTERNAL (GetVpuTimestamp st key false).2
      | CNCODEC_SUCCESS => Ok st
      end
  end.

Definition set_packets_count (st : DecodeHandler) (n : Z) : DecodeHandler :=
  mkDecodeHandler (handle_ st) (jpeg_decode_ st) (status_ st) (send_eos_ st) (pts_key_ st)
                  (vpu_pts_map_ st) n.

(** [DecodeHandler::FeedVideoData]; [pts] is [packet.pts]. The counter
    [packets_count_] is a [uint32_t]: [packets_count_++] wraps at 2^32. *)
Definition FeedVideoData (st : DecodeHandler) (pts : Z) (answers : nat -> FeedAnswer)
  : Try DecodeHandler :=
  let '(key, st) := SetVpuTimestamp st pts in
  match Feed_loop 3 0 answers st key with
  | Ok st => Ok (set_packets_count st ((packets_count_ st + 1) mod 2 ^ 32)%Z)
  | Throw code st => Throw code st
  | Fault => Fault
  end.

(** [DecodeHandler::FeedJpegData]: the record it erases on failure has the
    key [input.pts], cut to a [uint32_t]. *)
Definition FeedJpegData (st : DecodeHandler) (pts : Z) (progressive_mode : Z)
    (answers : nat -> FeedAnswer) : Try DecodeHandler :=
  if (progressive_mode <? 0)%Z then Fault
  else Feed_loop 3 0 answers st (pts mod 2 ^ 32)%Z.

(** A [CnPacket]: the bytes behind [data] (none for a null pointer),
    [length] and [pts]. *)
Record CnPacket : Type := mkCnPacket {
  packet_data : option (list Z);
  packet_length : Z;
  packet_pts : Z
}.

(** [EasyDecode::FeedData]. *)
Definition FeedData (st : DecodeHandler) (packet : CnPacket) (integral_frame : bool)
    (answers : nat -> FeedAnswer) : Try (bool * DecodeHandler) :=
  if negb (handle_ st) then Ok (false, st)
  else if send_eos_ st then Ok (false, st)
  else if bool_decide (status_ st = PAUSED) then Ok (false, st)
  else if (packet_length packet =? 0)%Z then Ok (false, st)
  else
    match packet_data packet with
    | None => Ok (false, st)
    | Some data =>
        if negb (jpeg_decode_ st)
        then
          match FeedVideoData st (packet_pts packet) answers with
          | Ok st => Ok (true, st)
          | Throw code st => Throw code st
          | Fault => Fault
          end
        else
          match CheckProgressiveMode data (packet_length packet) with
          | Returns progressive_mode =>
              if (progressive_mode <? 0)%Z then Ok (false, st)
              else if (progressive_mode =? 0)%Z
              then
                match FeedJpegData st (packet_pts packet) progressive_mode answers with
                | Ok st => Ok (true, st)
                | Throw code st => Throw code st
                | Fault => Fault
                end
              else Throw Exception.UNSUPPORTED st
          | _ => Fault
          end
    end.

Definition set_send_eos (st : DecodeHandler) (b : bool) : DecodeHandler :=
  mkDecodeHandler (handle_ st) (jpeg_decode_ st) (status_ st) b (pts_key_ st)
                  (vpu_pts_map_ st) (packets_count_ st).

(** [DecodeHandler::FeedEos]; [answers 0] is what the codec answers to the
    end-of-stream input. *)
Definition FeedEos (st : DecodeHandler) (answers : nat -> FeedAnswer)
  : Try (bool * DecodeHandler) :=
  if send_eos_ st then Ok (false, st)
  else
    match answers 0 with
    | CNCODEC_TIMEOUT => Throw Exception.TIMEOUT st
    | CNCODEC_ERROR _ => Throw Exception.INTERNAL st
    | CNCODEC_SUCCESS => Ok (true, set_send_eos st true)
    end.

(** [EasyDecode::SendData]; [answers] are those of the codec to the feed of
    the packet, [eos_answers] those to the feed of the end of stream. *)
Definition SendData (st : DecodeHandler) (packet : CnPacket) (eos integral_frame : bool)
    (answers eos_answers : nat -> FeedAnswer) : Try (bool * DecodeHandler) :=
  let finish st := if eos then FeedEos st eos_answers else Ok (true, st) in
  if (0 <? packet_length packet)%Z && bool_decide (is_Some (packet_data packet))
  then
    match FeedData st packet integral_frame answers with
    | Ok (false, st) => Ok (false, st)
    | Ok (true, st) => finish st
    | Throw code st => Throw code st
    | Fault => Fault
    end
  else if negb eos then Ok (false, st)
  else finish st.

(** [EasyDecode::Pause] and [EasyDecode::Resume]:
    [compare_exchange_strong] on the status. *)
Definition Pause (st : DecodeHandler) : bool * DecodeHandler :=
  if bool_decide (status_ st = RUNNING)
  then (true, set_status st PAUSED)
  else (false, st).

Definition Resume (st : DecodeHandler) : bool * DecodeHandler :=
  if bool_decide (status_ st = PAUSED)
  then (true, set_status st RUNNING)
  else (false, st).

(** Successive calls of [SetVpuTimestamp], with the keys they return. *)
Fixpoint SetVpuTimestamps (st : DecodeHandler) (ptss : list Z) : list Z * DecodeHandler :=
  match ptss with
  | [] => ([], st)
  | pts :: ptss =>
      let '(key, st) := SetVpuTimestamp st pts in
      let '(keys, st) := SetVpuTimestamps st ptss in
      (key :: keys, st)
  end.

(** * Further sample objects and sentences *)

(** A request of two items, request 0, as [Session::Send] hands it to the
    cache. *)
Definition pair_package : Package :=
  mkPackage [sample_item 8 0 0; sample_item 9 0 1] [] 0%Z 2.

(** What [Pop] returns from [two_request_cache] once request 1 is
    discarded: the sweep drops the package of request 1, and the package of
    request 0 comes out. *)
Definition pair_popped : Package :=
  mkPackage [mkInferData 8 None; mkInferData 9 None]
            [mkTaskDesc 0 0; mkTaskDesc 0 1] 0%Z 2.

(** A request of one item, request [c]. *)
Definition one_item_request (c : nat) : Package := mkPackage [sample_item 0 c 0] [] 0%Z 1.

(** What [Pop] returns from [paired_dynamic_cache] once requests 0 and 2
    are discarded, and the cache it leaves. *)
Definition paired_popped : Package :=
  mkPackage [mkInferData 0 None; mkInferData 0 None]
            [mkTaskDesc 1 0; mkTaskDesc 3 0] 0%Z 2.
Definition drained_paired_cache : Cache :=
  CacheDynamic (mkCacheBase [] 8 2 sample_priority true) (mkBatcher []).

(** The sentence of the specification on the timeouts of [RequestSync]: on
    a synchronous session and with a positive timeout, a call that finds
    [WaitIfCacheFull] timed out sets [*status] to TIMEOUT and returns false
    without sending, and every other call whose callback does not fulfil the
    future within the timeout discards the RequestControl, sets [*status] to
    TIMEOUT and returns true. *)
Definition RequestSync_timeout_as_stated : Prop :=
  forall priv session s input output status timeout env r,
    sessions priv !! session = Some s ->
    IsSyncLink s = true ->
    (0 < timeout)%Z ->
    RequestSync priv (Some session) (Some input) (Some status) (Some output) timeout env
    = Returns r ->
    (sync_WaitIfCacheFull env = false ->
     sync_ret r = false /\ status_after r = TIMEOUT /\ send_called r = false) /\
    (sync_WaitIfCacheFull env = true ->
     callback env = None ->
     sync_ret r = true /\ status_after r = TIMEOUT /\ is_Some (discarded_ctrl r)).

(** [WaitIfCacheFull] succeeds after half a millisecond; the request, if it
    is sent, gets the control 3 and no answer. *)
Definition sample_env_short_wait : SyncEnv := mkSyncEnv true (1 # 2) (Some 3) None.

(** [WaitIfCacheFull] succeeds at once and the callback answers in time. *)
Definition sample_env_answer : SyncEnv :=
  mkSyncEnv true 0 (Some 3) (Some (SUCCESS, pair_package)).

(** [WaitIfCacheFull] succeeds at once and [Session::Send] fails. *)
Definition sample_env_send_fails : SyncEnv := mkSyncEnv true 0 None None.

(** A handler that has counted 2^32 - 1 packets, and one that has counted
    none. *)
Definition full_count_handler : DecodeHandler :=
  mkDecodeHandler true false RUNNING false 5 ∅ 4294967295.
Definition fresh_handler : DecodeHandler :=
  mkDecodeHandler true false RUNNING false 5 ∅ 0.
(** * Properties of the cache *)

(** ** Well-formed queues: the cache functions return *)

Lemma has_desc_ctrl it : has_desc it -> exists c, item_ctrl it = Some c.
Proof. intros [d Hd]. exists (ctrl d). unfold item_ctrl. by rewrite Hd. Qed.

Lemma item_ctrl_has_desc it c : item_ctrl it = Some c -> has_desc it.
Proof.
  unfold item_ctrl, has_desc. destruct (desc it); [eauto | discriminate].
Qed.

Lemma find_discarded_total h l :
  Forall has_desc l -> exists b, find_discarded h l = Some b.
Proof.
  induction 1 as [|it l Hit _ IH]; simpl; [eauto|].
  destruct (has_desc_ctrl it Hit) as [c Hc].
  unfold item_discarded. rewrite Hc. simpl.
  destruct (IsDiscarded (h c)); eauto.
Qed.

Lemma mapM_desc_total l :
  Forall has_desc l -> exists ds, mapM desc l = Some ds /\ length ds = length l.
Proof.
  intros Hl. destruct (mapM desc l) as [ds|] eqn:E.
  - exists ds. split; [done|]. symmetry. by eapply length_mapM.
  - exfalso. apply mapM_None in E. apply Exists_exists in E as (it & Hin & Hn).
    rewrite Forall_forall in Hl. destruct (Hl it Hin) as [d Hd]. congruence.
Qed.

Lemma mapM_item_ctrl_total l :
  Forall has_desc l -> exists cs, mapM item_ctrl l = Some cs.
Proof.
  intros Hl. destruct (mapM item_ctrl l) as [cs|] eqn:E; [eauto|].
  exfalso. apply mapM_None in E. apply Exists_exists in E as (it & Hin & Hn).
  rewrite Forall_forall in Hl. destruct (has_desc_ctrl it (Hl it Hin)). congruence.
Qed.

Lemma CacheDynamic_sweep_items_total h l :
  Forall has_desc l -> is_Some (CacheDynamic_sweep_items h l).
Proof.
  induction 1 as [|it l Hit _ [[keep evs] IH]]; simpl; [eauto|].
  destruct (has_desc_ctrl it Hit) as [c ->]. simpl. rewrite IH. simpl.
  destruct (IsDiscarded (h c)); eauto.
Qed.

Lemma CacheDynamic_sweep_total h q :
  Forall package_wf q -> is_Some (CacheDynamic_sweep h q).
Proof.
  induction 1 as [|p q [_ Hp] _ [[keep evs] IH]]; simpl; [eauto|].
  destruct (CacheDynamic_sweep_items_total h _ Hp) as [[k e] ->]. simpl.
  rewrite IH. simpl. eauto.
Qed.

Lemma package_wf_first p :
  package_wf p -> exists first c, data p !! 0 = Some first /\ item_ctrl first = Some c.
Proof.
  intros [Hne Hall]. destruct (data p) as [|first l]; [done|].
  apply Forall_cons in Hall as [Hf _].
  destruct (has_desc_ctrl _ Hf) as [c Hc]. eauto.
Qed.

Lemma CacheStatic_sweep_total h q :
  Forall package_wf q -> is_Some (CacheStatic_sweep h q).
Proof.
  induction 1 as [|p q Hp _ [[keep evs] IH]]; simpl; [eauto|].
  destruct (package_wf_first p Hp) as (first & c & -> & Hc). simpl.
  rewrite Hc. simpl. rewrite IH.
  destruct (IsDiscarded (h c)); simpl; [|eauto].
  destruct Hp as [_ Hp].
  destruct (mapM_item_ctrl_total _ Hp) as [cs ->]. simpl. eauto.
Qed.

Lemma sweep_queue_total priority0 h c :
  cache_wf c -> is_Some (sweep_queue priority0 h c).
Proof.
  intros [Hq _]. destruct c as [b bt|b]; simpl in *.
  - destruct (CacheDynamic_sweep_total h _ Hq) as [[keep evs] ->]. simpl. eauto.
  - destruct (CacheStatic_sweep_total h _ Hq) as [[keep evs] ->]. simpl. eauto.
Qed.

Lemma item_live_has_desc h it : item_live h it -> has_desc it.
Proof. intros (c & Hc & _). by eapply item_ctrl_has_desc. Qed.

Lemma find_discarded_false h l :
  find_discarded h l = Some false -> Forall (item_live h) l.
Proof.
  induction l as [|it l IH]; simpl; [constructor|].
  unfold item_discarded. destruct (item_ctrl it) as [c|] eqn:Hc; simpl; [|done].
  destruct (IsDiscarded (h c)) eqn:Hd; [done|].
  intros Hl. constructor; [by exists c | auto].
Qed.

Lemma find_discarded_true h l :
  find_discarded h l = Some true -> Exists (item_dead h) l.
Proof.
  induction l as [|it l IH]; simpl; [done|].
  unfold item_discarded. destruct (item_ctrl it) as [c|] eqn:Hc; simpl; [|done].
  destruct (IsDiscarded (h c)) eqn:Hd.
  - intros _. left. by exists c.
  - intros Hl. right. auto.
Qed.

Lemma CacheDynamic_sweep_items_spec h l keep evs :
  CacheDynamic_sweep_items h l = Some (keep, evs) ->
  exists removed,
    l ≡ₚ keep ++ removed /\ Forall (item_live h) keep /\
    Forall (item_dead h) removed /\ Forall2 reported_success removed evs.
Proof.
  revert keep evs. induction l as [|it l IH]; simpl; intros keep evs H.
  - injection H as <- <-. exists []. repeat split; constructor.
  - destruct (item_ctrl it) as [c|] eqn:Hc; simpl in H; [|done].
    destruct (CacheDynamic_sweep_items h l) as [[k e]|]; simpl in H; [|done].
    destruct (IH k e eq_refl) as (removed & Hperm & Hk & Hr & Hev).
    destruct (IsDiscarded (h c)) eqn:Hd; injection H as <- <-.
    + exists (it :: removed). repeat split.
      * rewrite Hperm. by rewrite Permutation_middle.
      * done.
      * constructor; [by exists c | done].
      * constructor; [by exists c | done].
    + exists removed. repeat split; try done.
      * simpl. by rewrite Hperm.
      * constructor; [by exists c | done].
Qed.

Lemma CacheDynamic_sweep_spec h q keep evs :
  CacheDynamic_sweep h q = Some (keep, evs) ->
  exists removed,
    queue_items q ≡ₚ keep ++ removed /\ Forall (item_live h) keep /\
    Forall (item_dead h) removed /\ Forall2 reported_success removed evs.
Proof.
  revert keep evs. induction q as [|p q IH]; simpl; intros keep evs H.
  - injection H as <- <-. exists []. repeat split; constructor.
  - destruct (CacheDynamic_sweep_items h (data p)) as [[k1 e1]|] eqn:H1; simpl in H; [|done].
    destruct (CacheDynamic_sweep h q) as [[k2 e2]|]; simpl in H; [|done].
    injection H as <- <-.
    destruct (CacheDynamic_sweep_items_spec _ _ _ _ H1) as (r1 & Hp1 & Hk1 & Hr1 & He1).
    destruct (IH k2 e2 eq_refl) as (r2 & Hp2 & Hk2 & Hr2 & He2).
    exists (r1 ++ r2). repeat split.
    + unfold queue_items in *. simpl. rewrite Hp1, Hp2.
      rewrite <- !(assoc_L (++)). f_equiv. rewrite !(assoc_L (++)). f_equiv.
      apply Permutation_app_comm.
    + by apply Forall_app.
    + by apply Forall_app.
    + by apply Forall2_app.
Qed.

Lemma CacheStatic_sweep_spec h q keep evs :
  CacheStatic_sweep h q = Some (keep, evs) ->
  exists removed,
    queue_items q ≡ₚ queue_items keep ++ removed /\
    keep `sublist_of` q /\
    Forall (fun p => exists first, data p !! 0 = Some first /\ item_live h first) keep /\
    Forall2 reported_success removed evs.
Proof.
  revert keep evs. induction q as [|p q IH]; simpl; intros keep evs H.
  - injection H as <- <-. exists []. repeat split; constructor.
  - destruct (data p !! 0) as [first|] eqn:Hf; simpl in H; [|done].
    destruct (item_ctrl first) as [c|] eqn:Hc; simpl in H; [|done].
    destruct (IsDiscarded (h c)) eqn:Hd.
    + destruct (mapM item_ctrl (data p)) as [cs|] eqn:Hcs; simpl in H; [|done].
      destruct (CacheStatic_sweep h q) as [[k e]|]; simpl in H; [|done].
      injection H as <- <-.
      destruct (IH k e eq_refl) as (removed & Hperm & Hsub & Hk & Hev).
      exists (data p ++ removed). repeat split.
      * unfold queue_items in *. simpl. rewrite Hperm.
        rewrite !(assoc_L (++)). f_equiv. apply Permutation_app_comm.
      * by constructor.
      * done.
      * apply Forall2_app; [|done]. apply mapM_Some_1 in Hcs.
        apply Forall2_fmap_r. eapply Forall2_impl; [exact Hcs|].
        intros it c' Hit. by exists c'.
    + destruct (CacheStatic_sweep h q) as [[k e]|]; simpl in H; [|done].
      injection H as <- <-.
      destruct (IH k e eq_refl) as (removed & Hperm & Hsub & Hk & Hev).
      exists removed. repeat split.
      * unfold queue_items in *. simpl. rewrite Hperm. by rewrite (assoc_L (++)).
      * by constructor.
      * constructor; [|done]. exists first. split; [done|]. by exists c.
      * done.
Qed.

(** ** Rebatching *)

Lemma CacheDynamic_rebatch_items priority0 bs cur items out :
  items <> [] \/ cur = [] ->
  queue_items (CacheDynamic_rebatch priority0 bs cur items out)
  = queue_items out ++ cur ++ items.
Proof.
  revert cur out. induction items as [|it rest IH]; intros cur out Hc; simpl.
  - destruct Hc as [ ? | -> ]; [congruence|]. simpl. by rewrite app_nil_r.
  - destruct ((bs <=? N.of_nat (length (cur ++ [it])))%N || bool_decide (rest = [])) eqn:E.
    + rewrite IH by auto. unfold queue_items. rewrite fmap_app, concat_app. simpl.
      rewrite (right_id_L [] (++)). by rewrite <- !(assoc_L (++)).
    + apply orb_false_iff in E as [_ E]. apply bool_decide_eq_false in E.
      rewrite IH by auto. by rewrite <- (assoc_L (++)).
Qed.

Lemma CacheDynamic_rebatch_all priority0 bs keep :
  queue_items (CacheDynamic_rebatch priority0 bs [] keep []) = keep.
Proof. by rewrite CacheDynamic_rebatch_items by auto. Qed.

(** Rebuilt packages are never empty, carry no [descs] yet, and hold only
    items that went in. *)
Lemma CacheDynamic_rebatch_Forall (P : InferData -> Prop) priority0 bs cur items out :
  let ok p := data p <> [] /\ Forall P (data p) /\ descs p = [] in
  Forall P cur -> Forall P items -> Forall ok out ->
  Forall ok (CacheDynamic_rebatch priority0 bs cur items out).
Proof.
  intros ok. revert cur out.
  induction items as [|it rest IH]; intros cur out Hcur Hitems Hout; simpl; [done|].
  apply Forall_cons in Hitems as [Hit Hrest].
  assert (Forall P (cur ++ [it])) by (apply Forall_app; split; [done | by constructor]).
  destruct (_ || _).
  - apply IH; [constructor | done |]. apply Forall_app. split; [done|].
    constructor; [|constructor]. repeat split; simpl; [|done].
    by destruct cur.
  - by apply IH.
Qed.

Lemma CacheDynamic_rebatch_bound priority0 bs cur items out :
  (1 <= bs)%N -> (N.of_nat (length cur) < bs)%N ->
  Forall (fun p => (N.of_nat (length (data p)) <= bs)%N) out ->
  Forall (fun p => (N.of_nat (length (data p)) <= bs)%N)
         (CacheDynamic_rebatch priority0 bs cur items out).
Proof.
  intros Hbs. revert cur out.
  induction items as [|it rest IH]; intros cur out Hcur Hout; simpl; [done|].
  assert (Hlen : N.of_nat (length (cur ++ [it])) = (N.of_nat (length cur) + 1)%N)
    by (rewrite length_app; simpl; lia).
  destruct ((bs <=? N.of_nat (length (cur ++ [it])))%N) eqn:E; simpl.
  - apply IH; [simpl; lia|]. apply Forall_app. split; [done|].
    constructor; [|constructor]. simpl. lia.
  - apply N.leb_gt in E. destruct (bool_decide (rest = [])).
    + apply IH; [simpl; lia|]. apply Forall_app. split; [done|].
      constructor; [|constructor]. simpl. lia.
    + apply IH; [lia | done].
Qed.

(** ** The shape of a [Pop] *)

(** Given the front package, [ClearDiscard] sweeps the queue. *)
Lemma ClearDiscard_front priority0 h c pack rest :
  cache_ (base c) = pack :: rest ->
  ClearDiscard priority0 h c pack = sweep_queue priority0 h c.
Proof.
  destruct c as [b bt|b]; simpl; intros Hq.
  - unfold CacheDynamic_ClearDiscard. rewrite Hq.
    by destruct (CacheDynamic_sweep h (pack :: rest)) as [[keep evs]|].
  - unfold CacheStatic_ClearDiscard. rewrite Hq.
    by destruct (CacheStatic_sweep h (pack :: rest)) as [[keep evs]|].
Qed.

(** [Pop] read backwards: which path a result came from. *)
Lemma Pop_inv priority0 h c r c' evs :
  Pop priority0 h c = Some (r, c', evs) ->
  (cache_ (base c) = [] /\ c' = c /\ evs = [] /\
   r = if Running c then PopBlocked else PopNull) \/
  (exists pack rest found c1,
     cache_ (base c) = pack :: rest /\
     find_discarded h (data pack) = Some found /\
     (if found then sweep_queue priority0 h c = Some (c1, evs)
      else c1 = c /\ evs = []) /\
     match cache_ (base c1) with
     | [] => r = PopNull /\ c' = c1
     | pack' :: rest' =>
         exists p, PreparePackage c1 pack' = Some p /\ r = PopPack p /\
                   c' = set_base c1 (set_cache (base c1) rest')
     end).
Proof.
  unfold Pop. destruct (cache_ (base c)) as [|pack rest] eqn:Hq.
  - intros H. left. destruct (Running c); injection H as <- <- <-; done.
  - intros H. right.
    destruct (find_discarded h (data pack)) as [found|] eqn:Hf; simpl in H; [|done].
    destruct found.
    + rewrite (ClearDiscard_front _ _ _ _ _ Hq) in H.
      destruct (sweep_queue priority0 h c) as [[c1 e]|] eqn:Hcd; simpl in H; [|done].
      exists pack, rest, true, c1.
      destruct (cache_ (base c1)) as [|pack' rest'] eqn:Hq1.
      * injection H as <- <- <-. done.
      * destruct (PreparePackage c1 pack') as [p|] eqn:Hp; simpl in H; [|done].
        injection H as <- <- <-. repeat split; try done. by exists p.
    + simpl in H. rewrite Hq in H.
      destruct (PreparePackage c pack) as [p|] eqn:Hp; simpl in H; [|done].
      injection H as <- <- <-.
      exists pack, rest, false, c. rewrite Hq. repeat split; try done. by exists p.
Qed.

Lemma PreparePackage_total c p :
  Forall has_desc (data p) -> is_Some (PreparePackage c p).
Proof.
  intros Hp. destruct c; simpl; [|by eexists].
  unfold CacheDynamic_PreparePackage, MoveDescToPackage.
  destruct (mapM_desc_total _ Hp) as (ds & -> & _). by eexists.
Qed.

(** The sweeps keep the queue well formed. *)
Lemma sweep_queue_wf priority0 h c c' evs :
  cache_wf c -> sweep_queue priority0 h c = Some (c', evs) -> cache_wf c'.
Proof.
  intros [Hq Hb] H. destruct c as [b bt|b]; simpl in *.
  - destruct (CacheDynamic_sweep h (cache_ b)) as [[keep e]|] eqn:Hs; simpl in H; [|done].
    injection H as <- <-. split; [|done]. simpl.
    destruct (CacheDynamic_sweep_spec _ _ _ _ Hs) as (removed & _ & Hk & _).
    eapply Forall_impl.
    + apply (CacheDynamic_rebatch_Forall has_desc); [constructor | | constructor].
      eapply Forall_impl; [exact Hk|]. apply item_live_has_desc.
    + intros p (? & ? & _). by split.
  - destruct (CacheStatic_sweep h (cache_ b)) as [[keep e]|] eqn:Hs; simpl in H; [|done].
    injection H as <- <-. split; [|done]. simpl.
    destruct (CacheStatic_sweep_spec _ _ _ _ Hs) as (removed & _ & Hsub & _).
    eapply Forall_forall. intros p Hp. rewrite Forall_forall in Hq. apply Hq.
    by eapply elem_of_sublist.
Qed.

(** On a well-formed cache [Pop] always has an outcome. *)
Lemma Pop_total priority0 h c :
  cache_wf c -> is_Some (Pop priority0 h c).
Proof.
  intros Hwf. unfold Pop.
  destruct (cache_ (base c)) as [|pack rest] eqn:Hq.
  - destruct (Running c); by eexists.
  - assert (Hpack : package_wf pack).
    { destruct Hwf as [Hall _]. rewrite Hq in Hall. by apply Forall_cons in Hall as [? _]. }
    destruct (find_discarded_total h _ (proj2 Hpack)) as [found ->]. simpl.
    destruct found.
    + rewrite (ClearDiscard_front _ _ _ _ _ Hq).
      destruct (sweep_queue_total priority0 h c Hwf) as [[c1 e] Hcd]. rewrite Hcd. simpl.
      pose proof (sweep_queue_wf _ _ _ _ _ Hwf Hcd) as [Hall1 _].
      destruct (cache_ (base c1)) as [|pack' rest']; [by eexists|].
      apply Forall_cons in Hall1 as [[_ Hp'] _].
      destruct (PreparePackage_total c1 pack' Hp') as [p ->]. by eexists.
    + simpl. rewrite Hq.
      destruct (PreparePackage_total c pack (proj2 Hpack)) as [p ->]. by eexists.
Qed.

(** A property of the cache that the sweep and the removal of the front
    package preserve is preserved by [Pop]. *)
Lemma Pop_preserves (P : Cache -> Prop) priority0 h c r c' evs :
  (forall c0 c1 evs0, sweep_queue priority0 h c0 = Some (c1, evs0) -> P c0 -> P c1) ->
  (forall c0 pack rest, P c0 -> cache_ (base c0) = pack :: rest ->
                        P (set_base c0 (set_cache (base c0) rest))) ->
  Pop priority0 h c = Some (r, c', evs) -> P c -> P c'.
Proof.
  intros Hsweep Htail
    [(_ & -> & _)|(pack & rest & found & c1 & Hq & _ & Hcd & Hr)]%Pop_inv HP; [done|].
  assert (HP1 : P c1).
  { destruct found; [by eapply Hsweep | by destruct Hcd as [-> _]]. }
  destruct (cache_ (base c1)) as [|pack' rest'] eqn:Hq1.
  - by destruct Hr as [_ ->].
  - destruct Hr as (p & _ & _ & ->). by eapply Htail.
Qed.

(** ** Push *)

Lemma CacheDynamic_Enqueue_total h items b bt :
  Forall has_desc items -> Forall has_desc (batcher_items bt) ->
  is_Some (CacheDynamic_Enqueue h items b bt).
Proof.
  intros Hitems. revert b bt.
  induction Hitems as [|it rest Hit _ IH]; intros b bt Hbt; simpl; [by eexists|].
  destruct Hit as [d Hd]. rewrite Hd. simpl.
  unfold Batcher_AddItem.
  destruct (BatchSize b <=? _)%N.
  - unfold CacheDynamic_emit, CacheDynamic_notifier.
    assert (Hall : Forall has_desc (batcher_items bt ++ [it])).
    { apply Forall_app. split; [done|]. constructor; [by exists d | constructor]. }
    destruct (batcher_items bt ++ [it]) as [|first l] eqn:E.
    { by destruct (batcher_items bt). }
    simpl. apply Forall_cons in Hall as [Hf _].
    destruct (has_desc_ctrl _ Hf) as [c ->]. simpl.
    apply IH. constructor.
  - simpl. apply IH. simpl. apply Forall_app. split; [done|].
    constructor; [by exists d | constructor].
Qed.

Lemma CopyDescToPackage_total p :
  Forall has_desc (data p) -> is_Some (CopyDescToPackage p).
Proof.
  intros Hp. unfold CopyDescToPackage.
  destruct (mapM_desc_total _ Hp) as (ds & -> & _). by eexists.
Qed.

Lemma CopyDescToPackageContinuous_total p :
  package_wf p -> is_Some (CopyDescToPackageContinuous p).
Proof.
  intros Hp. unfold CopyDescToPackageContinuous.
  destruct (package_wf_first p Hp) as (first & c & -> & Hc). simpl.
  rewrite Hc. by eexists.
Qed.

Lemma CacheStatic_Enqueue_loop_total h b data_size in_data_num items pack batch_idx q :
  Forall has_desc items -> Forall has_desc pack ->
  is_Some (CacheStatic_Enqueue_loop h b data_size in_data_num items pack batch_idx q).
Proof.
  intros Hitems. revert pack batch_idx q.
  induction Hitems as [|it rest Hit _ IH]; intros pack batch_idx q Hpack; simpl; [by eexists|].
  assert (Hall : Forall has_desc (pack ++ [it])).
  { apply Forall_app. split; [done|]. by constructor. }
  destruct Hit as [d Hd]. rewrite Hd. simpl.
  destruct (_ || _); [|by apply IH].
  destruct (pack ++ [it]) as [|first l] eqn:E; [by destruct pack|].
  simpl. pose proof Hall as Hall'. apply Forall_cons in Hall' as [Hf _].
  destruct (has_desc_ctrl _ Hf) as [c ->]. simpl.
  match goal with |- context [mkPackage ?dt ?ds ?pr ?n] => set (p := mkPackage dt ds pr n) end.
  assert (Hp : package_wf p) by (by split).
  destruct (_ && _).
  - destruct (CopyDescToPackageContinuous_total p Hp) as [p' ->]. simpl.
    apply IH. constructor.
  - destruct (CopyDescToPackage_total p (proj2 Hp)) as [p' ->]. simpl.
    apply IH. constructor.
Qed.

Lemma Enqueue_total h c pack :
  batcher_wf c -> Forall has_desc (data pack) -> is_Some (Enqueue h c pack).
Proof.
  intros Hb Hp. destruct c as [b bt|b]; simpl in *.
  - destruct (CacheDynamic_Enqueue_total h _ b bt Hp Hb) as [[b' bt'] ->]. by eexists.
  - unfold CacheStatic_Enqueue.
    destruct (CacheStatic_Enqueue_loop_total h b (length (data pack)) (data_num pack)
                (data pack) [] 0 (cache_ b) Hp) as [q ->]; [constructor|]. by eexists.
Qed.

Lemma Running_new_dynamic capacity batch_size prio :
  Running (CacheDynamic_new capacity batch_size prio) = false.
Proof. reflexivity. Qed.

Lemma Running_new_static capacity batch_size prio :
  Running (CacheStatic_new capacity batch_size prio) = false.
Proof. reflexivity. Qed.

Lemma Running_Start c : Running (Start c) = true.
Proof. by destruct c. Qed.

Lemma Running_Stop h c c' : Stop h c = Some c' -> Running c' = false.
Proof.
  destruct c as [b bt|b]; simpl.
  - destruct (Batcher_Emit bt) as [bt' [batch|]]; simpl.
    + unfold CacheDynamic_notifier. destruct (batch !! 0) as [first|]; simpl; [|done].
      destruct (item_ctrl first); simpl; [|done]. by intros [= <-].
    + by intros [= <-].
  - by intros [= <-].
Qed.

(** C10. [Push] on a cache that is not running returns false and changes
    nothing: the package is not enqueued and the batcher is not touched.
    This is the case of a cache that was never started and of a cache that
    was stopped. On a running cache [Push] returns true: it returns for
    every package whose items carry their descriptor (the [CHECK] of
    [Enqueue]), and whenever it returns the value is true. *)
Theorem Push_only_when_running (h : CtrlHeap) (c : Cache) (pack : Package) :
  (Running c = false -> Push h c (Some pack) = Some (false, c)) /\
  (forall capacity batch_size prio,
     Push h (CacheDynamic_new capacity batch_size prio) (Some pack)
     = Some (false, CacheDynamic_new capacity batch_size prio) /\
     Push h (CacheStatic_new capacity batch_size prio) (Some pack)
     = Some (false, CacheStatic_new capacity batch_size prio)) /\
  (forall h' stopped, Stop h' c = Some stopped ->
     Push h stopped (Some pack) = Some (false, stopped)) /\
  (Running c = true -> batcher_wf c -> Forall has_desc (data pack) ->
   exists c', Push h c (Some pack) = Some (true, c')) /\
  (Running c = true ->
   forall r c', Push h c (Some pack) = Some (r, c') -> r = true).
Proof.
  unfold Push. simpl. split_and!.
  - by intros ->.
  - done.
  - intros h' stopped HS. by rewrite (Running_Stop _ _ _ HS).
  - intros -> Hb Hp. destruct (Enqueue_total h c pack Hb Hp) as [c' ->].
    by exists c'.
  - intros -> r c'. destruct (Enqueue h c pack); simpl; [|done]. by intros [= <- _].
Qed.

Lemma Push_only_when_running_witness :
  Push sample_heap (CacheStatic_new 8 4 sample_priority) (Some single_package)
  = Some (false, CacheStatic_new 8 4 sample_priority) /\
  (exists c', Push sample_heap (Start (CacheDynamic_new 8 4 sample_priority))
                (Some single_package) = Some (true, c')) /\
  (forall r c', Push sample_heap (Start (CacheStatic_new 8 4 sample_priority))
                (Some single_package) = Some (r, c') -> r = true).
Proof.
  split; [|split].
  - destruct (Push_only_when_running sample_heap (CacheStatic_new 8 4 sample_priority)
                single_package) as (Hoff & _).
    apply Hoff. reflexivity.
  - destruct (Push_only_when_running sample_heap
                (Start (CacheDynamic_new 8 4 sample_priority)) single_package)
      as (_ & _ & _ & Hon & _).
    apply Hon.
    + reflexivity.
    + simpl. constructor.
    + simpl. constructor; [by eexists | constructor].
  - destruct (Push_only_when_running sample_heap
                (Start (CacheStatic_new 8 4 sample_priority)) single_package)
      as (_ & _ & _ & _ & Htrue).
    apply Htrue. reflexivity.
Defined.

(** The scenarios of the specification, run on the model. With STATIC and
    batch size 4, requests of 3, 5 and 2 items are queued as packages of 3,
    4, 1 and 2 items. *)
Example static_split_sizes :
  queue_sizes <$> push_all sample_heap (Start (CacheStatic_new 8 4 sample_priority))
                    [request_package 0 3; request_package 1 5; request_package 2 2]
  = Some [3; 4; 1; 2].
Proof. reflexivity. Qed.

(** With DYNAMIC and batch size 8, five requests of one item wait in the
    batcher and leave it as one package of 5 when the timer fires. *)
Example dynamic_timer_batch :
  (queue_sizes <$> push_all sample_heap (Start (CacheDynamic_new 8 8 sample_priority))
                     (request_package 0 1 :: request_package 1 1 :: request_package 2 1
                      :: request_package 3 1 :: request_package 4 1 :: []))
  = Some [] /\
  (queue_sizes <$> (push_all sample_heap (Start (CacheDynamic_new 8 8 sample_priority))
                      (request_package 0 1 :: request_package 1 1 :: request_package 2 1
                       :: request_package 3 1 :: request_package 4 1 :: [])
                    ≫= Timer sample_heap))
  = Some [5].
Proof. split; reflexivity. Qed.

(** With DYNAMIC and batch size 2, requests 0 to 3 of one item each are
    queued as two packages; once requests 0 and 2 are discarded, [Pop]
    reports them with SUCCESS and returns a package rebuilt from the items of
    requests 1 and 3. *)
Example dynamic_sweep_rebatches :
  (push_all sample_heap (Start (CacheDynamic_new 8 2 sample_priority))
            [request_package 0 1; request_package 1 1;
             request_package 2 1; request_package 3 1]
   ≫= fun c =>
     '(r, c', evs) ← Pop 0%Z (Discard (Discard sample_heap 0) 2) c;
     Some (r, queue_sizes c', evs))
  = Some (PopPack (mkPackage [mkInferData 0 None; mkInferData 0 None]
                             [mkTaskDesc 1 0; mkTaskDesc 3 0] 0%Z 2),
          [], [EvProcessFailed 0 SUCCESS; EvProcessFailed 2 SUCCESS]).
Proof. reflexivity. Qed.

(** Discarding is idempotent and touches no other request. *)
Lemma Discard_discarded h c : IsDiscarded (Discard h c c) = true.
Proof. unfold Discard. by rewrite decide_True. Qed.

Lemma Discard_other h c c' : c' <> c -> Discard h c c' = h c'.
Proof. intros Hne. unfold Discard. by rewrite decide_False. Qed.

Lemma Discard_idempotent h c c' :
  IsDiscarded (Discard (Discard h c) c c') = IsDiscarded (Discard h c c').
Proof. unfold Discard. by destruct (decide (c' = c)). Qed.

(** ** Pop returning null *)

Lemma item_live_dead h it : item_live h it -> item_dead h it -> False.
Proof. intros (c & Hc & Hl) (c' & Hc' & Hd). congruence. Qed.

Lemma find_discarded_false_iff h l :
  find_discarded h l = Some false -> ~ Exists (item_dead h) l.
Proof.
  intros Hf%find_discarded_false Hex. apply Exists_exists in Hex as (it & Hin & Hd).
  rewrite Forall_forall in Hf. eauto using item_live_dead.
Qed.

Lemma CacheDynamic_rebatch_nil priority0 bs keep :
  CacheDynamic_rebatch priority0 bs [] keep [] = [] <-> keep = [].
Proof.
  split; [|by intros ->].
  intros H. pose proof (CacheDynamic_rebatch_items priority0 bs [] keep [] (or_intror eq_refl)) as E.
  rewrite H in E. simpl in E. done.
Qed.

Lemma CacheDynamic_sweep_nil h q keep evs :
  CacheDynamic_sweep h q = Some (keep, evs) ->
  keep = [] <-> Forall (item_dead h) (queue_items q).
Proof.
  intros (removed & Hperm & Hk & Hr & _)%CacheDynamic_sweep_spec. split.
  - intros ->. by rewrite Hperm.
  - intros Hall. destruct keep as [|it keep]; [done|]. exfalso.
    apply Forall_cons in Hk as [Hlive _].
    rewrite Hperm in Hall. apply Forall_cons in Hall as [Hdead _].
    eauto using item_live_dead.
Qed.

Lemma CacheStatic_sweep_nil h q keep evs :
  CacheStatic_sweep h q = Some (keep, evs) ->
  keep = [] <->
  Forall (fun p => exists first, data p !! 0 = Some first /\ item_dead h first) q.
Proof.
  revert keep evs. induction q as [|p q IH]; simpl; intros keep evs H.
  - injection H as <- <-. split; [constructor | done].
  - destruct (data p !! 0) as [first|] eqn:Hf; simpl in H; [|done].
    destruct (item_ctrl first) as [c|] eqn:Hc; simpl in H; [|done].
    destruct (IsDiscarded (h c)) eqn:Hd.
    + destruct (mapM item_ctrl (data p)) as [cs|]; simpl in H; [|done].
      destruct (CacheStatic_sweep h q) as [[k e]|]; simpl in H; [|done].
      injection H as <- <-. rewrite (IH k e eq_refl). split.
      * intros Hq. constructor; [|done]. exists first. split; [done|]. by exists c.
      * by intros [_ Hq]%Forall_cons.
    + destruct (CacheStatic_sweep h q) as [[k e]|]; simpl in H; [|done].
      injection H as <- <-. split; [done|].
      intros [(first' & Hf' & Hdead) _]%Forall_cons. exfalso.
      assert (first' = first) as -> by congruence.
      apply (item_live_dead h first); [by exists c | done].
Qed.

Lemma sweep_queue_empty_iff priority0 h c c1 evs :
  sweep_queue priority0 h c = Some (c1, evs) ->
  cache_ (base c1) = [] <-> all_reclaimed h c.
Proof.
  destruct c as [b bt|b]; simpl.
  - destruct (CacheDynamic_sweep h (cache_ b)) as [[keep e]|] eqn:Hs; simpl; [|done].
    intros [= <- <-]. simpl. rewrite CacheDynamic_rebatch_nil.
    by eapply CacheDynamic_sweep_nil.
  - destruct (CacheStatic_sweep h (cache_ b)) as [[keep e]|] eqn:Hs; simpl; [|done].
    intros [= <- <-]. simpl. by eapply CacheStatic_sweep_nil.
Qed.

(** C2, as the code has it. On a well-formed cache [Pop] has exactly three
    outcomes. It keeps waiting when the queue is empty and the cache runs.
    It returns null when the queue is empty and the cache is stopped, and
    also, running or not, when the head package holds a discarded item and
    the discard sweep reclaims the whole queue. In every other case it
    returns a package. *)
Theorem Pop_null_cases (priority0 : Z) (h : CtrlHeap) (c : Cache) :
  cache_wf c ->
  exists r c' evs,
    Pop priority0 h c = Some (r, c', evs) /\
    (r = PopBlocked <-> cache_ (base c) = [] /\ Running c = true) /\
    (r = PopNull <->
       (cache_ (base c) = [] /\ Running c = false) \/
       (head_has_discarded h c /\ all_reclaimed h c)) /\
    ((exists p, r = PopPack p) <->
       cache_ (base c) <> [] /\ ~ (head_has_discarded h c /\ all_reclaimed h c)).
Proof.
  intros Hwf. destruct (Pop_total priority0 h c Hwf) as [[[r c'] evs] HP].
  exists r, c', evs. split; [done|].
  apply Pop_inv in HP as [(Hq & -> & -> & ->)|(pack & rest & found & c1 & Hq & Hf & Hcd & Hr)].
  - assert (Hnh : ~ head_has_discarded h c).
    { intros (pk & rs & Hq' & _). congruence. }
    destruct (Running c); naive_solver.
  - assert (Hne : cache_ (base c) <> []) by (by rewrite Hq).
    destruct found.
    + assert (Hhd : head_has_discarded h c).
      { exists pack, rest. split; [done|]. by apply find_discarded_true. }
      pose proof (sweep_queue_empty_iff _ _ _ _ _ Hcd) as Hiff.
      destruct (cache_ (base c1)) as [|pack' rest'] eqn:Hq1.
      * destruct Hr as [-> ->]. naive_solver.
      * destruct Hr as (p & _ & -> & _).
        assert (~ all_reclaimed h c) by (intros Hall; by apply Hiff in Hall).
        naive_solver.
    + destruct Hcd as [-> ->]. rewrite Hq in Hr. destruct Hr as (p & _ & -> & _).
      assert (Hnh : ~ head_has_discarded h c).
      { intros (pk & rs & Hq' & Hex). rewrite Hq in Hq'. injection Hq' as <- <-.
        by eapply find_discarded_false_iff. }
      naive_solver.
Qed.

Lemma Pop_null_cases_witness :
  exists r c' evs,
    Pop 0%Z sample_heap single_cache = Some (r, c', evs) /\
    (r = PopBlocked <-> cache_ (base single_cache) = [] /\ Running single_cache = true) /\
    (r = PopNull <->
       (cache_ (base single_cache) = [] /\ Running single_cache = false) \/
       (head_has_discarded sample_heap single_cache /\
        all_reclaimed sample_heap single_cache)) /\
    ((exists p, r = PopPack p) <->
       cache_ (base single_cache) <> [] /\
       ~ (head_has_discarded sample_heap single_cache /\
          all_reclaimed sample_heap single_cache)).
Proof.
  apply (Pop_null_cases 0%Z sample_heap single_cache).
  split; [|done]. simpl. constructor; [|constructor].
  split; [done|]. simpl. constructor; [by eexists | constructor].
Defined.

(** C2, as the specification states it, fails: a running dynamic cache
    holds one package, the one item of request 1; the request is discarded;
    [Pop] sweeps the queue empty and returns null although the cache runs. *)
Lemma Pop_null_while_running :
  (exists c1, Push sample_heap (Start (CacheDynamic_new 8 4 sample_priority))
                (Some single_package) = Some (true, c1) /\
              Timer sample_heap c1 = Some single_dynamic_cache) /\
  Running single_dynamic_cache = true /\
  Pop 0%Z (Discard sample_heap 1) single_dynamic_cache
  = Some (PopNull, drained_dynamic_cache, [EvProcessFailed 1 SUCCESS]) /\
  ~ Pop_null_only_when_stopped_and_empty.
Proof.
  split_and!; [by eexists | reflexivity | reflexivity |].
  intros H.
  destruct (H 0%Z (Discard sample_heap 1) single_dynamic_cache drained_dynamic_cache
              [EvProcessFailed 1 SUCCESS]) as [Hrun _]; [|reflexivity|done].
  split; [|constructor]. simpl. constructor; [|constructor].
  split; [done|]. simpl. constructor; [by eexists | constructor].
Qed.

(** ** The invariants hold in every reachable state *)

Lemma cache_inv_wf c : cache_inv c -> cache_wf c.
Proof.
  destruct c as [b bt|b]; simpl.
  - intros (Hq & Hb & _). split; [|done]. simpl.
    eapply Forall_impl; [exact Hq|]. by intros p (? & _).
  - intros Hq. split; [|done]. simpl.
    eapply Forall_impl; [exact Hq|]. by intros p (? & _).
Qed.

Lemma CacheDynamic_notifier_inv h b batch b' :
  CacheDynamic_notifier h b batch = Some b' ->
  batch <> [] /\
  exists prio, b' = set_cache b (cache_ b ++ [mkPackage batch [] prio (length batch)]).
Proof.
  unfold CacheDynamic_notifier.
  destruct batch as [|first l]; simpl; [done|].
  destruct (item_ctrl first); simpl; [|done].
  intros [= <-]. split; [done|]. by eexists.
Qed.

Lemma CacheDynamic_emit_inv h b em b' :
  CacheDynamic_emit h b em = Some b' ->
  Forall (dynamic_package_inv (batch_size_ b)) (cache_ b) ->
  (forall batch, em = Some batch ->
     Forall has_desc batch /\
     ((1 <= batch_size_ b)%N -> (N.of_nat (length batch) <= batch_size_ b)%N)) ->
  Forall (dynamic_package_inv (batch_size_ b')) (cache_ b') /\
  batch_size_ b' = batch_size_ b /\ running_ b' = running_ b.
Proof.
  destruct em as [batch|]; simpl; [|by intros [= <-]].
  intros Hn Hq Hb. destruct (Hb batch eq_refl) as [Hd Hlen].
  apply CacheDynamic_notifier_inv in Hn as [Hne [prio ->]]. simpl.
  split; [|done]. apply Forall_app. split; [done|].
  constructor; [|constructor]. by repeat split.
Qed.

Lemma Batcher_Emit_inv bt bt' em :
  Batcher_Emit bt = (bt', em) ->
  batcher_items bt' = [] /\ forall batch, em = Some batch -> batch = batcher_items bt.
Proof.
  unfold Batcher_Emit. destruct (batcher_items bt) as [|it l] eqn:E.
  - intros [= <- <-]. split; [done|]. by intros.
  - intros [= <- <-]. split; [done|]. by intros batch [= <-].
Qed.

(** [Stop] and the timer: the batcher is flushed. *)
Lemma CacheDynamic_flush_inv h b bt bt' em b' :
  cache_inv (CacheDynamic b bt) ->
  Batcher_Emit bt = (bt', em) ->
  CacheDynamic_emit h b em = Some b' ->
  cache_inv (CacheDynamic b' bt').
Proof.
  intros (Hq & Hb & Hlen) He Hem.
  apply Batcher_Emit_inv in He as [Hnil Hbatch].
  eapply CacheDynamic_emit_inv in Hem as (Hq' & Hbs & _); [|done|].
  - simpl. rewrite Hnil, Hbs. repeat split; [by rewrite <- Hbs | constructor |].
    simpl. lia.
  - intros batch ->%Hbatch. split; [done|]. intros H1. specialize (Hlen H1). lia.
Qed.

Lemma Start_inv c : cache_inv c -> cache_inv (Start c).
Proof. by destruct c. Qed.

Lemma Stop_inv h c c' : cache_inv c -> Stop h c = Some c' -> cache_inv c'.
Proof.
  destruct c as [b bt|b]; simpl; [|by intros ? [= <-]].
  intros Hinv. destruct (Batcher_Emit bt) as [bt' em] eqn:He.
  destruct (CacheDynamic_emit h (set_running b false) em) as [b'|] eqn:Hem; simpl; [|done].
  intros [= <-]. eapply CacheDynamic_flush_inv; [|exact He|exact Hem]. done.
Qed.

Lemma Timer_inv h c c' : cache_inv c -> Timer h c = Some c' -> cache_inv c'.
Proof.
  destruct c as [b bt|b]; simpl; [|by intros ? [= <-]].
  intros Hinv. destruct (Batcher_Emit bt) as [bt' em] eqn:He.
  destruct (CacheDynamic_emit h b em) as [b'|] eqn:Hem; simpl; [|done].
  intros [= <-]. by eapply CacheDynamic_flush_inv.
Qed.

Lemma CacheDynamic_Enqueue_inv h items b bt b' bt' :
  CacheDynamic_Enqueue h items b bt = Some (b', bt') ->
  cache_inv (CacheDynamic b bt) -> cache_inv (CacheDynamic b' bt').
Proof.
  revert b bt. induction items as [|it rest IH]; intros b bt; simpl.
  - by intros [= <- <-].
  - destruct (desc it) as [d|] eqn:Hd; simpl; [|done].
    destruct (Batcher_AddItem (BatchSize b) bt it) as [bt1 em] eqn:Ha.
    destruct (CacheDynamic_emit h b em) as [b1|] eqn:Hem; simpl; [|done].
    intros HE (Hq & Hb & Hlen). apply (IH _ _ HE). clear IH HE.
    assert (Hall : Forall has_desc (batcher_items bt ++ [it])).
    { apply Forall_app. split; [done|]. constructor; [by exists d | constructor]. }
    assert (Hl : N.of_nat (length (batcher_items bt ++ [it]))
                 = (N.of_nat (length (batcher_items bt)) + 1)%N).
    { rewrite length_app. simpl. lia. }
    unfold Batcher_AddItem, BatchSize in Ha.
    destruct (batch_size_ b <=? _)%N eqn:E; injection Ha as <- <-.
    + eapply CacheDynamic_emit_inv in Hem as (Hq' & Hbs & _); [|done|].
      * simpl. rewrite Hbs. repeat split; [by rewrite <- Hbs | constructor | simpl; lia].
      * intros batch [= <-]. split; [done|]. intros H1. specialize (Hlen H1). lia.
    + simpl in Hem. injection Hem as <-. apply N.leb_gt in E.
      simpl. repeat split; [done | done | lia].
Qed.

Lemma BatchSize_minus_1_eq b :
  (1 <= batch_size_ b < 2 ^ 32)%N -> BatchSize_minus_1 b = (batch_size_ b - 1)%N.
Proof.
  intros Hbs. unfold BatchSize_minus_1, BatchSize.
  rewrite Z.mod_small by lia. lia.
Qed.

Lemma CopyDescToPackage_inv p p' :
  CopyDescToPackage p = Some p' ->
  data p' = data p /\ data_num p' = data_num p /\
  exists ds, mapM desc (data p) = Some ds /\ descs p' = descs p ++ ds.
Proof.
  unfold CopyDescToPackage. destruct (mapM desc (data p)) as [ds|]; simpl; [|done].
  intros [= <-]. simpl. eauto.
Qed.

Lemma CopyDescToPackageContinuous_inv p p' :
  CopyDescToPackageContinuous p = Some p' ->
  data p' = data p /\ data_num p' = data_num p /\
  exists first c, data p !! 0 = Some first /\ item_ctrl first = Some c /\
    descs p' = descs p ++ ((fun desc_idx => mkTaskDesc c desc_idx) <$> seq 0 (data_num p)).
Proof.
  unfold CopyDescToPackageContinuous.
  destruct (data p !! 0) as [first|]; simpl; [|done].
  destruct (item_ctrl first) as [c|] eqn:Hc; simpl; [|done].
  intros [= <-]. simpl. eauto 10.
Qed.

Lemma mapM_desc_of_package l ds :
  mapM desc l = Some ds ->
  Forall (fun d => exists it, it ∈ l /\ item_ctrl it = Some (ctrl d)) ds.
Proof.
  intros H%mapM_Some_1. induction H as [|it d l ds Hd _ IH]; [constructor|].
  constructor.
  - exists it. split; [left|]. unfold item_ctrl. by rewrite Hd.
  - eapply Forall_impl; [exact IH|]. intros d' (it' & Hin & Hc). exists it'.
    split; [by right | done].
Qed.

(** The package a flush of [CacheStatic::Enqueue] appends. *)
Lemma CacheStatic_flush_inv b data_size in_data_num pack prio batch_idx p' :
  pack <> [] -> Forall has_desc pack -> length pack = batch_idx ->
  length pack <= data_size ->
  ((1 <= batch_size_ b < 2 ^ 32)%N -> (N.of_nat batch_idx <= batch_size_ b)%N) ->
  (if (data_size =? 1) && negb (in_data_num =? 1)
   then CopyDescToPackageContinuous
          (mkPackage pack [] prio (if data_size =? 1 then in_data_num else batch_idx))
   else CopyDescToPackage
          (mkPackage pack [] prio (if data_size =? 1 then in_data_num else batch_idx)))
  = Some p' ->
  data p' = pack /\ static_package_inv (batch_size_ b) p'.
Proof.
  intros Hne Hall Hlen Hsize Hbound.
  unfold static_package_inv, package_wf, continuous_blob, desc_of_package.
  destruct (data_size =? 1) eqn:E1; simpl.
  - apply Nat.eqb_eq in E1. subst data_size.
    assert (Hone : length pack = 1) by (destruct pack; simpl in *; [done | lia]).
    destruct (negb (in_data_num =? 1)) eqn:E2.
    + intros (Hd & Hn & first & c & Hf & Hc & Hds)%CopyDescToPackageContinuous_inv.
      simpl in *. rewrite Hd, Hds, Hn. simpl. split_and!; try done.
      * apply Forall_fmap, Forall_forall. intros i _. simpl.
        exists first. split; [|done]. by eapply list_elem_of_lookup_2.
      * intros _. right. split; [done|]. by rewrite length_fmap, length_seq.
    + apply negb_false_iff, Nat.eqb_eq in E2. subst in_data_num.
      intros (Hd & Hn & ds & Hm & Hds)%CopyDescToPackage_inv.
      simpl in *. rewrite Hd, Hds, Hn. simpl. split_and!; try done.
      * by apply mapM_desc_of_package.
      * intros _. right. split; [done|]. apply length_mapM in Hm. by rewrite <- Hm.
  - intros (Hd & Hn & ds & Hm & Hds)%CopyDescToPackage_inv.
    simpl in *. rewrite Hd, Hds. simpl. split_and!; try done.
    + by apply mapM_desc_of_package.
    + intros Hbs. left. apply length_mapM in Hm. rewrite <- Hm, Hlen. auto.
Qed.

Lemma CacheStatic_Enqueue_loop_inv h b data_size in_data_num items pack batch_idx q q' :
  CacheStatic_Enqueue_loop h b data_size in_data_num items pack batch_idx q = Some q' ->
  length pack = batch_idx ->
  length pack + length items <= data_size ->
  Forall has_desc pack ->
  ((1 <= batch_size_ b < 2 ^ 32)%N -> (N.of_nat batch_idx < batch_size_ b)%N) ->
  Forall (static_package_inv (batch_size_ b)) q ->
  Forall (static_package_inv (batch_size_ b)) q'.
Proof.
  revert pack batch_idx q.
  induction items as [|it rest IH]; intros pack batch_idx q; simpl.
  - by intros [= <-].
  - destruct (desc it) as [d|] eqn:Hd; simpl; [|done].
    intros HE Hlen Hsize Hpack Hidx Hq.
    assert (Hall : Forall has_desc (pack ++ [it])).
    { apply Forall_app. split; [done|]. constructor; [by exists d | constructor]. }
    assert (Hlen' : length (pack ++ [it]) = S batch_idx)
      by (rewrite length_app; simpl; lia).
    destruct ((BatchSize_minus_1 b <? N.of_nat (S batch_idx))%N || bool_decide (rest = []))
      eqn:Hflush.
    + destruct ((pack ++ [it]) !! 0) as [first|]; simpl in HE; [|done].
      destruct (item_ctrl first) as [c|]; simpl in HE; [|done].
      match type of HE with
      | context [mkPackage _ _ ?pr _] => set (prio := pr) in HE
      end.
      match type of HE with
      | (?copy ≫= _) = _ => destruct copy as [p'|] eqn:Hcopy; simpl in HE; [|done]
      end.
      eapply (CacheStatic_flush_inv b) in Hcopy as [_ Hinv];
        [| by destruct pack | done | done | lia | intros; specialize (Hidx ltac:(done)); lia].
      eapply IH; [exact HE | done | simpl; lia | constructor | simpl; lia |].
      apply Forall_app. split; [done | by constructor].
    + apply orb_false_iff in Hflush as [Hlt _]. apply N.ltb_ge in Hlt.
      eapply IH; [exact HE | done | rewrite Hlen'; simpl in *; lia | done | | done].
      intros Hbs. rewrite (BatchSize_minus_1_eq b Hbs) in Hlt. lia.
Qed.

Lemma CacheStatic_Enqueue_inv h b inp b' :
  CacheStatic_Enqueue h b inp = Some b' ->
  cache_inv (CacheStatic b) -> cache_inv (CacheStatic b').
Proof.
  unfold CacheStatic_Enqueue.
  destruct (CacheStatic_Enqueue_loop _ _ _ _ _ _ _ _) as [q|] eqn:HE; simpl; [|done].
  intros [= <-] Hq. simpl in *.
  eapply CacheStatic_Enqueue_loop_inv in HE; [done | done | simpl; lia | constructor | | done].
  simpl. lia.
Qed.

Lemma Enqueue_inv h c pack c' :
  Enqueue h c pack = Some c' -> cache_inv c -> cache_inv c'.
Proof.
  destruct c as [b bt|b]; simpl.
  - destruct (CacheDynamic_Enqueue h (data pack) b bt) as [[b' bt']|] eqn:HE; simpl; [|done].
    intros [= <-]. by eapply CacheDynamic_Enqueue_inv.
  - destruct (CacheStatic_Enqueue h b pack) as [b'|] eqn:HE; simpl; [|done].
    intros [= <-]. by eapply CacheStatic_Enqueue_inv.
Qed.

Lemma Push_inv h c pack r c' :
  Push h c (Some pack) = Some (r, c') -> cache_inv c -> cache_inv c'.
Proof.
  unfold Push. simpl. destruct (Running c).
  - destruct (Enqueue h c pack) as [c1|] eqn:HE; simpl; [|done].
    intros [= <- <-]. by eapply Enqueue_inv.
  - by intros [= <- <-].
Qed.

Lemma sweep_queue_inv priority0 h c c' evs :
  sweep_queue priority0 h c = Some (c', evs) -> cache_inv c -> cache_inv c'.
Proof.
  destruct c as [b bt|b]; simpl.
  - destruct (CacheDynamic_sweep h (cache_ b)) as [[keep e]|] eqn:Hs; simpl; [|done].
    intros [= <- <-] (Hq & Hb & Hlen). simpl. split; [|done].
    destruct (CacheDynamic_sweep_spec _ _ _ _ Hs) as (removed & _ & Hk & _).
    pose proof (CacheDynamic_rebatch_Forall has_desc priority0 (BatchSize b) [] keep [])
      as Hwf. simpl in Hwf.
    specialize (Hwf (Forall_nil_2 _)
                    (Forall_impl _ _ _ Hk (item_live_has_desc h)) (Forall_nil_2 _)).
    apply Forall_forall. intros p Hp. rewrite Forall_forall in Hwf.
    destruct (Hwf p Hp) as (Hne & Hd & Hds). repeat split; try done.
    intros Hbs.
    assert (Hbd : Forall (fun p => (N.of_nat (length (data p)) <= BatchSize b)%N)
                   (CacheDynamic_rebatch priority0 (BatchSize b) [] keep [])).
    { apply CacheDynamic_rebatch_bound; [done | simpl; unfold BatchSize; lia | constructor]. }
    rewrite Forall_forall in Hbd. by apply Hbd.
  - destruct (CacheStatic_sweep h (cache_ b)) as [[keep e]|] eqn:Hs; simpl; [|done].
    intros [= <- <-] Hq. simpl.
    destruct (CacheStatic_sweep_spec _ _ _ _ Hs) as (removed & _ & Hsub & _).
    apply Forall_forall. intros p Hp. rewrite Forall_forall in Hq. apply Hq.
    by eapply elem_of_sublist.
Qed.

Lemma cache_inv_tail c pack rest :
  cache_inv c -> cache_ (base c) = pack :: rest ->
  cache_inv (set_base c (set_cache (base c) rest)).
Proof.
  destruct c as [b bt|b]; simpl.
  - intros (Hq & Hb & Hlen) E. rewrite E in Hq. apply Forall_cons in Hq as [_ Hq]. done.
  - intros Hq E. rewrite E in Hq. by apply Forall_cons in Hq as [_ Hq].
Qed.

Lemma Pop_preserves_inv priority0 h c r c' evs :
  Pop priority0 h c = Some (r, c', evs) -> cache_inv c -> cache_inv c'.
Proof.
  apply (Pop_preserves cache_inv).
  - intros c0 c1 evs0 Hs Hinv. by eapply sweep_queue_inv.
  - intros c0 pack rest Hinv Hq. by eapply cache_inv_tail.
Qed.

(** The invariants of the queue hold in every state a cache reaches,
    whatever is pushed. *)
Lemma reachable_inv accepts c : reachable accepts c -> cache_inv c.
Proof.
  induction 1 as [cap bs prio|cap bs prio|c _ IH|h c c' _ IH HS|h c c' _ IH HT
                  |h c pack r c' _ IH _ HP|priority0 h c r c' evs _ IH HP].
  - simpl. repeat split; [constructor | constructor | simpl; lia].
  - simpl. constructor.
  - by apply Start_inv.
  - by eapply Stop_inv.
  - by eapply Timer_inv.
  - by eapply Push_inv.
  - by eapply Pop_preserves_inv.
Qed.

Lemma reachable_wf accepts c : reachable accepts c -> cache_wf c.
Proof. intros H. by eapply cache_inv_wf, reachable_inv. Qed.

(** *** One request per static package *)

Lemma CacheStatic_Enqueue_loop_uniform h b data_size in_data_num items pack batch_idx q q' c :
  CacheStatic_Enqueue_loop h b data_size in_data_num items pack batch_idx q = Some q' ->
  Forall (fun it => item_ctrl it = Some c) items ->
  Forall (fun it => item_ctrl it = Some c) pack ->
  Forall one_request q -> Forall one_request q'.
Proof.
  revert pack batch_idx q.
  induction items as [|it rest IH]; intros pack batch_idx q; simpl.
  - by intros [= <-].
  - destruct (desc it) as [d|] eqn:Hd; simpl; [|done].
    intros HE [Hit Hrest]%Forall_cons Hpack Hq.
    assert (Hall : Forall (fun it => item_ctrl it = Some c) (pack ++ [it])).
    { apply Forall_app. split; [done|]. by constructor. }
    destruct (_ || _).
    + destruct ((pack ++ [it]) !! 0) as [first|]; simpl in HE; [|done].
      destruct (item_ctrl first) as [c0|]; simpl in HE; [|done].
      match type of HE with
      | (?copy ≫= _) = _ => destruct copy as [p'|] eqn:Hcopy; simpl in HE; [|done]
      end.
      assert (Hdata : data p' = pack ++ [it]).
      { destruct (_ && _).
        - by apply CopyDescToPackageContinuous_inv in Hcopy as (-> & _).
        - by apply CopyDescToPackage_inv in Hcopy as (-> & _). }
      eapply IH; [exact HE | done | constructor |].
      apply Forall_app. split; [done|]. constructor; [|constructor].
      exists c. by rewrite Hdata.
    + by eapply IH.
Qed.

Lemma Push_uniform h c pack r c' :
  Push h c (Some pack) = Some (r, c') -> static_one_request c pack ->
  static_uniform c -> static_uniform c'.
Proof.
  unfold Push. simpl. destruct (Running c); [|by intros [= <- <-]].
  destruct (Enqueue h c pack) as [c1|] eqn:HE; simpl; [|done].
  intros [= <- <-]. destruct c as [b bt|b]; simpl in *.
  - destruct (CacheDynamic_Enqueue h (data pack) b bt) as [[b' bt']|]; simpl in HE; [|done].
    by injection HE as <-.
  - unfold CacheStatic_Enqueue in HE.
    destruct (CacheStatic_Enqueue_loop _ _ _ _ _ _ _ _) as [q|] eqn:HL; simpl in HE; [|done].
    injection HE as <-. intros [ctl Hone] Hq. simpl.
    eapply CacheStatic_Enqueue_loop_uniform; [exact HL | exact Hone | constructor | done].
Qed.

Lemma sweep_queue_uniform priority0 h c c' evs :
  sweep_queue priority0 h c = Some (c', evs) -> static_uniform c -> static_uniform c'.
Proof.
  destruct c as [b bt|b]; simpl.
  - destruct (CacheDynamic_sweep h (cache_ b)) as [[keep e]|]; simpl; [|done].
    by intros [= <- <-].
  - destruct (CacheStatic_sweep h (cache_ b)) as [[keep e]|] eqn:Hs; simpl; [|done].
    intros [= <- <-] Hq. simpl.
    destruct (CacheStatic_sweep_spec _ _ _ _ Hs) as (removed & _ & Hsub & _).
    apply Forall_forall. intros p Hp. rewrite Forall_forall in Hq. apply Hq.
    by eapply elem_of_sublist.
Qed.

Lemma Pop_preserves_uniform priority0 h c r c' evs :
  Pop priority0 h c = Some (r, c', evs) -> static_uniform c -> static_uniform c'.
Proof.
  apply (Pop_preserves static_uniform).
  - intros c0 c1 evs0 Hs Hinv. by eapply sweep_queue_uniform.
  - intros [b bt|b] pack rest Hinv Hq; simpl in *; [done|].
    rewrite Hq in Hinv. by apply Forall_cons in Hinv as [_ ?].
Qed.

Lemma reachable_uniform c : reachable static_one_request c -> static_uniform c.
Proof.
  induction 1 as [cap bs prio|cap bs prio|c _ IH|h c c' _ IH HS|h c c' _ IH HT
                  |h c pack r c' _ IH Hacc HP|priority0 h c r c' evs _ IH HP].
  - done.
  - simpl. constructor.
  - by destruct c.
  - destruct c as [b bt|b]; simpl in *; [|by injection HS as <-].
    destruct (Batcher_Emit bt) as [bt' em].
    destruct (CacheDynamic_emit _ _ _); simpl in HS; [|done]. by injection HS as <-.
  - destruct c as [b bt|b]; simpl in *; [|by injection HT as <-].
    destruct (Batcher_Emit bt) as [bt' em].
    destruct (CacheDynamic_emit _ _ _); simpl in HT; [|done]. by injection HT as <-.
  - by eapply Push_uniform.
  - by eapply Pop_preserves_uniform.
Qed.

(** ** What Pop hands over *)

Lemma sweep_queue_heads_live priority0 h c c' evs :
  sweep_queue priority0 h c = Some (c', evs) ->
  Forall (fun p => exists first, data p !! 0 = Some first /\ item_live h first)
         (cache_ (base c')) /\
  match c with
  | CacheDynamic _ _ => Forall (fun p => Forall (item_live h) (data p)) (cache_ (base c'))
  | CacheStatic _ => True
  end.
Proof.
  destruct c as [b bt|b]; simpl.
  - destruct (CacheDynamic_sweep h (cache_ b)) as [[keep e]|] eqn:Hs; simpl; [|done].
    intros [= <- <-]. simpl.
    destruct (CacheDynamic_sweep_spec _ _ _ _ Hs) as (removed & _ & Hk & _).
    pose proof (CacheDynamic_rebatch_Forall (item_live h) priority0 (BatchSize b) [] keep [])
      as Hwf. simpl in Hwf.
    specialize (Hwf (Forall_nil_2 _) Hk (Forall_nil_2 _)).
    split; (eapply Forall_impl; [exact Hwf|]); intros p (Hne & Hl & _); [|done].
    destruct (data p) as [|first l]; [done|]. exists first. split; [done|].
    by apply Forall_cons in Hl as [? _].
  - destruct (CacheStatic_sweep h (cache_ b)) as [[keep e]|] eqn:Hs; simpl; [|done].
    intros [= <- <-]. simpl. split; [|done].
    by destruct (CacheStatic_sweep_spec _ _ _ _ Hs) as (removed & _ & _ & Hk & _).
Qed.

Lemma CacheDynamic_PreparePackage_live h bs pack p :
  dynamic_package_inv bs pack -> Forall (item_live h) (data pack) ->
  CacheDynamic_PreparePackage pack = Some p -> package_live h p.
Proof.
  intros (_ & Hds & _) Hl. unfold CacheDynamic_PreparePackage, MoveDescToPackage.
  destruct (mapM desc (data pack)) as [ds|] eqn:Hm; simpl; [|done].
  intros [= <-]. unfold package_live. simpl. rewrite Hds. simpl.
  apply mapM_Some_1 in Hm. revert Hl. induction Hm as [|it d l ds Hd _ IH]; [constructor|].
  intros [(c & Hc & Hlive) Hl]%Forall_cons. constructor; [|auto].
  unfold item_ctrl in Hc. rewrite Hd in Hc. simpl in Hc. by injection Hc as ->.
Qed.

Lemma CacheStatic_PreparePackage_live h bs pack p :
  static_package_inv bs pack -> one_request pack ->
  (exists first, data pack !! 0 = Some first /\ item_live h first) ->
  CacheStatic_PreparePackage pack = Some p -> package_live h p.
Proof.
  intros (_ & Hds & _) [c Hone] (first & Hf & c0 & Hc0 & Hlive).
  unfold CacheStatic_PreparePackage. intros [= <-]. unfold package_live. simpl.
  rewrite Forall_forall in Hone.
  assert (c0 = c) as ->.
  { apply list_elem_of_lookup_2 in Hf. specialize (Hone _ Hf). congruence. }
  eapply Forall_impl; [exact Hds|]. intros d (it & Hin & Hc).
  specialize (Hone _ Hin). congruence.
Qed.

Lemma Forall_live_first h pack :
  package_wf pack -> Forall (item_live h) (data pack) ->
  exists first, data pack !! 0 = Some first /\ item_live h first.
Proof.
  intros [Hne _] Hl. destruct (data pack) as [|first l]; [done|].
  exists first. split; [done|]. by apply Forall_cons in Hl as [? _].
Qed.

(** C1. A package that [Pop] returns holds no item of a request that is
    discarded at that time, under both strategies, in every state the cache
    reaches by [Start], [Stop], the timer, [Pop] and the [Push] of packages
    as [Session::Send] builds them: all the items of a pushed package carry
    the RequestControl of one request. (Under DYNAMIC the batcher then mixes
    the items of several requests in one package, and the sweep looks at
    every item; under STATIC it looks at the first item of a package.) *)
Theorem Pop_returns_live_package (priority0 : Z) (h : CtrlHeap) (c : Cache)
    (p : Package) (c' : Cache) (evs : list Event) :
  reachable static_one_request c ->
  Pop priority0 h c = Some (PopPack p, c', evs) ->
  package_live h p.
Proof.
  intros Hreach HP.
  pose proof (reachable_inv _ _ Hreach) as Hinv.
  pose proof (reachable_uniform _ Hreach) as Huni.
  apply Pop_inv in HP as [(_ & _ & _ & Hr)|(pack & rest & found & c1 & Hq & Hf & Hcd & Hr)].
  { by destruct (Running c). }
  assert (Hinv1 : cache_inv c1).
  { destruct found; [by eapply sweep_queue_inv | by destruct Hcd as [-> _]]. }
  assert (Huni1 : static_uniform c1).
  { destruct found; [by eapply sweep_queue_uniform | by destruct Hcd as [-> _]]. }
  assert (Hheads :
    Forall (fun p => exists first, data p !! 0 = Some first /\ item_live h first)
           (take 1 (cache_ (base c1))) /\
    match c1 with
    | CacheDynamic _ _ =>
        Forall (fun p => Forall (item_live h) (data p)) (take 1 (cache_ (base c1)))
    | CacheStatic _ => True
    end).
  { destruct found.
    - pose proof (sweep_queue_heads_live _ _ _ _ _ Hcd) as [H1 H2].
      split; [by apply Forall_take|].
      destruct c as [b bt|b]; simpl in Hcd.
      + destruct (CacheDynamic_sweep _ _) as [[keep e]|]; simpl in Hcd; [|done].
        injection Hcd as <- <-. by apply Forall_take.
      + destruct (CacheStatic_sweep _ _) as [[keep e]|]; simpl in Hcd; [|done].
        by injection Hcd as <- <-.
    - destruct Hcd as [-> ->]. rewrite Hq. simpl.
      apply find_discarded_false in Hf.
      assert (Hwf : package_wf pack).
      { apply cache_inv_wf in Hinv as [Hall _]. rewrite Hq in Hall.
        by apply Forall_cons in Hall as [? _]. }
      split; [constructor; [by apply Forall_live_first | constructor]|].
      destruct c; [constructor; [done | constructor] | done]. }
  destruct (cache_ (base c1)) as [|pack' rest'] eqn:Hq1; [by destruct Hr|].
  destruct Hr as (p0 & Hprep & [= <-] & _). simpl in Hheads.
  destruct Hheads as [[Hfirst _]%Forall_cons Hall].
  destruct c1 as [b bt|b]; simpl in *.
  - destruct Hinv1 as (Hpk & _). rewrite Hq1 in Hpk. apply Forall_cons in Hpk as [Hpk _].
    apply Forall_cons in Hall as [Hall _].
    by eapply CacheDynamic_PreparePackage_live.
  - rewrite Hq1 in Hinv1, Huni1.
    apply Forall_cons in Hinv1 as [Hpk _]. apply Forall_cons in Huni1 as [Hone _].
    by eapply CacheStatic_PreparePackage_live.
Qed.

Lemma Pop_returns_live_package_witness :
  package_live (Discard sample_heap 1) pair_popped /\
  package_live (Discard (Discard sample_heap 0) 2) paired_popped.
Proof.
  split.
  - apply (Pop_returns_live_package 0%Z (Discard sample_heap 1) two_request_cache pair_popped
             drained_static_cache [EvProcessFailed 1 SUCCESS]).
    + apply (reach_Push _ sample_heap single_cache pair_package true).
      * apply (reach_Push _ sample_heap (Start (CacheStatic_new 8 4 sample_priority))
                 single_package true).
        -- apply reach_Start, reach_new_static.
        -- exists 1. repeat constructor.
        -- reflexivity.
      * exists 0. repeat constructor.
      * reflexivity.
    + reflexivity.
  - apply (Pop_returns_live_package 0%Z (Discard (Discard sample_heap 0) 2)
             paired_dynamic_cache paired_popped drained_paired_cache
             [EvProcessFailed 0 SUCCESS; EvProcessFailed 2 SUCCESS]).
    + eapply (reach_Push _ sample_heap _ (one_item_request 3) true).
      * eapply (reach_Push _ sample_heap _ (one_item_request 2) true).
        -- eapply (reach_Push _ sample_heap _ (one_item_request 1) true).
           ++ apply (reach_Push _ sample_heap (Start (CacheDynamic_new 8 2 sample_priority))
                       (one_item_request 0) true).
              ** apply reach_Start, reach_new_dynamic.
              ** exact I.
              ** reflexivity.
           ++ exact I.
           ++ reflexivity.
        -- exact I.
        -- reflexivity.
      * exact I.
      * reflexivity.
    + reflexivity.
Defined.

(** The condition on the pushed packages cannot be dropped under STATIC.
    Were a package with items of requests 0 and 1 pushed, which
    [Session::Send] never does, and request 1 discarded, [Pop] would return
    the package, item of request 1 included: the static sweep keeps a
    package whose first item is live. *)
Lemma Pop_static_returns_discarded :
  Push sample_heap (Start (CacheStatic_new 8 4 sample_priority)) (Some mixed_package)
  = Some (true, mixed_cache) /\
  Pop 0%Z (Discard sample_heap 1) mixed_cache
  = Some (PopPack mixed_popped, drained_static_cache, []) /\
  ~ package_live (Discard sample_heap 1) mixed_popped /\
  ~ Pop_returns_only_live.
Proof.
  assert (Hlive : ~ package_live (Discard sample_heap 1) mixed_popped).
  { intros H. unfold package_live in H. simpl in H.
    apply Forall_cons in H as [_ H]. apply Forall_cons in H as [H _]. done. }
  split_and!; [reflexivity | reflexivity | done |].
  intros H. apply Hlive.
  apply (H 0%Z (Discard sample_heap 1) mixed_cache mixed_popped drained_static_cache []).
  - apply (reach_Push _ sample_heap (Start (CacheStatic_new 8 4 sample_priority))
             mixed_package true); [apply reach_Start, reach_new_static | done | reflexivity].
  - reflexivity.
Qed.

(** ** The batch-size bound *)





(** ** What the sweeps report *)

Lemma filter_live_dead_perm h (l : list InferData) :
  l ≡ₚ List.filter (is_live h) l ++ List.filter (fun it => negb (is_live h it)) l.
Proof.
  induction l as [|it l IH]; [done|]. cbn [List.filter].
  destruct (is_live h it); cbn [negb].
  - simpl. by constructor.
  - rewrite <- Permutation_middle. by constructor.
Qed.

Lemma CacheDynamic_sweep_items_exact h l keep evs :
  CacheDynamic_sweep_items h l = Some (keep, evs) ->
  keep = List.filter (is_live h) l /\
  Forall2 reported_success (List.filter (fun it => negb (is_live h it)) l) evs /\
  Forall (item_dead h) (List.filter (fun it => negb (is_live h it)) l) /\
  Forall (item_live h) keep.
Proof.
  revert keep evs. induction l as [|it l IH]; intros keep evs H; simpl in H.
  - injection H as <- <-. split_and!; [done | constructor | constructor | constructor].
  - destruct (item_ctrl it) as [c|] eqn:Hc; simpl in H; [|done].
    destruct (CacheDynamic_sweep_items h l) as [[k e]|]; simpl in H; [|done].
    destruct (IH k e eq_refl) as (-> & Hev & Hd & Hl).
    assert (Hlive : is_live h it = negb (IsDiscarded (h c))).
    { unfold is_live. by rewrite Hc. }
    cbn [List.filter]. rewrite Hlive.
    destruct (IsDiscarded (h c)) eqn:Hdisc; injection H as <- <-; cbn [negb].
    + split_and!; [done | | | done].
      * constructor; [by exists c | done].
      * constructor; [by exists c | done].
    + split_and!; [done | done | done |].
      constructor; [by exists c | done].
Qed.

Lemma queue_items_cons p q : queue_items (p :: q) = data p ++ queue_items q.
Proof. done. Qed.

Lemma CacheDynamic_sweep_exact h q keep evs :
  CacheDynamic_sweep h q = Some (keep, evs) ->
  keep = List.filter (is_live h) (queue_items q) /\
  Forall2 reported_success
          (List.filter (fun it => negb (is_live h it)) (queue_items q)) evs /\
  Forall (item_dead h) (List.filter (fun it => negb (is_live h it)) (queue_items q)) /\
  Forall (item_live h) keep.
Proof.
  revert keep evs. induction q as [|p q IH]; intros keep evs H; simpl in H.
  - injection H as <- <-. split_and!; [done | constructor | constructor | constructor].
  - destruct (CacheDynamic_sweep_items h (data p)) as [[k1 e1]|] eqn:H1; simpl in H; [|done].
    destruct (CacheDynamic_sweep h q) as [[k2 e2]|]; simpl in H; [|done].
    injection H as <- <-.
    destruct (CacheDynamic_sweep_items_exact _ _ _ _ H1) as (-> & He1 & Hd1 & Hl1).
    destruct (IH k2 e2 eq_refl) as (-> & He2 & Hd2 & Hl2).
    rewrite queue_items_cons, !List.filter_app.
    split_and!; [done | by apply Forall2_app | | ]; by apply Forall_app.
Qed.

Lemma CacheStatic_sweep_exact h q keep evs :
  CacheStatic_sweep h q = Some (keep, evs) ->
  keep = List.filter (head_live h) q /\
  Forall2 reported_success
          (queue_items (List.filter (fun p => negb (head_live h p)) q)) evs /\
  queue_items q ≡ₚ queue_items keep
                   ++ queue_items (List.filter (fun p => negb (head_live h p)) q) /\
  Forall (fun p => exists first, data p !! 0 = Some first /\ item_dead h first)
         (List.filter (fun p => negb (head_live h p)) q).
Proof.
  revert keep evs. induction q as [|p q IH]; intros keep evs H; simpl in H.
  - injection H as <- <-. split_and!; [done | constructor | done | constructor].
  - destruct (data p !! 0) as [first|] eqn:Hf; simpl in H; [|done].
    destruct (item_ctrl first) as [c|] eqn:Hc; simpl in H; [|done].
    assert (Hl : head_live h p = negb (IsDiscarded (h c))).
    { unfold head_live, is_live. by rewrite Hf, Hc. }
    cbn [List.filter]. rewrite Hl.
    destruct (IsDiscarded (h c)) eqn:Hd; cbn [negb].
    + destruct (mapM item_ctrl (data p)) as [cs|] eqn:Hcs; simpl in H; [|done].
      destruct (CacheStatic_sweep h q) as [[k e]|]; simpl in H; [|done].
      injection H as <- <-. destruct (IH k e eq_refl) as (-> & Hev & Hperm & Hdead).
      rewrite !queue_items_cons. split_and!; [done | | | ].
      * apply Forall2_app; [|done]. apply mapM_Some_1 in Hcs.
        apply Forall2_fmap_r. eapply Forall2_impl; [exact Hcs|].
        intros it c' Hit. by exists c'.
      * rewrite Hperm. apply Permutation_app_swap_app.
      * constructor; [|done]. exists first. split; [done|]. by exists c.
    + destruct (CacheStatic_sweep h q) as [[k e]|]; simpl in H; [|done].
      injection H as <- <-. destruct (IH k e eq_refl) as (-> & Hev & Hperm & Hdead).
      rewrite !queue_items_cons. split_and!; [done | done | | done].
      rewrite Hperm. by rewrite (assoc_L (++)).
Qed.

(** C6. A discard sweep of a well-formed cache, started as [Pop] starts it
    (on the front package), returns, under both strategies. The items it
    removes from the queue are reported one by one, in order, each to the
    control of the item and with status SUCCESS, and nothing else is
    reported. The dynamic sweep removes exactly the items of discarded
    requests and keeps exactly the others, in their order. The static sweep
    drops exactly the packages whose first item belongs to a discarded
    request, with all their items, and keeps the other packages as they
    are. *)
Theorem ClearDiscard_reports_success (priority0 : Z) (h : CtrlHeap) (c : Cache)
    (pack : Package) (rest : list Package) :
  cache_wf c ->
  cache_ (base c) = pack :: rest ->
  exists c' evs removed,
    ClearDiscard priority0 h c pack = Some (c', evs) /\
    queue_items (cache_ (base c)) ≡ₚ queue_items (cache_ (base c')) ++ removed /\
    Forall2 reported_success removed evs /\
    match c with
    | CacheDynamic _ _ =>
        removed = List.filter (fun it => negb (is_live h it)) (queue_items (cache_ (base c))) /\
        queue_items (cache_ (base c'))
        = List.filter (is_live h) (queue_items (cache_ (base c))) /\
        Forall (item_dead h) removed /\
        Forall (item_live h) (queue_items (cache_ (base c')))
    | CacheStatic _ =>
        removed
        = queue_items (List.filter (fun p => negb (head_live h p)) (cache_ (base c))) /\
        cache_ (base c') = List.filter (head_live h) (cache_ (base c)) /\
        Forall (fun p => exists first, data p !! 0 = Some first /\ item_dead h first)
               (List.filter (fun p => negb (head_live h p)) (cache_ (base c))) /\
        cache_ (base c') `sublist_of` cache_ (base c)
    end.
Proof.
  intros Hwf Hq. rewrite (ClearDiscard_front _ _ _ _ _ Hq). clear Hq.
  destruct (sweep_queue_total priority0 h c Hwf) as [[c' evs] Hcd].
  exists c', evs. rewrite Hcd. destruct c as [b bt|b]; simpl in *.
  - destruct (CacheDynamic_sweep h (cache_ b)) as [[keep e]|] eqn:Hs; simpl in Hcd; [|done].
    injection Hcd as <- <-. simpl.
    destruct (CacheDynamic_sweep_exact _ _ _ _ Hs) as (Hk & Hev & Hd & Hl).
    exists (List.filter (fun it => negb (is_live h it)) (queue_items (cache_ b))).
    rewrite CacheDynamic_rebatch_all. split_and!; try done.
    rewrite Hk. apply filter_live_dead_perm.
  - destruct (CacheStatic_sweep h (cache_ b)) as [[keep e]|] eqn:Hs; simpl in Hcd; [|done].
    injection Hcd as <- <-. simpl.
    destruct (CacheStatic_sweep_exact _ _ _ _ Hs) as (Hk & Hev & Hperm & Hdead).
    destruct (CacheStatic_sweep_spec _ _ _ _ Hs) as (_ & _ & Hsub & _).
    exists (queue_items (List.filter (fun p => negb (head_live h p)) (cache_ b))).
    by split_and!.
Qed.

Lemma ClearDiscard_reports_success_witness :
  (exists c' evs removed,
     ClearDiscard 0%Z (Discard (Discard sample_heap 0) 2) paired_dynamic_cache
                  (mkPackage [sample_item 0 0 0; sample_item 0 1 0] [] 0%Z 2)
     = Some (c', evs) /\
     queue_items (cache_ (base paired_dynamic_cache))
       ≡ₚ queue_items (cache_ (base c')) ++ removed /\
     Forall2 reported_success removed evs /\
     removed = [sample_item 0 0 0; sample_item 0 2 0] /\
     queue_items (cache_ (base c')) = [sample_item 0 1 0; sample_item 0 3 0] /\
     Forall (item_dead (Discard (Discard sample_heap 0) 2)) removed /\
     Forall (item_live (Discard (Discard sample_heap 0) 2)) (queue_items (cache_ (base c')))) /\
  (exists c' evs removed,
     ClearDiscard 0%Z (Discard sample_heap 1) two_request_cache
                  (mkPackage [sample_item 7 1 0] [mkTaskDesc 1 0] (-1)%Z 1)
     = Some (c', evs) /\
     queue_items (cache_ (base two_request_cache))
       ≡ₚ queue_items (cache_ (base c')) ++ removed /\
     Forall2 reported_success removed evs /\
     removed = [sample_item 7 1 0] /\
     cache_ (base c')
     = [mkPackage [sample_item 8 0 0; sample_item 9 0 1]
                  [mkTaskDesc 0 0; mkTaskDesc 0 1] 0%Z 2] /\
     Forall (fun p => exists first, data p !! 0 = Some first /\
                                    item_dead (Discard sample_heap 1) first)
            [mkPackage [sample_item 7 1 0] [mkTaskDesc 1 0] (-1)%Z 1] /\
     cache_ (base c') `sublist_of` cache_ (base two_request_cache)).
Proof.
  split.
  - apply (ClearDiscard_reports_success 0%Z (Discard (Discard sample_heap 0) 2)
             paired_dynamic_cache
             (mkPackage [sample_item 0 0 0; sample_item 0 1 0] [] 0%Z 2)
             [mkPackage [sample_item 0 2 0; sample_item 0 3 0] [] (-2)%Z 2]).
    + split; [|constructor]. simpl.
      repeat (constructor; [split; [done|]; simpl; repeat (constructor; [by eexists|])|]);
        constructor.
    + reflexivity.
  - apply (ClearDiscard_reports_success 0%Z (Discard sample_heap 1) two_request_cache
             (mkPackage [sample_item 7 1 0] [mkTaskDesc 1 0] (-1)%Z 1)
             [mkPackage [sample_item 8 0 0; sample_item 9 0 1]
                        [mkTaskDesc 0 0; mkTaskDesc 0 1] 0%Z 2]).
    + split; [|constructor]. simpl.
      repeat (constructor; [split; [done|]; simpl; repeat (constructor; [by eexists|])|]);
        constructor.
    + reflexivity.
Defined.

(** * Properties of the task nodes *)

Lemma mapM_ProcessDone_at pack :
  length (descs pack) <= length (data pack) ->
  mapM (ProcessDone_at pack) (seq 0 (length (descs pack)))
  = Some (zip_with (fun d it => EvProcessDone (ctrl d) SUCCESS it (index d))
                   (descs pack) (data pack)).
Proof.
  intros Hlen. apply mapM_Some_2.
  destruct pack as [dt ds pr dn]. unfold ProcessDone_at. simpl in *.
  clear pr dn.
  assert (G : forall k ds' dt',
             length ds' <= length dt' ->
             (forall i, ds' !! i = ds !! (k + i)) ->
             (forall i, dt' !! i = dt !! (k + i)) ->
             Forall2 (fun idx ev =>
                        (ds !! idx ≫= fun d => dt !! idx ≫= fun it =>
                           Some (EvProcessDone (ctrl d) SUCCESS it (index d))) = Some ev)
                     (seq k (length ds'))
                     (zip_with (fun d it => EvProcessDone (ctrl d) SUCCESS it (index d))
                               ds' dt')).
  { intros k ds'. revert k. induction ds' as [|d ds' IH]; intros k dt' Hl Hds Hdt; simpl.
    - constructor.
    - destruct dt' as [|it dt']; simpl in Hl; [lia|]. simpl. constructor.
      + pose proof (Hds 0) as H0. pose proof (Hdt 0) as H1.
        rewrite Nat.add_0_r in H0, H1. simpl in H0, H1. by rewrite <- H0, <- H1.
      + apply IH; [lia | |].
        * intros i. specialize (Hds (S i)). simpl in Hds.
          by rewrite Hds, Nat.add_succ_r.
        * intros i. specialize (Hdt (S i)). simpl in Hdt.
          by rewrite Hdt, Nat.add_succ_r. }
  apply (G 0 ds dt); auto.
Qed.

(** C4. When [Process] returns SUCCESS: a node without [down_node] calls
    [ProcessDone] once for every desc, in order, with SUCCESS, the data
    element at the position of the desc and the index of the desc, and then
    the done notifier once (the package has a data element for every desc);
    a node with a [down_node] moves the priority of the package to the next
    tier and pushes the package to the thread pool for the next node, and
    does nothing else. *)
Theorem TaskNode_success_transmits (Next : Z -> Z) (n : TaskNode) (pack pack' : Package) :
  Process (processor_ n) pack = (SUCCESS, pack') ->
  (downnode_ n = None ->
   length (descs pack') <= length (data pack') ->
   TaskNode_call Next n pack
   = Some (zip_with (fun d it => EvProcessDone (ctrl d) SUCCESS it (index d))
                    (descs pack') (data pack') ++ [EvDoneNotifier])) /\
  (forall down, downnode_ n = Some down ->
   TaskNode_call Next n pack
   = Some [EvVoidPush (Next (priority pack')) down
                      (set_priority pack' (Next (priority pack')))]).
Proof.
  intros HP. unfold TaskNode_call, Transmit. rewrite HP. simpl. split.
  - intros -> Hlen. by rewrite mapM_ProcessDone_at.
  - by intros down ->.
Qed.

(** C5. When [Process] returns a status other than SUCCESS, the node calls
    [ProcessFailed] with that status once for every desc of the package, in
    order, and does nothing else: no [ProcessDone], no done notifier, no
    push to the thread pool. *)
Theorem TaskNode_failure_reports (Next : Z -> Z) (n : TaskNode) (pack pack' : Package)
    (s : Status) :
  Process (processor_ n) pack = (s, pack') ->
  s <> SUCCESS ->
  TaskNode_call Next n pack = Some ((fun d => EvProcessFailed (ctrl d) s) <$> descs pack') /\
  forall evs, TaskNode_call Next n pack = Some evs ->
    length evs = length (descs pack') /\
    Forall (fun ev => exists c, ev = EvProcessFailed c s) evs.
Proof.
  intros HP Hs. unfold TaskNode_call. rewrite HP.
  rewrite bool_decide_eq_true_2 by done. split; [done|].
  intros evs [= <-]. split; [by rewrite length_fmap|].
  apply Forall_fmap, Forall_forall. intros d _. simpl. by eexists.
Qed.

Lemma TaskNode_success_transmits_witness :
  TaskNode_call Z.succ (TailNode (sample_processor "Postproc")) single_popped
  = Some [EvProcessDone 1 SUCCESS (mkInferData 7 None) 0; EvDoneNotifier] /\
  TaskNode_call Z.succ (LinkedNode (sample_processor "Preproc")
                                   (TailNode (sample_processor "Postproc")))
                single_popped
  = Some [EvVoidPush 0 (TailNode (sample_processor "Postproc"))
                     (set_priority single_popped 0)].
Proof.
  split.
  - apply (TaskNode_success_transmits Z.succ (TailNode (sample_processor "Postproc"))
             single_popped single_popped eq_refl); [reflexivity | simpl; lia].
  - apply (TaskNode_success_transmits Z.succ
             (LinkedNode (sample_processor "Preproc") (TailNode (sample_processor "Postproc")))
             single_popped single_popped eq_refl). reflexivity.
Defined.

Lemma TaskNode_failure_reports_witness :
  TaskNode_call Z.succ (LinkedNode failing_processor (TailNode (sample_processor "Postproc")))
                mixed_popped
  = Some [EvProcessFailed 0 ERROR_BACKEND; EvProcessFailed 1 ERROR_BACKEND].
Proof.
  apply (TaskNode_failure_reports Z.succ
           (LinkedNode failing_processor (TailNode (sample_processor "Postproc")))
           mixed_popped mixed_popped ERROR_BACKEND eq_refl). discriminate.
Defined.

(** * Properties of the facade *)

(** C7, as the code has it. On a synchronous session and with a positive
    timeout [RequestSync] returns in one of five ways, [remaining] being the
    timeout less the time [WaitIfCacheFull] took, cut to an [int]. When
    [WaitIfCacheFull] times out, or succeeds with less than one millisecond
    remaining, the call sets [*status] to TIMEOUT and returns false, and the
    request is not sent. Otherwise the request is sent: when
    [Session::Send] fails the call returns false and leaves [*status]; when
    the callback does not fulfil the future in the remaining time the call
    discards the RequestControl, sets [*status] to TIMEOUT and returns true;
    when the callback fulfils it the call returns true with the status and
    the data of the callback, and discards nothing. *)
Theorem RequestSync_timeout (priv : InferServerPrivate) (session : Session_t)
    (s : Session) (input output : Package) (status : Status) (timeout : Z)
    (env : SyncEnv) :
  sessions priv !! session = Some s ->
  IsSyncLink s = true ->
  (0 < timeout)%Z ->
  let call :=
    RequestSync priv (Some session) (Some input) (Some status) (Some output) timeout env in
  let remaining := double_to_int (inject_Z timeout - wait_time env) in
  (sync_WaitIfCacheFull env = false ->
   call = Returns (mkSyncResult false TIMEOUT output false None)) /\
  (sync_WaitIfCacheFull env = true ->
   (remaining < 1)%Z ->
   call = Returns (mkSyncResult false TIMEOUT output false None)) /\
  (sync_WaitIfCacheFull env = true ->
   (1 <= remaining)%Z ->
   sync_Send env = None ->
   call = Returns (mkSyncResult false status output true None)) /\
  (forall ctrl,
     sync_WaitIfCacheFull env = true ->
     (1 <= remaining)%Z ->
     sync_Send env = Some ctrl ->
     callback env = None ->
     call = Returns (mkSyncResult true TIMEOUT output true (Some ctrl))) /\
  (forall ctrl answer data,
     sync_WaitIfCacheFull env = true ->
     (1 <= remaining)%Z ->
     sync_Send env = Some ctrl ->
     callback env = Some (answer, data) ->
     call = Returns (mkSyncResult true answer data true None)).
Proof.
  intros Hs Hsync Ht call remaining. unfold call, RequestSync. rewrite Hs, Hsync. simpl.
  assert (E : (0 <? timeout)%Z = true) by (apply Z.ltb_lt; lia).
  rewrite E. simpl. fold remaining.
  split_and!.
  - by intros ->.
  - intros -> Hrem. simpl.
    assert (E1 : (remaining <? 1)%Z = true) by (apply Z.ltb_lt; lia).
    by rewrite E1.
  - intros -> Hrem ->. simpl.
    assert (E1 : (remaining <? 1)%Z = false) by (apply Z.ltb_ge; lia).
    by rewrite E1.
  - intros ctrl -> Hrem -> ->. simpl.
    assert (E1 : (remaining <? 1)%Z = false) by (apply Z.ltb_ge; lia).
    assert (E2 : (0 <? remaining)%Z = true) by (apply Z.ltb_lt; lia).
    by rewrite E1, E2.
  - intros ctrl answer data -> Hrem -> ->. simpl.
    assert (E1 : (remaining <? 1)%Z = false) by (apply Z.ltb_ge; lia).
    by rewrite E1.
Qed.

Lemma RequestSync_timeout_witness :
  RequestSync sync_server (Some 1) (Some single_package) (Some SUCCESS)
              (Some single_package) 5 sample_env_cache_full
  = Returns (mkSyncResult false TIMEOUT single_package false None) /\
  RequestSync sync_server (Some 1) (Some single_package) (Some SUCCESS)
              (Some single_package) 1 sample_env_short_wait
  = Returns (mkSyncResult false TIMEOUT single_package false None) /\
  RequestSync sync_server (Some 1) (Some single_package) (Some SUCCESS)
              (Some single_package) 5 sample_env_send_fails
  = Returns (mkSyncResult false SUCCESS single_package true None) /\
  RequestSync sync_server (Some 1) (Some single_package) (Some SUCCESS)
              (Some single_package) 5 sample_env_no_answer
  = Returns (mkSyncResult true TIMEOUT single_package true (Some 3)) /\
  RequestSync sync_server (Some 1) (Some single_package) (Some ERROR_BACKEND)
              (Some single_package) 5 sample_env_answer
  = Returns (mkSyncResult true SUCCESS pair_package true None).
Proof.
  split_and!.
  - destruct (RequestSync_timeout sync_server 1 (mkSession "session" 0 true false None)
                single_package single_package SUCCESS 5 sample_env_cache_full)
      as (H & _); [reflexivity | reflexivity | lia |].
    apply H. reflexivity.
  - destruct (RequestSync_timeout sync_server 1 (mkSession "session" 0 true false None)
                single_package single_package SUCCESS 1 sample_env_short_wait)
      as (_ & H & _); [reflexivity | reflexivity | lia |].
    apply H; [reflexivity | vm_compute; reflexivity].
  - destruct (RequestSync_timeout sync_server 1 (mkSession "session" 0 true false None)
                single_package single_package SUCCESS 5 sample_env_send_fails)
      as (_ & _ & H & _); [reflexivity | reflexivity | lia |].
    apply H; [reflexivity | vm_compute; discriminate | reflexivity].
  - destruct (RequestSync_timeout sync_server 1 (mkSession "session" 0 true false None)
                single_package single_package SUCCESS 5 sample_env_no_answer)
      as (_ & _ & _ & H & _); [reflexivity | reflexivity | lia |].
    apply H; [reflexivity | vm_compute; discriminate | reflexivity | reflexivity].
  - destruct (RequestSync_timeout sync_server 1 (mkSession "session" 0 true false None)
                single_package single_package ERROR_BACKEND 5 sample_env_answer)
      as (_ & _ & _ & _ & H); [reflexivity | reflexivity | lia |].
    apply (H 3); [reflexivity | vm_compute; discriminate | reflexivity | reflexivity].
Defined.

(** C7, as the specification states it, fails: with a timeout of 1 ms,
    [WaitIfCacheFull] succeeds after half a millisecond; the callback never
    fulfils the future, and [Session::Send] would accept the request, yet
    the call returns false with TIMEOUT, sends nothing and discards no
    RequestControl. *)
Lemma RequestSync_unsent_timeout :
  RequestSync sync_server (Some 1) (Some single_package) (Some SUCCESS)
              (Some single_package) 1 sample_env_short_wait
  = Returns (mkSyncResult false TIMEOUT single_package false None) /\
  ~ RequestSync_timeout_as_stated.
Proof.
  split; [reflexivity|]. intros H.
  destruct (H sync_server 1 (mkSession "session" 0 true false None) single_package
              single_package SUCCESS 1%Z sample_env_short_wait
              (mkSyncResult false TIMEOUT single_package false None))
    as [_ H2]; [reflexivity | reflexivity | lia | reflexivity |].
  destruct H2 as (Hret & _); [reflexivity | reflexivity |]. discriminate.
Qed.

(** What a successful [CreateSession] leaves in the server. *)
Lemma CreateSession_success ctor_ok cores dpost priv desc observer session priv1 :
  CreateSession ctor_ok cores dpost priv desc observer = Returns (Some session, priv1) ->
  exists m pre executor ex sess,
    model desc = Some m /\ preproc desc = Some pre /\
    executor_map_ priv1
      !! executor_name_of m pre (default dpost (postproc desc)) = Some executor /\
    executors priv1 !! executor = Some ex /\
    sessions priv1 !! session = Some sess /\ GetExecutor sess = executor /\
    next_ptr priv1 = S session.
Proof.
  unfold CreateSession.
  destruct (model desc) as [m|] eqn:Hm; [|done].
  destruct (preproc desc) as [pre|] eqn:Hpre; [|done].
  set (desc' := match postproc desc with
                | Some _ => desc
                | None => set_postproc desc (Some dpost)
                end).
  assert (Hm' : model desc' = Some m) by (unfold desc'; by destruct (postproc desc)).
  assert (Hpre' : preproc desc' = Some pre) by (unfold desc'; by destruct (postproc desc)).
  assert (Hpost' : postproc desc' = Some (default dpost (postproc desc)))
    by (unfold desc'; by destruct (postproc desc) eqn:E).
  unfold CreateExecutor. rewrite Hm', Hpre', Hpost'.
  set (nm := executor_name_of m pre (default dpost (postproc desc))).
  destruct (executor_map_ priv !! nm) as [executor|] eqn:Hmap.
  - destruct (executors priv !! executor) as [ex|] eqn:Hex; [|done].
    intros [= <- <-]. simpl. eexists m, pre, executor, _, _.
    split_and!; [done | done | done | by rewrite lookup_insert_eq
                 | by rewrite lookup_insert_eq | done | done].
  - destruct (ctor_ok desc'); [|done]. simpl. rewrite lookup_insert_eq.
    intros [= <- <-]. simpl. eexists m, pre, (next_ptr priv), _, _.
    split_and!; [done | done | by rewrite lookup_insert_eq | by rewrite lookup_insert_eq
                 | by rewrite lookup_insert_eq | done | done].
Qed.





(** C9, as the code has it. A facade call with a null argument does not
    return a failure value: the [CHECK] on the argument fails, which logs a
    fatal message and aborts the process. This holds for [CreateSession]
    with a null model or a null preproc and for [Request] and [RequestSync]
    with a null session or a null input. No exception leaves the calls. *)
Theorem null_argument_check_fails (ctor_ok : SessionDesc -> bool) (cores : N)
    (dpost : Processor) (priv : InferServerPrivate) (n : string) (m : Model)
    (pre post : option Processor) (engines : N) (perf : bool) (observer : option nat)
    (session : Session_t) (input : option Package) (status : option Status)
    (output : option Package) (timeout : Z) (renv : RequestEnv) (env : SyncEnv) :
  CreateSession ctor_ok cores dpost priv (mkSessionDesc n None pre post engines perf) observer
  = CheckFailed "model is null!" /\
  CreateSession ctor_ok cores dpost priv
                (mkSessionDesc n (Some m) None post engines perf) observer
  = CheckFailed "preproc is null!" /\
  Request priv None input timeout renv = CheckFailed "Session is null!" /\
  Request priv (Some session) None timeout renv = CheckFailed "input is null!" /\
  RequestSync priv None input status output timeout env = CheckFailed "Session is null!" /\
  RequestSync priv (Some session) None status output timeout env
  = CheckFailed "input is null!".
Proof. by split_and!. Qed.

(** C9, as the specification states it, fails: [CreateSession] with a null
    model and [Request] with a null session abort on their [CHECK] instead
    of returning null or false. *)
Lemma null_argument_aborts :
  CreateSession (fun _ => true) 4 (sample_processor "Postprocessor")
                fresh_server null_model_desc None
  = CheckFailed "model is null!" /\
  Request fresh_server None (Some single_package) 0 (mkRequestEnv true (Some 3))
  = CheckFailed "Session is null!" /\
  ~ null_argument_returns_failure.
Proof.
  split_and!; [reflexivity | reflexivity |].
  intros (H & _ & _).
  destruct (H (fun _ => true) 4%N (sample_processor "Postprocessor")
              fresh_server null_model_desc None (or_introl eq_refl)) as [priv' Hr].
  discriminate Hr.
Qed.

(** * More of the cache *)

(** ** What [Enqueue] does to the queue *)

Lemma queue_items_app q1 q2 : queue_items (q1 ++ q2) = queue_items q1 ++ queue_items q2.
Proof. unfold queue_items. by rewrite fmap_app, concat_app. Qed.

Lemma queue_items_singleton p : queue_items [p] = data p.
Proof. unfold queue_items. simpl. by rewrite app_nil_r. Qed.

(** The package a flush appends holds exactly the items gathered. *)
Lemma CacheStatic_flush_data (continuous : bool) p p' :
  (if continuous then CopyDescToPackageContinuous p else CopyDescToPackage p) = Some p' ->
  data p' = data p.
Proof.
  destruct continuous.
  - by intros (-> & _)%CopyDescToPackageContinuous_inv.
  - by intros (-> & _)%CopyDescToPackage_inv.
Qed.

Lemma CacheStatic_Enqueue_loop_items h b data_size in_data_num items pack batch_idx q q' :
  CacheStatic_Enqueue_loop h b data_size in_data_num items pack batch_idx q = Some q' ->
  items <> [] \/ pack = [] ->
  queue_items q' = queue_items q ++ pack ++ items.
Proof.
  revert pack batch_idx q.
  induction items as [|it rest IH]; intros pack batch_idx q; simpl.
  - intros [= <-] [?| ->]; [done|]. by rewrite !app_nil_r.
  - destruct (desc it) as [d|]; simpl; [|done].
    destruct (_ || bool_decide (rest = [])) eqn:Hflush.
    + destruct ((pack ++ [it]) !! 0) as [first|]; simpl; [|done].
      destruct (item_ctrl first) as [c|]; simpl; [|done].
      match goal with
      | |- (?copy ≫= _) = _ -> _ => destruct copy as [p'|] eqn:Hcopy; simpl; [|done]
      end.
      apply CacheStatic_flush_data in Hcopy. simpl in Hcopy.
      intros HE _. apply IH in HE; [|by right].
      rewrite HE, queue_items_app, queue_items_singleton, Hcopy. simpl.
      by rewrite <- !(assoc_L (++)).
    + apply orb_false_iff in Hflush as [_ Hrest%bool_decide_eq_false].
      intros HE _. apply IH in HE; [|by left].
      rewrite HE. by rewrite <- (assoc_L (++)).
Qed.

(** X1. A push that a static cache accepts appends the items of the package
    to the queue, all of them, once each and in their order; what was queued
    before stays in front. *)
Theorem Push_static_keeps_items (h : CtrlHeap) (b : CacheBase) (pack : Package) (c' : Cache) :
  Push h (CacheStatic b) (Some pack) = Some (true, c') ->
  queue_items (cache_ (base c')) = queue_items (cache_ b) ++ data pack.
Proof.
  unfold Push. simpl. destruct (Running (CacheStatic b)); [|done].
  unfold CacheStatic_Enqueue.
  destruct (CacheStatic_Enqueue_loop _ _ _ _ _ _ _ _) as [q|] eqn:HE; simpl; [|done].
  intros [= <-]. simpl.
  apply CacheStatic_Enqueue_loop_items in HE; [done | by right].
Qed.

Lemma Push_static_keeps_items_witness :
  queue_items (cache_ (base mixed_cache))
  = queue_items (cache_ (CacheBase_new 8 4 sample_priority)) ++ data mixed_package.
Proof.
  apply (Push_static_keeps_items sample_heap
           (set_running (CacheBase_new 8 4 sample_priority) true) mixed_package mixed_cache).
  reflexivity.
Defined.




Lemma CacheStatic_Enqueue_loop_unsplit h b data_size in_data_num items pack batch_idx q q' :
  CacheStatic_Enqueue_loop h b data_size in_data_num items pack batch_idx q = Some q' ->
  batch_size_ b = 0%N ->
  (N.of_nat (batch_idx + length items) < 2 ^ 32)%N ->
  items <> [] ->
  exists p, q' = q ++ [p] /\ data p = pack ++ items.
Proof.
  intros HE Hbs. revert pack batch_idx q HE.
  induction items as [|it rest IH]; intros pack batch_idx q; simpl; [done|].
  destruct (desc it) as [d|]; simpl; [|done].
  intros HE Hsize _.
  assert (Hm1 : BatchSize_minus_1 b = (2 ^ 32 - 1)%N).
  { unfold BatchSize_minus_1, BatchSize. rewrite Hbs. reflexivity. }
  rewrite Hm1 in HE.
  assert (Hnot : (2 ^ 32 - 1 <? N.of_nat (S batch_idx))%N = false)
    by (apply N.ltb_ge; lia).
  rewrite Hnot in HE. simpl in HE.
  destruct (bool_decide (rest = [])) eqn:Hlast.
  - apply bool_decide_eq_true in Hlast. subst rest.
    destruct ((pack ++ [it]) !! 0) as [first|]; simpl in HE; [|done].
    destruct (item_ctrl first) as [c|]; simpl in HE; [|done].
    match type of HE with
    | (?copy ≫= _) = _ => destruct copy as [p'|] eqn:Hcopy; simpl in HE; [|done]
    end.
    apply CacheStatic_flush_data in Hcopy. simpl in Hcopy. injection HE as <-.
    by exists p'.
  - apply bool_decide_eq_false in Hlast.
    apply IH in HE as (p & -> & Hp); [|simpl in *; lia|done].
    exists p. split; [done|]. by rewrite Hp, <- (assoc_L (++)).
Qed.

(** X3. With batch size 0 the static cache does not split: [BatchSize() - 1]
    wraps to 2^32 - 1, and a push of fewer than 2^32 items is queued as one
    package that holds them all. *)
Theorem Push_static_batch_size_zero (h : CtrlHeap) (b : CacheBase) (pack : Package)
    (c' : Cache) :
  batch_size_ b = 0%N ->
  (N.of_nat (length (data pack)) < 2 ^ 32)%N ->
  data pack <> [] ->
  Push h (CacheStatic b) (Some pack) = Some (true, c') ->
  exists p, cache_ (base c') = cache_ b ++ [p] /\ data p = data pack.
Proof.
  intros Hbs Hsize Hne. unfold Push. simpl. destruct (Running (CacheStatic b)); [|done].
  unfold CacheStatic_Enqueue.
  destruct (CacheStatic_Enqueue_loop _ _ _ _ _ _ _ _) as [q|] eqn:HE; simpl; [|done].
  intros [= <-]. simpl.
  apply CacheStatic_Enqueue_loop_unsplit in HE; [done | done | simpl; lia | done].
Qed.

Lemma Push_static_batch_size_zero_witness :
  exists p,
    push_all sample_heap (Start (CacheStatic_new 8 0 sample_priority)) [request_package 1 5]
    = Some (CacheStatic (set_cache (set_running (CacheBase_new 8 0 sample_priority) true) [p])) /\
    data p = data (request_package 1 5).
Proof.
  destruct (Push_static_batch_size_zero sample_heap
              (set_running (CacheBase_new 8 0 sample_priority) true) (request_package 1 5)
              (CacheStatic (set_cache (set_running (CacheBase_new 8 0 sample_priority) true)
                 [mkPackage (data (request_package 1 5))
                            ((fun i => mkTaskDesc 1 i) <$> seq 0 5) (-1)%Z 5])))
    as (p & Hq & Hp).
  - reflexivity.
  - simpl. lia.
  - discriminate.
  - reflexivity.
  - exists p. split; [|exact Hp]. simpl in Hq. injection Hq as <-. reflexivity.
Defined.

(** ** What the dynamic sweep keeps *)

Lemma CacheDynamic_sweep_items_filter h l keep evs :
  CacheDynamic_sweep_items h l = Some (keep, evs) ->
  keep = List.filter (is_live h) l /\ evs = omap (discard_report h) l.
Proof.
  revert keep evs. induction l as [|it l IH]; simpl; intros keep evs H.
  - by injection H as <- <-.
  - unfold is_live, discard_report.
    destruct (item_ctrl it) as [c|] eqn:Hc; simpl in H; [|done].
    destruct (CacheDynamic_sweep_items h l) as [[k e]|]; simpl in H; [|done].
    destruct (IH k e eq_refl) as [-> ->].
    destruct (IsDiscarded (h c)); injection H as <- <-; done.
Qed.

Lemma filter_app_list {A} (f : A -> bool) l1 l2 :
  List.filter f (l1 ++ l2) = List.filter f l1 ++ List.filter f l2.
Proof.
  induction l1 as [|x l1 IH]; simpl; [done|]. destruct (f x); simpl; by rewrite IH.
Qed.

Lemma CacheDynamic_sweep_filter h q keep evs :
  CacheDynamic_sweep h q = Some (keep, evs) ->
  keep = List.filter (is_live h) (queue_items q) /\
  evs = omap (discard_report h) (queue_items q).
Proof.
  revert keep evs. induction q as [|p q IH]; simpl; intros keep evs H.
  - by injection H as <- <-.
  - destruct (CacheDynamic_sweep_items h (data p)) as [[k1 e1]|] eqn:H1; simpl in H; [|done].
    destruct (CacheDynamic_sweep h q) as [[k2 e2]|]; simpl in H; [|done].
    injection H as <- <-.
    apply CacheDynamic_sweep_items_filter in H1 as [-> ->].
    destruct (IH k2 e2 eq_refl) as [-> ->].
    unfold queue_items. simpl. by rewrite filter_app_list, omap_app.
Qed.

(** X4. The dynamic sweep that [Pop] starts keeps exactly the items of live
    requests, in the order they had in the queue, and reports exactly the
    others, in that order too, each with SUCCESS. *)
Theorem ClearDiscard_dynamic_filters (priority0 : Z) (h : CtrlHeap) (b : CacheBase)
    (bt : Batcher) (pack : Package) (rest : list Package) (c' : Cache) (evs : list Event) :
  cache_ b = pack :: rest ->
  ClearDiscard priority0 h (CacheDynamic b bt) pack = Some (c', evs) ->
  queue_items (cache_ (base c')) = List.filter (is_live h) (queue_items (cache_ b)) /\
  evs = omap (discard_report h) (queue_items (cache_ b)).
Proof.
  intros Hq. rewrite (ClearDiscard_front _ _ (CacheDynamic b bt) _ _ Hq). simpl.
  destruct (CacheDynamic_sweep h (cache_ b)) as [[keep e]|] eqn:Hs; simpl; [|done].
  intros [= <- <-]. simpl. rewrite CacheDynamic_rebatch_all.
  by apply CacheDynamic_sweep_filter.
Qed.

Lemma ClearDiscard_dynamic_filters_witness :
  queue_items (cache_ (base swept_dynamic_cache))
  = List.filter (is_live (Discard (Discard sample_heap 0) 2))
                (queue_items (cache_ (base paired_dynamic_cache))) /\
  [EvProcessFailed 0 SUCCESS; EvProcessFailed 2 SUCCESS]
  = omap (discard_report (Discard (Discard sample_heap 0) 2))
         (queue_items (cache_ (base paired_dynamic_cache))).
Proof.
  apply (ClearDiscard_dynamic_filters 0%Z (Discard (Discard sample_heap 0) 2)
           (base paired_dynamic_cache) (mkBatcher [])
           (mkPackage [sample_item 0 0 0; sample_item 0 1 0] [] 0%Z 2)
           [mkPackage [sample_item 0 2 0; sample_item 0 3 0] [] (-2)%Z 2]
           swept_dynamic_cache).
  - reflexivity.
  - reflexivity.
Defined.

Lemma CacheDynamic_rebatch_sizes priority0 bs cur items out :
  1 <= N.to_nat bs ->
  length cur < N.to_nat bs ->
  items <> [] ->
  exists k r,
    (fun p => length (data p)) <$> CacheDynamic_rebatch priority0 bs cur items out
    = ((fun p => length (data p)) <$> out) ++ replicate k (N.to_nat bs) ++ [r] /\
    1 <= r <= N.to_nat bs /\
    k * N.to_nat bs + r = length cur + length items.
Proof.
  intros Hbs. revert cur out.
  induction items as [|it rest IH]; intros cur out Hcur Hne; simpl; [done|].
  assert (Hlen : length (cur ++ [it]) = S (length cur)) by (rewrite length_app; simpl; lia).
  destruct ((bs <=? N.of_nat (length (cur ++ [it])))%N) eqn:Hfull;
    destruct (bool_decide (rest = [])) eqn:Hlast; simpl.
  - apply bool_decide_eq_true in Hlast. subst rest. simpl.
    exists 0, (S (length cur)). rewrite fmap_app. simpl. rewrite Hlen.
    split_and!; [done | lia | lia | lia].
  - apply bool_decide_eq_false in Hlast. apply N.leb_le in Hfull.
    destruct (IH [] (out ++ [mkPackage (cur ++ [it]) [] priority0 (length (cur ++ [it]))]))
      as (k & r & Hs & Hr & Hsum); [simpl; lia | done |].
    exists (S k), r. rewrite Hs, fmap_app. simpl. rewrite Hlen.
    assert (S (length cur) = N.to_nat bs) as -> by lia.
    rewrite <- !(assoc_L (++)). simpl in *. split_and!; [done | lia | lia | lia].
  - apply bool_decide_eq_true in Hlast. subst rest. simpl.
    exists 0, (S (length cur)). rewrite fmap_app. simpl. rewrite Hlen.
    split_and!; [done | lia | lia | lia].
  - apply bool_decide_eq_false in Hlast. apply N.leb_gt in Hfull.
    destruct (IH (cur ++ [it]) out) as (k & r & Hs & Hr & Hsum); [lia | done |].
    exists k, r. rewrite Hlen in Hsum. split_and!; [done | lia | lia | simpl; lia].
Qed.

(** The packages the sweep builds have the priority that [new Package]
    leaves, [data_num] equal to their size, and no [descs]. *)
Lemma CacheDynamic_rebatch_fresh priority0 bs cur items out :
  let fresh p := priority p = priority0 /\ data_num p = length (data p) /\ descs p = [] in
  Forall fresh out -> Forall fresh (CacheDynamic_rebatch priority0 bs cur items out).
Proof.
  intros fresh. revert cur out.
  induction items as [|it rest IH]; intros cur out Hout; simpl; [done|].
  destruct (_ || _); [|by apply IH].
  apply IH. apply Forall_app. split; [done|]. by constructor.
Qed.

(** X5. With a batch size of 1 or more, the dynamic sweep packs the live
    items again into full packages of [batch_size] items followed by one last
    package of 1 to [batch_size] items, and leaves the queue empty when no
    item is live. Every package it builds has [data_num] equal to its size,
    no [descs], and the priority of a fresh [Package], whatever the requests
    in it. *)
Theorem ClearDiscard_dynamic_rebatches (priority0 : Z) (h : CtrlHeap) (b : CacheBase)
    (bt : Batcher) (pack : Package) (rest : list Package) (c' : Cache) (evs : list Event) :
  (1 <= batch_size_ b)%N ->
  cache_ b = pack :: rest ->
  ClearDiscard priority0 h (CacheDynamic b bt) pack = Some (c', evs) ->
  let live := List.filter (is_live h) (queue_items (cache_ b)) in
  (live = [] -> cache_ (base c') = []) /\
  (live <> [] ->
   exists k r,
     queue_sizes c' = replicate k (N.to_nat (batch_size_ b)) ++ [r] /\
     1 <= r <= N.to_nat (batch_size_ b) /\
     k * N.to_nat (batch_size_ b) + r = length live) /\
  Forall (fun p => priority p = priority0 /\ data_num p = length (data p) /\ descs p = [])
         (cache_ (base c')).
Proof.
  intros Hbs Hq. rewrite (ClearDiscard_front _ _ (CacheDynamic b bt) _ _ Hq). simpl.
  destruct (CacheDynamic_sweep h (cache_ b)) as [[keep e]|] eqn:Hs; simpl; [|done].
  intros [= <- <-]. simpl.
  apply CacheDynamic_sweep_filter in Hs as [-> _].
  set (live := List.filter (is_live h) (queue_items (cache_ b))).
  split_and!.
  - by intros ->.
  - intros Hne. unfold queue_sizes. simpl.
    destruct (CacheDynamic_rebatch_sizes priority0 (BatchSize b) [] live [])
      as (k & r & Hsz & Hr & Hsum); [unfold BatchSize; lia | simpl; unfold BatchSize; lia | done |].
    simpl in Hsz, Hsum. exists k, r. unfold BatchSize in *. split; [done|]. split; done.
  - by apply CacheDynamic_rebatch_fresh.
Qed.

Lemma ClearDiscard_dynamic_rebatches_witness :
  exists k r,
    queue_sizes swept_dynamic_cache = replicate k 2 ++ [r] /\
    1 <= r <= 2 /\
    k * 2 + r
    = length (List.filter (is_live (Discard (Discard sample_heap 0) 2))
                          (queue_items (cache_ (base paired_dynamic_cache)))).
Proof.
  destruct (ClearDiscard_dynamic_rebatches 0%Z (Discard (Discard sample_heap 0) 2)
              (base paired_dynamic_cache) (mkBatcher [])
              (mkPackage [sample_item 0 0 0; sample_item 0 1 0] [] 0%Z 2)
              [mkPackage [sample_item 0 2 0; sample_item 0 3 0] [] (-2)%Z 2]
              swept_dynamic_cache [EvProcessFailed 0 SUCCESS; EvProcessFailed 2 SUCCESS])
    as (_ & Hsizes & _).
  - simpl. lia.
  - reflexivity.
  - reflexivity.
  - apply Hsizes. discriminate.
Defined.

(** ** What a push to a dynamic cache does *)




Lemma CacheDynamic_Enqueue_sizes h items b bt b' bt' :
  (1 <= batch_size_ b)%N ->
  length (batcher_items bt) < N.to_nat (batch_size_ b) ->
  CacheDynamic_Enqueue h items b bt = Some (b', bt') ->
  exists k,
    ((fun p => length (data p)) <$> cache_ b')
    = ((fun p => length (data p)) <$> cache_ b) ++ replicate k (N.to_nat (batch_size_ b)) /\
    k * N.to_nat (batch_size_ b) + length (batcher_items bt')
    = length (batcher_items bt) + length items /\
    length (batcher_items bt') < N.to_nat (batch_size_ b).
Proof.
  intros Hbs. revert b bt Hbs.
  induction items as [|it rest IH]; intros b bt Hbs Hlen; simpl.
  - intros [= <- <-]. exists 0. simpl. rewrite (right_id_L [] (++)). split_and!; [done | lia | done].
  - destruct (desc it); simpl; [|done].
    unfold Batcher_AddItem.
    assert (Hl : length (batcher_items bt ++ [it]) = S (length (batcher_items bt)))
      by (rewrite length_app; simpl; lia).
    destruct ((BatchSize b <=? N.of_nat (length (batcher_items bt ++ [it])))%N) eqn:Hfull; simpl.
    + apply N.leb_le in Hfull. unfold BatchSize in Hfull.
      unfold CacheDynamic_notifier.
      destruct ((batcher_items bt ++ [it]) !! 0) as [first|]; simpl; [|done].
      destruct (item_ctrl first) as [c|]; simpl; [|done].
      intros H. apply IH in H as (k & Hs & Hsum & Hlt); simpl in *; [|done|lia].
      exists (S k). rewrite Hs, fmap_app. simpl. rewrite Hl.
      assert (S (length (batcher_items bt)) = N.to_nat (batch_size_ b)) as -> by lia.
      rewrite <- !(assoc_L (++)). simpl. split_and!; [done | lia | done].
    + apply N.leb_gt in Hfull. unfold BatchSize in Hfull.
      intros H. apply IH in H as (k & Hs & Hsum & Hlt); simpl in *; [|done|lia].
      exists k. split_and!; [done | lia | done].
Qed.

(** X7. With a batch size of 1 or more and a batcher that holds fewer items
    than that, a push to a dynamic cache queues only full packages of
    [batch_size] items, behind the packages already queued; the batcher keeps
    the remainder, again fewer than [batch_size] items, and no queued package
    changes. *)
Theorem Push_dynamic_full_batches (h : CtrlHeap) (b : CacheBase) (bt : Batcher)
    (pack : Package) (c' : Cache) :
  (1 <= batch_size_ b)%N ->
  length (batcher_items bt) < N.to_nat (batch_size_ b) ->
  Push h (CacheDynamic b bt) (Some pack) = Some (true, c') ->
  exists k,
    queue_sizes c' = queue_sizes (CacheDynamic b bt) ++ replicate k (N.to_nat (batch_size_ b)) /\
    k * N.to_nat (batch_size_ b) + length (pending_items c')
    = length (batcher_items bt) + length (data pack) /\
    length (pending_items c') < N.to_nat (batch_size_ b).
Proof.
  intros Hbs Hlen. unfold Push. simpl. unfold Running. simpl.
  destruct (running_ b); [|done]. simpl.
  destruct (CacheDynamic_Enqueue h (data pack) b bt) as [[b' bt']|] eqn:He; simpl; [|done].
  intros [= <-]. simpl. by apply CacheDynamic_Enqueue_sizes in He.
Qed.

Lemma Push_dynamic_full_batches_witness :
  exists k,
    queue_sizes paired_dynamic_cache
    = queue_sizes (CacheDynamic (mkCacheBase [] 8 2 sample_priority true) (mkBatcher []))
      ++ replicate k 2 /\
    k * 2 + length (pending_items paired_dynamic_cache)
    = 0 + length (data (mkPackage [sample_item 0 0 0; sample_item 0 1 0;
                                    sample_item 0 2 0; sample_item 0 3 0] [] 0%Z 4)) /\
    length (pending_items paired_dynamic_cache) < 2.
Proof.
  apply (Push_dynamic_full_batches sample_heap
           (mkCacheBase [] 8 2 sample_priority true) (mkBatcher [])
           (mkPackage [sample_item 0 0 0; sample_item 0 1 0;
                       sample_item 0 2 0; sample_item 0 3 0] [] 0%Z 4)
           paired_dynamic_cache).
  - simpl. lia.
  - simpl. lia.
  - reflexivity.
Defined.

(** ** Stopping a cache *)

(** X8. [Stop] on a well-formed cache returns; the cache no longer runs, the
    items the batcher held are queued behind the others as one package, and
    the batcher is empty, so that the check in the destructor of CacheDynamic
    holds. *)
Theorem Stop_flushes_batcher (h : CtrlHeap) (c : Cache) :
  cache_wf c ->
  exists c',
    Stop h c = Some c' /\
    Running c' = false /\
    queue_items (cache_ (base c')) = queue_items (cache_ (base c)) ++ pending_items c /\
    pending_items c' = [] /\
    Cache_destroy c' = Returns tt.
Proof.
  intros [_ Hbt]. destruct c as [b bt|b]; simpl in *.
  - unfold Batcher_Emit. destruct bt as [items]. simpl in *.
    destruct items as [|it items]; simpl.
    + exists (CacheDynamic (set_running b false) (mkBatcher [])). simpl.
      by rewrite (right_id_L [] (++)).
    + apply Forall_cons in Hbt as [Hit _].
      destruct (has_desc_ctrl _ Hit) as [ctl Hc].
      unfold CacheDynamic_notifier. simpl. rewrite Hc. simpl.
      eexists. split; [reflexivity|]. simpl.
      rewrite queue_items_app, queue_items_singleton. done.
  - exists (CacheStatic (set_running b false)). simpl.
    by rewrite (right_id_L [] (++)).
Qed.

Lemma Stop_flushes_batcher_witness :
  exists c',
    Stop sample_heap pending_dynamic_cache = Some c' /\
    Running c' = false /\
    queue_items (cache_ (base c'))
    = queue_items (cache_ (base pending_dynamic_cache)) ++ pending_items pending_dynamic_cache /\
    pending_items c' = [] /\
    Cache_destroy c' = Returns tt.
Proof.
  apply (Stop_flushes_batcher sample_heap pending_dynamic_cache).
  split; simpl.
  - constructor.
  - constructor; [by eexists | constructor].
Defined.

(** ** What the static sweep keeps *)

Lemma package_reports_mapM p cs :
  mapM item_ctrl (data p) = Some cs ->
  (fun c => EvProcessFailed c SUCCESS) <$> cs = package_reports p.
Proof.
  unfold package_reports. intros Hcs. apply mapM_Some_1 in Hcs.
  induction Hcs as [|it c l cs Hit _ IH]; simpl; [done|].
  rewrite Hit. simpl. by f_equal.
Qed.

Lemma CacheStatic_sweep_filter h q keep evs :
  CacheStatic_sweep h q = Some (keep, evs) ->
  keep = List.filter (head_live h) q /\
  evs = concat (package_reports <$> List.filter (fun p => negb (head_live h p)) q).
Proof.
  revert keep evs. induction q as [|p q IH]; simpl; intros keep evs H.
  - by injection H as <- <-.
  - destruct (data p !! 0) as [first|] eqn:Hf; simpl in H; [|done].
    destruct (item_ctrl first) as [c|] eqn:Hc; simpl in H; [|done].
    assert (Hl : head_live h p = negb (IsDiscarded (h c))).
    { unfold head_live, is_live. by rewrite Hf, Hc. }
    rewrite Hl. destruct (IsDiscarded (h c)) eqn:Hd; simpl.
    + destruct (mapM item_ctrl (data p)) as [cs|] eqn:Hcs; simpl in H; [|done].
      destruct (CacheStatic_sweep h q) as [[k e]|]; simpl in H; [|done].
      injection H as <- <-. destruct (IH k e eq_refl) as [-> ->].
      split; [done|]. f_equal. by apply package_reports_mapM.
    + destruct (CacheStatic_sweep h q) as [[k e]|]; simpl in H; [|done].
      injection H as <- <-. by destruct (IH k e eq_refl) as [-> ->].
Qed.

(** X9. The static sweep that [Pop] starts looks at the first item of each
    queued package only: it keeps, unchanged and in order, exactly the
    packages whose first item belongs to a live request, and reports every
    item of every other package, package by package, whatever the state of
    the requests of the other items. *)
Theorem ClearDiscard_static_filters (priority0 : Z) (h : CtrlHeap) (b : CacheBase)
    (pack : Package) (rest : list Package) (c' : Cache) (evs : list Event) :
  cache_ b = pack :: rest ->
  ClearDiscard priority0 h (CacheStatic b) pack = Some (c', evs) ->
  cache_ (base c') = List.filter (head_live h) (cache_ b) /\
  evs = concat (package_reports <$> List.filter (fun p => negb (head_live h p)) (cache_ b)).
Proof.
  intros Hq. rewrite (ClearDiscard_front _ _ (CacheStatic b) _ _ Hq). simpl.
  destruct (CacheStatic_sweep h (cache_ b)) as [[keep e]|] eqn:Hs; simpl; [|done].
  intros [= <- <-]. simpl. by apply CacheStatic_sweep_filter.
Qed.

Lemma ClearDiscard_static_filters_witness :
  cache_ (base (CacheStatic (mkCacheBase
    [mkPackage [sample_item 8 0 0; sample_item 9 0 1] [mkTaskDesc 0 0; mkTaskDesc 0 1] 0%Z 2]
    8 4 sample_priority true)))
  = List.filter (head_live (Discard sample_heap 1)) (cache_ (base two_request_cache)) /\
  [EvProcessFailed 1 SUCCESS]
  = concat (package_reports <$>
              List.filter (fun p => negb (head_live (Discard sample_heap 1) p))
                          (cache_ (base two_request_cache))).
Proof.
  apply (ClearDiscard_static_filters 0%Z (Discard sample_heap 1) (base two_request_cache)
           (mkPackage [sample_item 7 1 0] [mkTaskDesc 1 0] (-1)%Z 1)
           [mkPackage [sample_item 8 0 0; sample_item 9 0 1]
                      [mkTaskDesc 0 0; mkTaskDesc 0 1] 0%Z 2]).
  - reflexivity.
  - reflexivity.
Defined.

(** ** A push followed by a pop *)

Lemma find_discarded_live h l :
  Forall (item_live h) l -> find_discarded h l = Some false.
Proof.
  induction 1 as [|it l (c & Hc & Hd) _ IH]; simpl; [done|].
  unfold item_discarded. rewrite Hc. simpl. by rewrite Hd.
Qed.

Lemma CacheStatic_Enqueue_loop_one h b data_size in_data_num items pack batch_idx q ds first c :
  (1 <= batch_size_ b < 2 ^ 32)%N ->
  length pack = batch_idx ->
  batch_idx + length items <= N.to_nat (batch_size_ b) ->
  items <> [] ->
  mapM desc (pack ++ items) = Some ds ->
  (pack ++ items) !! 0 = Some first ->
  item_ctrl first = Some c ->
  (data_size =? 1) && negb (in_data_num =? 1) = false ->
  CacheStatic_Enqueue_loop h b data_size in_data_num items pack batch_idx q
  = Some (q ++ [mkPackage (pack ++ items) ds (Get (priority_ b) (- RequestId (h c)))
                          (if data_size =? 1 then in_data_num else length (pack ++ items))]).
Proof.
  intros Hbs. revert pack batch_idx.
  induction items as [|it rest IH]; intros pack batch_idx Hlen Hfit Hne Hds Hfirst Hc Hcont;
    simpl; [done|].
  assert (Hit : is_Some (desc it)).
  { assert (Hall : is_Some (mapM desc (pack ++ it :: rest))) by (by rewrite Hds).
    apply mapM_is_Some in Hall. rewrite Forall_app, Forall_cons in Hall.
    by destruct Hall as (_ & Hit & _). }
  destruct Hit as [d Hd]. rewrite Hd. simpl.
  rewrite (BatchSize_minus_1_eq b Hbs).
  assert (Hlen' : length (pack ++ [it]) = S batch_idx)
    by (rewrite length_app; simpl; lia).
  destruct (bool_decide (rest = [])) eqn:Hlast.
  - apply bool_decide_eq_true in Hlast. subst rest.
    rewrite orb_true_r. rewrite Hfirst. simpl. rewrite Hc. simpl. rewrite Hcont.
    unfold CopyDescToPackage. simpl. rewrite Hds. simpl. by rewrite Hlen'.
  - apply bool_decide_eq_false in Hlast. simpl in Hfit.
    assert (1 <= length rest) by (destruct rest; [done | simpl; lia]).
    assert ((batch_size_ b - 1 <? N.of_nat (S batch_idx))%N = false) as ->
      by (apply N.ltb_ge; lia).
    simpl. rewrite (IH (pack ++ [it]) (S batch_idx)); try done.
    + by rewrite <- (assoc_L (++)).
    + lia.
    + by rewrite <- (assoc_L (++)).
    + by rewrite <- (assoc_L (++)).
Qed.

(** X10. A static cache that runs, with an empty queue and a batch size in
    [1, 2^32), is handed a package of at most [batch_size] items of live
    requests that is not a continuous blob. The push queues it as one
    package, and the next [Pop] returns it without any report: the items in
    their order, their descriptors moved to [descs] in the same order,
    [data_num] the number of items, the priority computed from the request of
    the first item. The queue is empty again. *)
Theorem Push_Pop_static_round_trip (priority0 : Z) (h : CtrlHeap) (b : CacheBase)
    (pack : Package) (ds : list TaskDesc) (first : InferData) (c : CtrlPtr) :
  running_ b = true ->
  cache_ b = [] ->
  (1 <= batch_size_ b < 2 ^ 32)%N ->
  length (data pack) <= N.to_nat (batch_size_ b) ->
  length (data pack) <> 1 \/ data_num pack = 1 ->
  Forall (item_live h) (data pack) ->
  mapM desc (data pack) = Some ds ->
  data pack !! 0 = Some first ->
  item_ctrl first = Some c ->
  exists c1,
    Push h (CacheStatic b) (Some pack) = Some (true, c1) /\
    Pop priority0 h c1
    = Some (PopPack (mkPackage (reset_desc <$> data pack) ds
                       (Get (priority_ b) (- RequestId (h c))) (length (data pack))),
            CacheStatic b, []).
Proof.
  intros Hrun Hq Hbs Hfit Hcont Hlive Hds Hfirst Hc.
  assert (Hne : data pack <> []) by (intros E; by rewrite E in Hfirst).
  assert (Hc' : (length (data pack) =? 1) && negb (data_num pack =? 1) = false).
  { destruct Hcont as [Hn | Hn].
    - apply Nat.eqb_neq in Hn. by rewrite Hn.
    - apply Nat.eqb_eq in Hn. rewrite Hn. simpl. by rewrite andb_false_r. }
  unfold Push. simpl. unfold Running. simpl. rewrite Hrun. simpl.
  unfold CacheStatic_Enqueue.
  rewrite (CacheStatic_Enqueue_loop_one h b _ _ (data pack) [] 0 (cache_ b) ds first c);
    try done; try (simpl; lia).
  simpl. eexists. split; [reflexivity|].
  unfold Pop. simpl. rewrite Hq. simpl.
  rewrite (find_discarded_live _ _ Hlive). simpl.
  unfold CacheStatic_PreparePackage. simpl.
  assert (Hnum : (if length (data pack) =? 1 then data_num pack else length (data pack))
                 = length (data pack)).
  { destruct (length (data pack) =? 1) eqn:E; [|done].
    apply Nat.eqb_eq in E. destruct Hcont as [Hn | Hn]; [done | congruence]. }
  rewrite Hnum. do 3 f_equal.
  destruct b; simpl in *. unfold set_cache. simpl. by rewrite Hq.
Qed.

Lemma Push_Pop_static_round_trip_witness :
  exists c1,
    Push sample_heap (CacheStatic (mkCacheBase [] 8 4 sample_priority true))
         (Some (request_package 1 3)) = Some (true, c1) /\
    Pop 0%Z sample_heap c1
    = Some (PopPack (mkPackage (reset_desc <$> data (request_package 1 3))
                       [mkTaskDesc 1 0; mkTaskDesc 1 1; mkTaskDesc 1 2]
                       (Get sample_priority (- RequestId (sample_heap 1)))
                       (length (data (request_package 1 3)))),
            CacheStatic (mkCacheBase [] 8 4 sample_priority true), []).
Proof.
  apply (Push_Pop_static_round_trip 0%Z sample_heap
           (mkCacheBase [] 8 4 sample_priority true) (request_package 1 3)
           [mkTaskDesc 1 0; mkTaskDesc 1 1; mkTaskDesc 1 2] (sample_item 0 1 0) 1).
  - reflexivity.
  - reflexivity.
  - simpl. lia.
  - simpl. lia.
  - left. simpl. lia.
  - simpl. repeat constructor; by eexists.
  - reflexivity.
  - reflexivity.
  - reflexivity.
Defined.

(** ** The length of the queue *)

Lemma queue_items_length_bound bs q :
  Forall (fun p => length (data p) <= bs) q ->
  length (queue_items q) <= length q * bs.
Proof.
  induction 1 as [|p q Hp _ IH]; [simpl; lia|].
  change (queue_items (p :: q)) with (data p ++ queue_items q).
  rewrite length_app. simpl. lia.
Qed.

Lemma sweep_queue_length priority0 h c c1 evs :
  cache_inv c ->
  (1 <= batch_size_ (base c))%N ->
  sweep_queue priority0 h c = Some (c1, evs) ->
  length (cache_ (base c1)) <= length (cache_ (base c)).
Proof.
  intros Hinv Hbs. destruct c as [b bt|b]; simpl in *.
  - destruct (CacheDynamic_sweep h (cache_ b)) as [[keep e]|] eqn:Hs; simpl; [|done].
    intros [= <- <-]. simpl.
    apply CacheDynamic_sweep_filter in Hs as [-> _].
    set (live := List.filter (is_live h) (queue_items (cache_ b))).
    destruct (decide (live = [])) as [-> | Hne]; [simpl; lia|].
    destruct (CacheDynamic_rebatch_sizes priority0 (BatchSize b) [] live [])
      as (k & r & Hsz & Hr & Hsum); [unfold BatchSize; lia | simpl; unfold BatchSize; lia | done |].
    apply (f_equal length) in Hsz.
    rewrite length_fmap in Hsz. simpl in Hsz.
    rewrite length_app, length_replicate in Hsz. simpl in Hsz. rewrite Hsz.
    unfold BatchSize in *. simpl in Hsum.
    assert (Hle : length live <= length (cache_ b) * N.to_nat (batch_size_ b)).
    { etrans; [apply List.filter_length_le|].
      apply queue_items_length_bound. destruct Hinv as [Hq _].
      eapply Forall_impl; [exact Hq|]. intros p (_ & _ & Hp). simpl. specialize (Hp Hbs). lia. }
    nia.
  - destruct (CacheStatic_sweep h (cache_ b)) as [[keep e]|] eqn:Hs; simpl; [|done].
    intros [= <- <-]. simpl.
    apply CacheStatic_sweep_filter in Hs as [-> _]. apply List.filter_length_le.
Qed.

Lemma Pop_length priority0 h c r c' evs :
  cache_inv c ->
  (1 <= batch_size_ (base c))%N ->
  Pop priority0 h c = Some (r, c', evs) ->
  cache_capacity_ (base c') = cache_capacity_ (base c) /\
  length (cache_ (base c')) <= length (cache_ (base c)) /\
  (forall p, r = PopPack p -> length (cache_ (base c')) < length (cache_ (base c))).
Proof.
  intros Hinv Hbs HP.
  apply Pop_inv in HP as [(_ & -> & _ & Hr)|(pack & rest & found & c1 & Hq & _ & Hcd & Hr)].
  - split_and!; [done | done |]. intros p ->. by destruct (Running c).
  - assert (Hlen : length (cache_ (base c1)) <= length (cache_ (base c))).
    { destruct found; [by eapply sweep_queue_length | by destruct Hcd as [-> _]]. }
    assert (Hcap : cache_capacity_ (base c1) = cache_capacity_ (base c)).
    { destruct found; [|by destruct Hcd as [-> _]].
      destruct c as [b bt|b]; simpl in Hcd.
      - destruct (CacheDynamic_sweep h (cache_ b)) as [[keep e]|]; simpl in Hcd; [|done].
        by injection Hcd as <- <-.
      - destruct (CacheStatic_sweep h (cache_ b)) as [[keep e]|]; simpl in Hcd; [|done].
        by injection Hcd as <- <-. }
    destruct (cache_ (base c1)) as [|pack' rest'] eqn:Hq1.
    + destruct Hr as [-> ->]. rewrite Hq1. split_and!; [done | simpl; lia | done].
    + destruct Hr as (p & _ & -> & ->).
      assert (Hl' : length (cache_ (base (set_base c1 (set_cache (base c1) rest'))))
                    = length rest') by (by destruct c1).
      assert (Hc' : cache_capacity_ (base (set_base c1 (set_cache (base c1) rest')))
                    = cache_capacity_ (base c1)) by (by destruct c1).
      rewrite Hl', Hc'. simpl in Hlen. split_and!; [done | lia |]. intros _ _. lia.
Qed.

(** X11. In any state a cache with a batch size of 1 or more goes through,
    [Pop] never makes the queue longer, and a [Pop] that returns a package
    makes it shorter by one package at least: the sweep packs the live items
    into no more packages than there were. *)
Theorem Pop_shortens_queue (priority0 : Z) (h : CtrlHeap) (c : Cache) (r : PopResult)
    (c' : Cache) (evs : list Event) :
  reachable any_package c ->
  (1 <= batch_size_ (base c))%N ->
  Pop priority0 h c = Some (r, c', evs) ->
  length (cache_ (base c')) <= length (cache_ (base c)) /\
  (forall p, r = PopPack p -> length (cache_ (base c')) < length (cache_ (base c))).
Proof.
  intros Hreach Hbs HP. apply reachable_inv in Hreach.
  by destruct (Pop_length _ _ _ _ _ _ Hreach Hbs HP) as (_ & ? & ?).
Qed.

Lemma Pop_shortens_queue_witness :
  length (cache_ (base drained_static_cache)) <= length (cache_ (base single_cache)) /\
  (forall p, PopPack single_popped = PopPack p ->
             length (cache_ (base drained_static_cache)) < length (cache_ (base single_cache))).
Proof.
  apply (Pop_shortens_queue 0%Z sample_heap single_cache (PopPack single_popped)
           drained_static_cache []).
  - apply (reach_Push _ sample_heap (Start (CacheStatic_new 8 4 sample_priority))
             single_package true); [apply reach_Start, reach_new_static | done | reflexivity].
  - simpl. lia.
  - reflexivity.
Defined.

(** X12. [WaitIfFull] after [Pop]: when the queue holds no more packages
    than the capacity and [Pop] returns a package, there is room again, and
    [WaitIfFull] returns true without waiting, whatever its timeout. *)
Theorem Pop_makes_room (priority0 : Z) (h : CtrlHeap) (c : Cache) (p : Package)
    (c' : Cache) (evs : list Event) (timeout : Z) (size_at_wake : nat) :
  reachable any_package c ->
  (1 <= batch_size_ (base c))%N ->
  (N.of_nat (length (cache_ (base c))) <= cache_capacity_ (base c))%N ->
  Pop priority0 h c = Some (PopPack p, c', evs) ->
  WaitIfFull c' timeout size_at_wake = Returns true.
Proof.
  intros Hreach Hbs Hcap HP. apply reachable_inv in Hreach.
  destruct (Pop_length _ _ _ _ _ _ Hreach Hbs HP) as (Hc & _ & Hlt).
  specialize (Hlt p eq_refl). unfold WaitIfFull. rewrite Hc.
  assert ((cache_capacity_ (base c) <=? N.of_nat (length (cache_ (base c'))))%N = false) as ->
    by (apply N.leb_gt; lia).
  done.
Qed.

Lemma Pop_makes_room_witness :
  WaitIfFull (CacheStatic (mkCacheBase [] 1 4 sample_priority true)) 0%Z 1 = Returns true.
Proof.
  apply (Pop_makes_room 0%Z sample_heap
           (CacheStatic (mkCacheBase
              [mkPackage [sample_item 7 1 0] [mkTaskDesc 1 0] (-1)%Z 1]
              1 4 sample_priority true))
           single_popped (CacheStatic (mkCacheBase [] 1 4 sample_priority true)) []).
  - apply (reach_Push _ sample_heap (Start (CacheStatic_new 1 4 sample_priority))
             single_package true); [apply reach_Start, reach_new_static | done | reflexivity].
  - simpl. lia.
  - simpl. lia.
  - reflexivity.
Defined.

(** * Properties of the engine *)

Lemma Engine_cells_ext f g ps :
  (forall i, i < length ps -> f i = g i) -> Engine_cells f ps = Engine_cells g ps.
Proof.
  intros H. apply imap_ext. intros i p Hp. simpl.
  rewrite H; [done|]. by eapply lookup_lt_Some.
Qed.

Lemma Engine_cells_length f ps : length (Engine_cells f ps) = length ps.
Proof. apply length_imap. Qed.

Lemma Engine_cells_lookup f ps i :
  Engine_cells f ps !! i = (fun p => mkNodeCell p (f i)) <$> ps !! i.
Proof. unfold Engine_cells. by rewrite list_lookup_imap. Qed.

Lemma Engine_cells_unlinked ps :
  (fun p => mkNodeCell p None) <$> ps = Engine_cells (fun _ => None) ps.
Proof.
  apply list_eq. intros i. rewrite Engine_cells_lookup, list_lookup_fmap. done.
Qed.

Lemma Link_cells f ps idx down :
  Link (Engine_cells f ps) idx down
  = Engine_cells (fun i => if bool_decide (i = idx) then Some down else f i) ps.
Proof.
  apply list_eq. intros i. unfold Link.
  rewrite Engine_cells_lookup. destruct (decide (i = idx)) as [-> | Hne].
  - rewrite list_lookup_alter_eq, Engine_cells_lookup.
    rewrite bool_decide_eq_true_2 by done. by destruct (ps !! idx).
  - rewrite list_lookup_alter_ne by done. rewrite Engine_cells_lookup.
    by rewrite bool_decide_eq_false_2 by done.
Qed.

Lemma Engine_link_cells turns idx f ps :
  idx + turns < length ps ->
  Engine_link turns idx (Engine_cells f ps)
  = Some (Engine_cells
            (fun i => if bool_decide (idx <= i < idx + turns) then Some (S i) else f i) ps).
Proof.
  revert idx f. induction turns as [|turns IH]; intros idx f Hlen; simpl.
  - f_equal. apply Engine_cells_ext. intros i _.
    rewrite bool_decide_eq_false_2; [done | lia].
  - rewrite Engine_cells_length. rewrite bool_decide_eq_true_2 by lia.
    rewrite Link_cells, IH by lia. f_equal. apply Engine_cells_ext. intros i _.
    destruct (decide (i = idx)) as [-> | Hne].
    + rewrite bool_decide_eq_false_2 by lia. rewrite bool_decide_eq_true_2 by done.
      rewrite bool_decide_eq_true_2 by lia. f_equal. lia.
    + rewrite (bool_decide_eq_false_2 (i = idx)) by done.
      destruct (decide (idx <= i < idx + S turns)).
      * rewrite !bool_decide_eq_true_2; [done | lia | lia].
      * rewrite !bool_decide_eq_false_2; [done | lia | lia].
Qed.

Lemma size_minus_1_eq size :
  1 <= size -> (Z.of_nat size < 2 ^ 64)%Z -> size_minus_1 size = size - 1.
Proof.
  intros H1 H2. unfold size_minus_1. rewrite Z.mod_small by lia. lia.
Qed.

(** The loop links a vector whose last node has no link into a line. *)
Lemma Engine_link_line f ps :
  ps <> [] ->
  (Z.of_nat (length ps) < 2 ^ 64)%Z ->
  f (length ps - 1) = None ->
  Engine_link (size_minus_1 (length (Engine_cells f ps))) 0 (Engine_cells f ps)
  = Some (Engine_cells (line_link (length ps)) ps).
Proof.
  intros Hne Hsize Hlast.
  assert (1 <= length ps) by (destruct ps; [done | simpl; lia]).
  rewrite Engine_cells_length, size_minus_1_eq by done.
  rewrite Engine_link_cells by lia. f_equal. apply Engine_cells_ext. intros i Hi.
  unfold line_link. destruct (decide (S i < length ps)).
  - rewrite !bool_decide_eq_true_2; [done | lia | lia].
  - rewrite !bool_decide_eq_false_2; [|lia|lia].
    by assert (i = length ps - 1) as -> by lia.
Qed.

Lemma Engine_node_S fuel nodes idx :
  Engine_node (S fuel) nodes idx
  = c ← nodes !! idx;
    match cell_downnode c with
    | None => Some (TailNode (cell_processor c))
    | Some down => LinkedNode (cell_processor c) <$> Engine_node fuel nodes down
    end.
Proof. done. Qed.

Lemma Engine_node_line pre p rest :
  Engine_node (S (length rest))
              (Engine_cells (line_link (length (pre ++ p :: rest))) (pre ++ p :: rest))
              (length pre)
  = Some (Engine_chain p rest).
Proof.
  revert pre p. induction rest as [|q rest IH]; intros pre p.
  - rewrite Engine_node_S, Engine_cells_lookup.
    rewrite list_lookup_middle by done. simpl. unfold line_link.
    rewrite bool_decide_eq_false_2; [done|]. rewrite length_app. simpl. lia.
  - rewrite Engine_node_S, Engine_cells_lookup.
    rewrite list_lookup_middle by done.
    assert (Hl : length (pre ++ [p]) = S (length pre))
      by (rewrite length_app; simpl; lia).
    specialize (IH (pre ++ [p]) q). rewrite <- (assoc_L (++)), Hl in IH.
    cbn [app] in IH.
    cbn [fmap option_fmap option_map mbind option_bind cell_downnode cell_processor].
    unfold line_link at 1.
    rewrite bool_decide_eq_true_2 by (rewrite length_app; simpl; lia).
    cbn [length]. by rewrite IH.
Qed.

Lemma Engine_new_cells_line p rest :
  (Z.of_nat (length (p :: rest)) < 2 ^ 64)%Z ->
  exists nodes,
    Engine_new (p :: rest) = Returns nodes /\
    nodes = Engine_cells (line_link (length (p :: rest))) (p :: rest).
Proof.
  intros Hsize. unfold Engine_new. rewrite Engine_cells_unlinked.
  rewrite Engine_link_line by done. by eexists.
Qed.

(** X13. The constructor of Engine, given one processor at least, builds
    a node for every processor and links them into a line in the order of
    the processors: behind the head node come the nodes of the other
    processors, and the last one is the tail. *)
Theorem Engine_new_links (p : Processor) (rest : list Processor) :
  (Z.of_nat (length (p :: rest)) < 2 ^ 64)%Z ->
  exists nodes,
    Engine_new (p :: rest) = Returns nodes /\
    length nodes = length (p :: rest) /\
    Engine_node (length nodes) nodes 0 = Some (Engine_chain p rest).
Proof.
  intros Hsize. unfold Engine_new. rewrite Engine_cells_unlinked.
  rewrite Engine_link_line by done.
  eexists. split; [reflexivity|]. rewrite Engine_cells_length. split; [done|].
  apply (Engine_node_line [] p rest).
Qed.

Lemma Engine_new_links_witness :
  exists nodes,
    Engine_new [sample_processor "Preproc"; sample_processor "Predict";
                sample_processor "Postproc"] = Returns nodes /\
    length nodes = 3 /\
    Engine_node (length nodes) nodes 0
    = Some (LinkedNode (sample_processor "Preproc")
              (LinkedNode (sample_processor "Predict")
                 (TailNode (sample_processor "Postproc")))).
Proof.
  apply (Engine_new_links (sample_processor "Preproc")
           [sample_processor "Predict"; sample_processor "Postproc"]).
  simpl. lia.
Defined.

(** X14. The constructor of Engine has no defined result exactly when it
    is given no processor: the bound [nodes_.size() - 1] of its second loop
    wraps around, and the first turn indexes an empty vector. *)
Theorem Engine_new_undefined_iff_empty (processors : list Processor) :
  (Z.of_nat (length processors) < 2 ^ 64)%Z ->
  Engine_new processors = Undefined <-> processors = [].
Proof.
  intros Hsize. split.
  - destruct processors as [|p rest]; [done|].
    destruct (Engine_new_cells_line p rest Hsize) as [nodes [-> _]]. done.
  - intros ->. unfold Engine_new.
    change (length ((fun p => mkNodeCell p None) <$> [])) with 0.
    assert (Hm : size_minus_1 0 = S (Z.to_nat (2 ^ 64 - 2))).
    { unfold size_minus_1.
      assert (((Z.of_nat 0 - 1) mod 2 ^ 64)%Z = (2 ^ 64 - 1)%Z) as -> by reflexivity.
      lia. }
    by rewrite Hm.
Qed.

Lemma Engine_new_undefined_iff_empty_witness :
  Engine_new [] = Undefined.
Proof.
  destruct (Engine_new_undefined_iff_empty []) as [_ H]; [simpl; lia|].
  by apply H.
Defined.

Lemma TaskNode_Fork_cells fork keep f ps :
  TaskNode_Fork fork keep <$> Engine_cells f ps
  = Engine_cells (fun i => if keep then f i else None) (fork <$> ps).
Proof.
  apply list_eq. intros i.
  rewrite list_lookup_fmap, !Engine_cells_lookup, list_lookup_fmap.
  by destruct (ps !! i).
Qed.

(** X15. [Fork] of an engine that the constructor built gives an engine
    with the same line of nodes, over the clones of the processors, whether
    or not a forked node starts with the link of the node it was forked
    from: the loop of [Fork] sets every link but that of the tail, and the
    tail of the old engine has none. *)
Theorem Engine_Fork_links (Processor_Fork : Processor -> Processor) (keep_link : bool)
    (p : Processor) (rest : list Processor) (nodes : list NodeCell) :
  (Z.of_nat (length (p :: rest)) < 2 ^ 64)%Z ->
  Engine_new (p :: rest) = Returns nodes ->
  exists forked,
    Engine_Fork Processor_Fork keep_link nodes = Returns forked /\
    length forked = length nodes /\
    Engine_node (length forked) forked 0
    = Some (Engine_chain (Processor_Fork p) (Processor_Fork <$> rest)).
Proof.
  intros Hsize HE.
  destruct (Engine_new_cells_line p rest Hsize) as (nodes' & HE' & Hn).
  rewrite HE in HE'. injection HE' as <-. subst nodes.
  unfold Engine_Fork. rewrite TaskNode_Fork_cells.
  rewrite Engine_link_line.
  - eexists. split; [reflexivity|].
    rewrite !Engine_cells_length, length_fmap. split; [done|].
    pose proof (Engine_node_line [] (Processor_Fork p) (Processor_Fork <$> rest)) as H.
    cbn [app length] in H. rewrite length_fmap in H. exact H.
  - done.
  - by rewrite length_fmap.
  - rewrite length_fmap. unfold line_link.
    rewrite bool_decide_eq_false_2; [by destruct keep_link|]. simpl. lia.
Qed.

Lemma Engine_Fork_links_witness :
  exists forked,
    Engine_Fork (fun p => mkProcessor (TypeName p +:+ "'") (Process p)) true
                [mkNodeCell (sample_processor "Preproc") (Some 1);
                 mkNodeCell (sample_processor "Postproc") None] = Returns forked /\
    length forked = 2 /\
    Engine_node (length forked) forked 0
    = Some (LinkedNode (mkProcessor "Preproc'" (Process (sample_processor "Preproc")))
              (TailNode (mkProcessor "Postproc'" (Process (sample_processor "Postproc"))))).
Proof.
  apply (Engine_Fork_links (fun p => mkProcessor (TypeName p +:+ "'") (Process p)) true
           (sample_processor "Preproc") [sample_processor "Postproc"]).
  - simpl. lia.
  - reflexivity.
Defined.

(** ** A package on its way through the stages *)

Lemma ThreadPool_run_reports Next fuel evs :
  Forall (fun ev => forall prio node pack, ev <> EvVoidPush prio node pack) evs ->
  mapM (ThreadPool_run Next fuel) evs = Some ((fun ev => [ev]) <$> evs).
Proof.
  intros H. apply mapM_Some_2. apply Forall2_fmap_r, Forall_Forall2_diag.
  eapply Forall_impl; [exact H|]. intros ev Hev.
  destruct ev; try (by destruct fuel). by destruct (Hev prio node pack).
Qed.

Lemma concat_singletons {A} (l : list A) : concat ((fun x => [x]) <$> l) = l.
Proof. induction l; simpl; by f_equal. Qed.

Lemma ThreadPool_run_S Next fuel prio node pack :
  ThreadPool_run Next (S fuel) (EvVoidPush prio node pack)
  = evs ← TaskNode_call Next node pack;
    evss ← mapM (ThreadPool_run Next fuel) evs;
    Some (concat evss).
Proof. done. Qed.

Lemma done_reports_no_push pack :
  Forall (fun ev => forall prio node pack, ev <> EvVoidPush prio node pack)
         (done_reports pack).
Proof.
  unfold done_reports. apply Forall_app. split; [|by repeat constructor].
  apply Forall_forall. intros ev Hin prio node pk ->.
  apply elem_of_lookup_zip_with in Hin as (i & d & it & Heq & _). done.
Qed.

Lemma failed_reports_no_push s pack :
  Forall (fun ev => forall prio node pack, ev <> EvVoidPush prio node pack)
         (failed_reports s pack).
Proof.
  unfold failed_reports. apply Forall_fmap, Forall_forall. by intros d _ prio node pk.
Qed.

(** X16. A package handed to the thread pool for the head of a line of
    nodes goes from stage to stage, each stage running on the priority of
    the next tier, until a processor fails or the tail is done. When every
    processor returned SUCCESS, the tail reports [ProcessDone] once for
    every desc, in order, and the done notifier is called once. When a
    processor fails, its node reports [ProcessFailed] with the status of
    that processor once for every desc; the later stages do not run, and
    the done notifier is not called. *)
Theorem Engine_run_outcome (Next : Z -> Z) (n : TaskNode) (pack : Package) (prio : Z)
    (fuel : nat) :
  TaskNode_depth n < fuel ->
  ((Engine_flow Next n pack).1 = SUCCESS ->
   length (descs (Engine_flow Next n pack).2) <= length (data (Engine_flow Next n pack).2)) ->
  ThreadPool_run Next fuel (EvVoidPush prio n pack)
  = Some (if bool_decide ((Engine_flow Next n pack).1 = SUCCESS)
          then done_reports (Engine_flow Next n pack).2
          else failed_reports (Engine_flow Next n pack).1 (Engine_flow Next n pack).2).
Proof.
  revert pack prio fuel. induction n as [p | p down IH]; intros pack prio fuel Hfuel Hlen;
    (destruct fuel as [|fuel]; [simpl in Hfuel; lia|]);
    rewrite ThreadPool_run_S; unfold TaskNode_call; simpl in *;
    destruct (Process p pack) as [s pack'] eqn:HP; simpl in *.
  - destruct (decide (s = SUCCESS)) as [-> | Hs].
    + rewrite bool_decide_eq_false_2 by (intros H; by apply H).
      rewrite bool_decide_eq_true_2 by done.
      unfold Transmit. simpl. rewrite mapM_ProcessDone_at by auto. simpl.
      fold (done_reports pack').
      rewrite (ThreadPool_run_reports _ _ _ (done_reports_no_push pack')). simpl.
      by rewrite concat_singletons.
    + rewrite bool_decide_eq_true_2 by done. rewrite bool_decide_eq_false_2 by done.
      simpl. fold (failed_reports s pack').
      rewrite (ThreadPool_run_reports _ _ _ (failed_reports_no_push s pack')). simpl.
      by rewrite concat_singletons.
  - destruct (decide (s = SUCCESS)) as [-> | Hs].
    + rewrite bool_decide_eq_false_2 by (intros H; by apply H).
      rewrite bool_decide_eq_false_2 in Hlen by (intros H; by apply H).
      unfold Transmit. simpl. rewrite IH; [|lia|done].
      simpl. by rewrite (right_id_L [] (++)).
    + rewrite bool_decide_eq_true_2 by done. rewrite bool_decide_eq_true_2 in Hlen by done.
      simpl. rewrite bool_decide_eq_false_2 by done.
      fold (failed_reports s pack').
      rewrite (ThreadPool_run_reports _ _ _ (failed_reports_no_push s pack')). simpl.
      by rewrite concat_singletons.
Qed.

Lemma Engine_run_outcome_witness :
  ThreadPool_run Z.succ 2
    (EvVoidPush 0 (LinkedNode (sample_processor "Preproc") (TailNode picky_processor))
                mixed_popped)
  = Some [EvProcessFailed 0 ERROR_BACKEND; EvProcessFailed 1 ERROR_BACKEND].
Proof.
  apply (Engine_run_outcome Z.succ
           (LinkedNode (sample_processor "Preproc") (TailNode picky_processor))
           mixed_popped 0%Z 2).
  - simpl. lia.
  - simpl. discriminate.
Defined.

(** * More properties of the facade *)

(** [Executor_t] and [Session_t] are [nat]: unfold them before closing a
    goal by congruence. *)
Ltac ptr_congruence := unfold Executor_t, Session_t in *; congruence.

(** ** The objects of a server hang together *)

Lemma server_wf_empty tp dev next :
  server_wf (mkInferServerPrivate ∅ tp dev ∅ ∅ next).
Proof. split; simpl; intros *; rewrite ?lookup_empty; done. Qed.

Lemma CreateSession_wf ctor_ok cores dpost priv desc observer r priv' :
  CreateSession ctor_ok cores dpost priv desc observer = Returns (r, priv') ->
  server_wf priv -> server_wf priv'.
Proof.
  unfold CreateSession.
  destruct (model desc) as [m|] eqn:Hm; [|done].
  destruct (preproc desc) as [pre|] eqn:Hpre; [|done].
  set (desc' := match postproc desc with
                | None => set_postproc desc (Some dpost) | Some _ => desc end).
  assert (Hm' : model desc' = Some m) by (subst desc'; by destruct (postproc desc)).
  assert (Hpre' : preproc desc' = Some pre) by (subst desc'; by destruct (postproc desc)).
  assert (Hpost' : is_Some (postproc desc')) by (subst desc'; by destruct (postproc desc) eqn:E; simpl; eauto).
  destruct Hpost' as [post Hpost'].
  unfold CreateExecutor. rewrite Hm', Hpre', Hpost'.
  set (nm := executor_name_of m pre post).
  destruct (executor_map_ priv !! nm) as [e|] eqn:Hmap.
  - intros H [Wm We Wl Ws]. unfold Executor_t, Session_t in *.
    destruct (Wm _ _ Hmap) as (ex & Hex & Hname). rewrite Hex in H.
    injection H as <- <-.
    destruct (We _ _ Hex) as (Hreg & Hne & Hnd & Hlt).
    assert (Hfresh : next_ptr priv ∉ link_set ex).
    { intros Hin. apply (Wl _ _ _ Hex) in Hin as (sess & Hs & _).
      apply Ws in Hs as [Hs _]. lia. }
    split; simpl.
    + intros nm0 e0 H0. destruct (Wm _ _ H0) as (ex0 & Hex0 & Hn0).
      destruct (decide (e0 = e)) as [-> | Hne0].
      * rewrite lookup_insert_eq. eexists. split; [done|]. rewrite Hex in Hex0.
        by injection Hex0 as <-.
      * rewrite lookup_insert_ne by done. eauto.
    + intros e0 ex0. destruct (decide (e0 = e)) as [-> | Hne0].
      * rewrite lookup_insert_eq. intros [= <-]. simpl. split_and!.
        -- done.
        -- by destruct (link_set ex).
        -- apply NoDup_app. split_and!; [done | | apply NoDup_singleton].
           intros x Hx ->%list_elem_of_singleton. done.
        -- lia.
      * rewrite lookup_insert_ne by done. intros H0.
        destruct (We _ _ H0) as (? & ? & ? & ?). split_and!; try done. lia.
    + intros e0 ex0 s0. destruct (decide (e0 = e)) as [-> | Hne0].
      * rewrite lookup_insert_eq. intros [= <-]. simpl.
        rewrite elem_of_app, list_elem_of_singleton, (Wl _ _ s0 Hex).
        destruct (decide (s0 = next_ptr priv)) as [-> | Hns].
        -- rewrite lookup_insert_eq. split; [eauto|]. by right.
        -- rewrite lookup_insert_ne by done. naive_solver.
      * rewrite lookup_insert_ne by done. intros H0. rewrite (Wl _ _ s0 H0).
        destruct (decide (s0 = next_ptr priv)) as [-> | Hns].
        -- rewrite lookup_insert_eq. split.
           ++ intros (sess & Hs & _). apply Ws in Hs as [Hs _]. lia.
           ++ intros (sess & [= <-] & Hx). simpl in Hx. ptr_congruence.
        -- by rewrite lookup_insert_ne by done.
    + intros s0 sess. destruct (decide (s0 = next_ptr priv)) as [-> | Hns].
      * rewrite lookup_insert_eq. intros [= <-]. simpl. split; [lia|].
        rewrite lookup_insert_eq. eauto.
      * rewrite lookup_insert_ne by done. intros H0.
        destruct (Ws _ _ H0) as [? [ex0 Hx]]. split; [lia|].
        destruct (decide (GetExecutor sess = e)) as [-> | ?].
        -- rewrite lookup_insert_eq. eauto.
        -- rewrite lookup_insert_ne by done. eauto.
  - destruct (ctor_ok desc'); [|by intros [= <- <-]].
    simpl. rewrite lookup_insert_eq. intros H [Wm We Wl Ws]. injection H as <- <-.
    unfold Executor_t, Session_t in *.
    remember (next_ptr priv) as e eqn:He. remember (S e) as s eqn:Hse.
    assert (Hfe : executors priv !! e = None).
    { destruct (executors priv !! e) as [ex|] eqn:E; [|done].
      destruct (We _ _ E) as (_ & _ & _ & ?). lia. }
    split; simpl.
    + intros nm0 e0. destruct (decide (nm0 = nm)) as [-> | Hnn].
      * rewrite lookup_insert_eq. intros [= <-]. rewrite lookup_insert_eq.
        eexists. split; [done|]. done.
      * rewrite lookup_insert_ne by done. intros H0.
        destruct (Wm _ _ H0) as (ex0 & Hex0 & Hn0).
        assert (e0 <> e) by ptr_congruence.
        rewrite insert_insert_eq, lookup_insert_ne by done. eauto.
    + intros e0 ex0. rewrite insert_insert_eq.
      destruct (decide (e0 = e)) as [-> | Hne0].
      * rewrite lookup_insert_eq. intros [= <-]. simpl.
        unfold GetName. simpl. rewrite lookup_insert_eq.
        split_and!; [done | done | apply NoDup_singleton | lia].
      * rewrite lookup_insert_ne by done. intros H0.
        destruct (We _ _ H0) as (Hreg & ? & ? & ?).
        rewrite lookup_insert_ne by ptr_congruence.
        split_and!; try done. lia.
    + intros e0 ex0 s0. rewrite insert_insert_eq.
      destruct (decide (e0 = e)) as [-> | Hne0].
      * rewrite lookup_insert_eq. intros [= <-]. simpl.
        rewrite list_elem_of_singleton.
        destruct (decide (s0 = s)) as [-> | Hns].
        -- rewrite lookup_insert_eq. split; [eauto|done].
        -- rewrite lookup_insert_ne by done. split; [done|].
           intros (sess & Hs & Hx). apply Ws in Hs as [_ [ex0 Hx0]].
           rewrite Hx in Hx0. ptr_congruence.
      * rewrite lookup_insert_ne by done. intros H0. rewrite (Wl _ _ s0 H0).
        destruct (decide (s0 = s)) as [-> | Hns].
        -- rewrite lookup_insert_eq. split.
           ++ intros (sess & Hs0 & _). apply Ws in Hs0 as [Hs0 _]. lia.
           ++ intros (sess & [= <-] & Hx). simpl in Hx. ptr_congruence.
        -- by rewrite lookup_insert_ne by done.
    + intros s0 sess. rewrite insert_insert_eq.
      destruct (decide (s0 = s)) as [-> | Hns].
      * rewrite lookup_insert_eq. intros [= <-]. simpl. split; [lia|].
        rewrite lookup_insert_eq. eauto.
      * rewrite lookup_insert_ne by done. intros H0.
        destruct (Ws _ _ H0) as [? [ex0 Hx]]. split; [lia|].
        rewrite lookup_insert_ne; [eauto|]. ptr_congruence.
Qed.

Lemma Unlink_last ex s :
  NoDup (link_set ex) -> s ∈ link_set ex ->
  (link_set (Unlink ex s) = [] <-> link_set ex = [s]).
Proof.
  unfold Unlink. cbn [link_set]. generalize (link_set ex). clear ex.
  unfold Session_t. intros l Hnd Hin. split.
  - intros Hf. destruct l as [|x l]; [by apply elem_of_nil in Hin|].
    assert (Hx : x = s).
    { destruct (decide (x = s)) as [|Hne]; [done|].
      rewrite filter_cons_True in Hf by done. done. }
    subst x. f_equal. destruct l as [|y l]; [done|].
    apply NoDup_cons in Hnd as [Hs Hnd].
    assert (y <> s) by (intros ->; apply Hs; by left).
    rewrite filter_cons_False in Hf by (intros E; by apply E).
    rewrite filter_cons_True in Hf by done. done.
  - intros ->. rewrite filter_cons_False by (intros E; by apply E). done.
Qed.

Lemma DestroySession_wf_live th priv session sess idle :
  server_wf priv ->
  sessions priv !! session = Some sess ->
  exists priv' ex,
    executors priv !! GetExecutor sess = Some ex /\
    session ∈ link_set ex /\
    DestroySession th priv (Some session) idle = Returns (true, priv') /\
    sessions priv' = delete session (sessions priv) /\
    next_ptr priv' = next_ptr priv /\
    (if decide (link_set ex = [session])
     then executor_map_ priv' = delete (GetName ex) (executor_map_ priv) /\
          executors priv' = delete (GetExecutor sess) (executors priv)
     else executor_map_ priv' = executor_map_ priv /\
          executors priv' = <[GetExecutor sess := Unlink ex session]> (executors priv) /\
          tp_size priv' = tp_size priv) /\
    server_wf priv'.
Proof.
  intros [Wm We Wl Ws] Hs. unfold Executor_t, Session_t in *.
  destruct (Ws _ _ Hs) as [Hlt [ex Hex]].
  destruct (We _ _ Hex) as (Hreg & Hne & Hnd & Hlte).
  assert (Hin : session ∈ link_set ex) by (apply (Wl _ _ _ Hex); eauto).
  remember (GetExecutor sess) as e eqn:He.
  unfold DestroySession, ExistExecutor, CheckAndDestroyExecutor, GetSessionNum.
  unfold Executor_t, Session_t in *.
  rewrite Hs. cbn zeta. rewrite <- He, Hex. rewrite Hreg.
  rewrite bool_decide_eq_true_2 by eauto.
  change (GetName (Unlink ex session)) with (GetName ex).
  rewrite Hreg. rewrite bool_decide_eq_true_2 by eauto.
  pose proof (Unlink_last _ _ Hnd Hin) as Hlast.
  match goal with
  | |- context [length ?l =? 0] => change l with (link_set (Unlink ex session))
  end.
  destruct (decide (link_set ex = [session])) as [Hl | Hl].
  - assert (Hf : link_set (Unlink ex session) = []) by (by apply Hlast).
    rewrite Hf. simpl. eexists _, ex.
    split_and!; [done | done | reflexivity | done | done | by rewrite decide_True by done |].
    split; simpl; unfold Executor_t, Session_t in *.
    + intros nm0 e0 H0. apply lookup_delete_Some in H0 as [Hn0 H0].
      destruct (Wm _ _ H0) as (ex0 & Hex0 & Hname0). exists ex0. split; [|done].
      rewrite lookup_delete_ne; [done|]. intros <-. ptr_congruence.
    + intros e0 ex0 H0. apply lookup_delete_Some in H0 as [Hn0 H0].
      destruct (We _ _ H0) as (Hreg0 & ? & ? & ?). split_and!; try done.
      rewrite lookup_delete_ne; [done|]. intros E. rewrite E in Hreg. ptr_congruence.
    + intros e0 ex0 s0 H0. apply lookup_delete_Some in H0 as [Hn0 H0].
      rewrite (Wl _ _ s0 H0). split.
      * intros (sess0 & Hs0 & Hx0). exists sess0. split; [|done].
        rewrite lookup_delete_ne; [done|]. intros <-. ptr_congruence.
      * intros (sess0 & Hs0 & Hx0). apply lookup_delete_Some in Hs0 as [_ Hs0]. eauto.
    + intros s0 sess0 H0. apply lookup_delete_Some in H0 as [Hn0 H0].
      destruct (Ws _ _ H0) as [? [ex0 Hx0]]. split; [done|].
      rewrite lookup_delete_ne; [eauto|]. intros E.
      assert (s0 ∈ link_set ex) by (apply (Wl _ _ _ Hex); eauto).
      rewrite Hl in H1. apply list_elem_of_singleton in H1. done.
  - assert (Hf : link_set (Unlink ex session) <> [])
      by (intros E; by apply Hl, Hlast).
    destruct (link_set (Unlink ex session)) as [|y l] eqn:Hfl; [done|].
    simpl. eexists _, ex.
    split_and!; [done | done | reflexivity | done | done | by rewrite decide_False by done |].
    split; simpl; unfold Executor_t, Session_t in *.
    + intros nm0 e0 H0. destruct (Wm _ _ H0) as (ex0 & Hex0 & Hname0).
      destruct (decide (e0 = e)) as [-> | Hn0].
      * rewrite lookup_insert_eq. eexists. split; [done|].
        change (GetName (Unlink ex session)) with (GetName ex). ptr_congruence.
      * rewrite lookup_insert_ne by done. eauto.
    + intros e0 ex0. destruct (decide (e0 = e)) as [-> | Hn0].
      * rewrite lookup_insert_eq. intros [= <-]. split_and!; try done.
        -- rewrite Hfl. done.
        -- unfold Unlink. cbn [link_set]. by apply NoDup_filter.
      * rewrite lookup_insert_ne by done. intros H0. by apply We.
    + intros e0 ex0 s0. destruct (decide (e0 = e)) as [-> | Hn0].
      * rewrite lookup_insert_eq. intros [= <-]. unfold Unlink. cbn [link_set].
        rewrite list_elem_of_filter, (Wl _ _ s0 Hex). split.
        -- intros (Hn & sess0 & Hs0 & Hx0). exists sess0.
           by rewrite lookup_delete_ne by done.
        -- intros (sess0 & Hs0 & Hx0). apply lookup_delete_Some in Hs0 as [? ?]. eauto.
      * rewrite lookup_insert_ne by done. intros H0. rewrite (Wl _ _ s0 H0). split.
        -- intros (sess0 & Hs0 & Hx0). exists sess0. split; [|done].
           rewrite lookup_delete_ne; [done|]. intros <-. ptr_congruence.
        -- intros (sess0 & Hs0 & Hx0). apply lookup_delete_Some in Hs0 as [_ Hs0]. eauto.
    + intros s0 sess0 H0. apply lookup_delete_Some in H0 as [Hn0 H0].
      destruct (Ws _ _ H0) as [? [ex0 Hx0]]. split; [done|].
      destruct (decide (GetExecutor sess0 = e)) as [-> | ?].
      * rewrite lookup_insert_eq. eauto.
      * rewrite lookup_insert_ne by done. eauto.
Qed.

(** ** Destroying a session *)

(** X17. On a server whose objects hang together, [DestroySession] of a
    live session returns true: no [CHECK] fails and no dangling pointer is
    read. The session is deleted; its Executor is destroyed exactly when no
    other session is linked to it, and the objects of the server still hang
    together. A second [DestroySession] of the same pointer reads a deleted
    object. *)
Theorem DestroySession_live_session (th_num : Executor -> N) (priv : InferServerPrivate)
    (session : Session_t) (sess : Session) (IdleNumber IdleNumber' : Z) :
  server_wf priv ->
  sessions priv !! session = Some sess ->
  exists priv',
    DestroySession th_num priv (Some session) IdleNumber = Returns (true, priv') /\
    sessions priv' = delete session (sessions priv) /\
    (is_Some (executors priv' !! GetExecutor sess) <->
     exists s' sess', s' <> session /\ sessions priv !! s' = Some sess' /\
                      GetExecutor sess' = GetExecutor sess) /\
    server_wf priv' /\
    DestroySession th_num priv' (Some session) IdleNumber' = Undefined.
Proof.
  intros Hwf Hs.
  destruct (DestroySession_wf_live th_num priv session sess IdleNumber Hwf Hs)
    as (priv' & ex & Hex & Hin & HD & Hss & _ & Hcase & Hwf').
  exists priv'. split_and!; [done | done | | done |].
  - destruct Hwf as [_ We Wl _]. destruct (We _ _ Hex) as (_ & _ & Hnd & _).
    pose proof (Unlink_last _ _ Hnd Hin) as Hlast.
    destruct (decide (link_set ex = [session])) as [Hl | Hl].
    + destruct Hcase as [_ ->]. rewrite lookup_delete_eq. split; [by intros [? ?]|].
      intros (s' & sess' & Hne & Hs' & He').
      assert (Hin' : s' ∈ link_set ex) by (apply (Wl _ _ _ Hex); eauto).
      rewrite Hl in Hin'. by apply list_elem_of_singleton in Hin'.
    + destruct Hcase as (_ & -> & _). rewrite lookup_insert_eq. split; [|eauto].
      intros _. destruct (link_set (Unlink ex session)) as [|y l] eqn:Hfl.
      { destruct Hl. by apply Hlast. }
      assert (Hy : y ∈ link_set (Unlink ex session)) by (rewrite Hfl; by left).
      unfold Unlink in Hy. cbn [link_set] in Hy.
      apply list_elem_of_filter in Hy as [Hne Hy].
      apply (Wl _ _ _ Hex) in Hy as (sess' & Hs' & He'). eauto.
  - unfold DestroySession. rewrite Hss.
    unfold Session_t. by rewrite lookup_delete_eq.
Qed.

Lemma linked_server_wf : server_wf linked_server.
Proof.
  apply (CreateSession_wf (fun _ => true) 4 (sample_processor "Postprocessor")
           fresh_server sample_desc None (Some 1) linked_server).
  - vm_compute. reflexivity.
  - apply server_wf_empty.
Qed.

Lemma DestroySession_live_session_witness :
  exists priv',
    DestroySession (fun _ => 4%N) linked_server (Some 1) 5 = Returns (true, priv') /\
    sessions priv' = delete 1 (sessions linked_server) /\
    (is_Some (executors priv' !! GetExecutor (mkSession "session" 0 true false None)) <->
     exists s' sess', s' <> 1 /\ sessions linked_server !! s' = Some sess' /\
                      GetExecutor sess' = GetExecutor (mkSession "session" 0 true false None)) /\
    server_wf priv' /\
    DestroySession (fun _ => 4%N) priv' (Some 1) 0 = Undefined.
Proof.
  apply (DestroySession_live_session (fun _ => 4%N) linked_server 1
           (mkSession "session" 0 true false None) 5 0).
  - apply linked_server_wf.
  - reflexivity.
Defined.


Lemma Unlink_Link d l s :
  s ∉ l -> Unlink (mkExecutor d (l ++ [s])) s = mkExecutor d l.
Proof.
  intros Hn. unfold Unlink. cbn [executor_desc link_set]. f_equal.
  rewrite filter_app, filter_cons_False by (intros E; by apply E).
  rewrite filter_nil, (right_id_L [] (++)).
  induction l as [|x l IH]; [done|].
  apply not_elem_of_cons in Hn as [Hx Hl].
  rewrite filter_cons_True by done. by rewrite IH.
Qed.

Lemma CreateSession_shape ctor_ok cores dpost priv desc observer s priv1 :
  server_wf priv ->
  CreateSession ctor_ok cores dpost priv desc observer = Returns (Some s, priv1) ->
  exists sess e ex1,
    sessions priv !! s = None /\
    sessions priv1 = <[s := sess]> (sessions priv) /\
    GetExecutor sess = e /\
    executors priv1 = <[e := ex1]> (executors priv) /\
    ((executor_map_ priv1 = executor_map_ priv /\
      exists ex, executors priv !! e = Some ex /\
        ex1 = mkExecutor (executor_desc ex) (link_set ex ++ [s]) /\
        (s ∉ link_set ex) /\ link_set ex <> []) \/
     (executors priv !! e = None /\
      executor_map_ priv !! GetName ex1 = None /\
      executor_map_ priv1 = <[GetName ex1 := e]> (executor_map_ priv) /\
      link_set ex1 = [s])).
Proof.
  intros [Wm We Wl Ws]. unfold CreateSession.
  destruct (model desc) as [m|] eqn:Hm; [|done].
  destruct (preproc desc) as [pre|] eqn:Hpre; [|done].
  set (desc' := match postproc desc with
                | None => set_postproc desc (Some dpost) | Some _ => desc end).
  assert (Hm' : model desc' = Some m) by (subst desc'; by destruct (postproc desc)).
  assert (Hpre' : preproc desc' = Some pre) by (subst desc'; by destruct (postproc desc)).
  assert (Hpost' : is_Some (postproc desc'))
    by (subst desc'; by destruct (postproc desc) eqn:E; simpl; eauto).
  destruct Hpost' as [post Hpost'].
  unfold CreateExecutor. rewrite Hm', Hpre', Hpost'.
  set (nm := executor_name_of m pre post).
  assert (Hfs : forall p, next_ptr priv <= p -> sessions priv !! p = None).
  { intros p Hp. destruct (sessions priv !! p) as [x|] eqn:E; [|done].
    apply Ws in E as [E _]. lia. }
  destruct (executor_map_ priv !! nm) as [e|] eqn:Hmap.
  - destruct (Wm _ _ Hmap) as (ex & Hex & Hname). rewrite Hex.
    intros [= <- <-]. simpl.
    destruct (We _ _ Hex) as (Hreg & Hne & Hnd & Hlt).
    eexists _, e, _. split_and!; [by apply Hfs | done | done | done |].
    left. split; [done|]. exists ex. split_and!; try done.
    intros Hin. apply (Wl _ _ _ Hex) in Hin as (sess & Hs & _).
    apply Ws in Hs as [Hs _]. lia.
  - destruct (ctor_ok desc'); [|done].
    simpl. rewrite lookup_insert_eq. intros [= <- <-]. simpl.
    eexists _, (next_ptr priv), _.
    split_and!; [apply Hfs; lia | done | done | by rewrite insert_insert_eq |].
    right. simpl. split_and!; try done.
    destruct (executors priv !! next_ptr priv) as [x|] eqn:E; [|done].
    apply We in E as (_ & _ & _ & E). lia.
Qed.

(** X18. [CreateSession] followed by [DestroySession] of the session it
    returned leaves the executor map, the Executor objects and the sessions
    of the server as they were, whether the session got an Executor of its
    own or shared one. *)
Theorem CreateSession_DestroySession_round_trip (ctor_ok : SessionDesc -> bool) (cores : N)
    (dpost : Processor) (th_num : Executor -> N) (priv priv1 : InferServerPrivate)
    (desc : SessionDesc) (observer : option nat) (session : Session_t) (IdleNumber : Z) :
  server_wf priv ->
  CreateSession ctor_ok cores dpost priv desc observer = Returns (Some session, priv1) ->
  exists priv2,
    DestroySession th_num priv1 (Some session) IdleNumber = Returns (true, priv2) /\
    executor_map_ priv2 = executor_map_ priv /\
    executors priv2 = executors priv /\
    sessions priv2 = sessions priv.
Proof.
  intros Hwf HC.
  pose proof (CreateSession_wf _ _ _ _ _ _ _ _ HC Hwf) as Hwf1.
  destruct (CreateSession_shape _ _ _ _ _ _ _ _ Hwf HC)
    as (sess & e & ex1 & Hfresh & Hss & He & Hexs & Hcase).
  assert (Hs1 : sessions priv1 !! session = Some sess)
    by (rewrite Hss; apply lookup_insert_eq).
  destruct (DestroySession_wf_live th_num priv1 session sess IdleNumber Hwf1 Hs1)
    as (priv2 & ex & Hex & Hin & HD & Hss2 & _ & Hcase2 & _).
  exists priv2. split; [done|].
  rewrite He, Hexs in Hex. rewrite lookup_insert_eq in Hex. injection Hex as <-.
  rewrite He in Hcase2.
  assert (Hsess : sessions priv2 = sessions priv).
  { rewrite Hss2, Hss. by apply delete_insert_id. }
  destruct Hcase as [(Hmap & ex & Hex & -> & Hnotin & Hne) | (Hnone & Hmn & Hmap & Hl)].
  - cbn [link_set] in Hcase2.
    rewrite decide_False in Hcase2 by (destruct (link_set ex); [done | by destruct l]).
    destruct Hcase2 as (-> & -> & _). split_and!; [done | | done].
    rewrite Hexs, insert_insert_eq. apply insert_id. rewrite Hex. f_equal.
    rewrite Unlink_Link by done. by destruct ex.
  - rewrite decide_True in Hcase2 by done. destruct Hcase2 as [-> ->].
    split_and!; [| | done].
    + rewrite Hmap. by apply delete_insert_id.
    + rewrite Hexs. by apply delete_insert_id.
Qed.

Lemma CreateSession_DestroySession_round_trip_witness :
  exists priv2,
    DestroySession (fun _ => 4%N) linked_server (Some 1) 5 = Returns (true, priv2) /\
    executor_map_ priv2 = executor_map_ fresh_server /\
    executors priv2 = executors fresh_server /\
    sessions priv2 = sessions fresh_server.
Proof.
  apply (CreateSession_DestroySession_round_trip (fun _ => true) 4
           (sample_processor "Postprocessor") (fun _ => 4%N) fresh_server linked_server
           sample_desc None 1 5).
  - apply server_wf_empty.
  - vm_compute. reflexivity.
Defined.


(** ** The size of the thread pool *)

(** X19. [CreateSession] never shrinks the thread pool and never grows it
    beyond three threads per core of the host, unless it was larger already;
    the pool keeps its size when the session shares an Executor that
    exists. *)
Theorem CreateSession_pool_bounds (ctor_ok : SessionDesc -> bool) (cores : N)
    (dpost : Processor) (priv priv' : InferServerPrivate) (desc : SessionDesc)
    (observer : option nat) (r : option Session_t) :
  CreateSession ctor_ok cores dpost priv desc observer = Returns (r, priv') ->
  (tp_size priv <= tp_size priv' <= N.max (tp_size priv) (3 * cores))%N /\
  (executor_map_ priv' = executor_map_ priv -> tp_size priv' = tp_size priv).
Proof.
  unfold CreateSession.
  destruct (model desc) as [m|] eqn:Hm; [|done].
  destruct (preproc desc) as [pre|] eqn:Hpre; [|done]. simpl.
  set (desc' := match postproc desc with
                | None => set_postproc desc (Some dpost) | Some _ => desc end).
  assert (Hm' : model desc' = Some m) by (subst desc'; by destruct (postproc desc)).
  assert (Hpre' : preproc desc' = Some pre) by (subst desc'; by destruct (postproc desc)).
  assert (Hpost' : postproc desc' = Some (default dpost (postproc desc)))
    by (subst desc'; by destruct (postproc desc) eqn:E).
  unfold CreateExecutor. rewrite Hm', Hpre', Hpost'.
  set (nm := executor_name_of m pre (default dpost (postproc desc))).
  destruct (executor_map_ priv !! nm) as [e|] eqn:Hmap.
  - destruct (executors priv !! e); [|done]. intros [= <- <-]. simpl. split; [lia|done].
  - destruct (ctor_ok desc'); [|intros [= <- <-]; split; [lia | done]].
    simpl. rewrite lookup_insert_eq. intros [= <- <-]. simpl.
    split.
    2:{ intros Heq. apply (f_equal (fun mp => mp !! nm)) in Heq.
        rewrite lookup_insert_eq, Hmap in Heq. done. }
    destruct (tp_size priv <? 3 * cores)%N eqn:E.
    + apply N.ltb_lt in E.
      generalize ((3 * engine_num desc') mod 2 ^ 32)%N. intros grow. lia.
    + apply N.ltb_ge in E. lia.
Qed.

Lemma CreateSession_pool_bounds_witness :
  (tp_size fresh_server <= tp_size linked_server <= N.max (tp_size fresh_server) (3 * 4))%N /\
  (executor_map_ linked_server = executor_map_ fresh_server ->
   tp_size linked_server = tp_size fresh_server).
Proof.
  apply (CreateSession_pool_bounds (fun _ => true) 4 (sample_processor "Postprocessor")
           fresh_server linked_server sample_desc None (Some 1)).
  vm_compute. reflexivity.
Defined.


(** X20. [DestroySession] never grows the thread pool, and the pool it
    leaves has more threads than were busy: the pool shrinks only when more
    threads are idle than are taken away. [IdleNumber] is at most the size of
    the pool. *)
Theorem DestroySession_pool_bounds (th_num : Executor -> N) (priv priv' : InferServerPrivate)
    (session : option Session_t) (IdleNumber : Z) (r : bool) :
  (0 <= IdleNumber < 2 ^ 32)%Z ->
  (IdleNumber <= Z.of_N (tp_size priv))%Z ->
  (Z.of_N (tp_size priv) < 2 ^ 64)%Z ->
  DestroySession th_num priv session IdleNumber = Returns (r, priv') ->
  (tp_size priv' <= tp_size priv)%N /\
  (tp_size priv' = tp_size priv \/
   (Z.of_N (tp_size priv) - IdleNumber < Z.of_N (tp_size priv'))%Z).
Proof.
  intros Hidle Hle Hsize. unfold DestroySession.
  destruct session as [session|]; [|done].
  destruct (sessions priv !! session) as [sess|]; [|done].
  destruct (ExistExecutor priv (GetExecutor sess)) as [[]| | |]; try done;
    [|intros [= <- <-]; split; [lia | by left]].
  unfold CheckAndDestroyExecutor.
  destruct (executors priv !! GetExecutor sess) as [ex|]; [|done].
  destruct (sessions priv !! session); [|done].
  destruct (GetSessionNum (Unlink ex session) =? 0);
    [|intros [= <- <-]; split; [simpl; lia | by left]].
  destruct (bool_decide _); [|done].
  intros [= <- <-]. simpl.
  rewrite Z.mod_small by lia.
  destruct (th_num (Unlink ex session) <? Z.to_N IdleNumber)%N eqn:E.
  - apply N.ltb_lt in E. rewrite Z.mod_small by lia. split; [lia|]. right. lia.
  - split; [lia | by left].
Qed.

Lemma DestroySession_pool_bounds_witness :
  (tp_size destroyed_server <= tp_size linked_server)%N /\
  (tp_size destroyed_server = tp_size linked_server \/
   (Z.of_N (tp_size linked_server) - 5 < Z.of_N (tp_size destroyed_server))%Z).
Proof.
  apply (DestroySession_pool_bounds (fun _ => 4%N) linked_server destroyed_server
           (Some 1) 5 true).
  - lia.
  - simpl. lia.
  - simpl. lia.
  - vm_compute. reflexivity.
Defined.


(** ** The name of an executor *)

(** X21. Executors are shared by name, and the name is the text of the
    model path, the function name and the two type names run together with
    underscores: after a [CreateSession] that returned a session, a
    [CreateSession] whose descriptor gives the same text gets the same
    Executor, also when its model is another one. *)
Theorem CreateSession_shares_on_equal_name (ctor_ok : SessionDesc -> bool) (cores : N)
    (dpost : Processor) (priv priv1 : InferServerPrivate) (desc1 desc2 : SessionDesc)
    (observer1 observer2 : option nat) (session1 : Session_t)
    (m1 m2 : Model) (pre1 pre2 : Processor) :
  model desc1 = Some m1 -> preproc desc1 = Some pre1 ->
  model desc2 = Some m2 -> preproc desc2 = Some pre2 ->
  executor_name_of m1 pre1 (default dpost (postproc desc1))
  = executor_name_of m2 pre2 (default dpost (postproc desc2)) ->
  CreateSession ctor_ok cores dpost priv desc1 observer1 = Returns (Some session1, priv1) ->
  exists session2 priv2 sess1 sess2,
    CreateSession ctor_ok cores dpost priv1 desc2 observer2
    = Returns (Some session2, priv2) /\
    sessions priv2 !! session1 = Some sess1 /\
    sessions priv2 !! session2 = Some sess2 /\
    session1 <> session2 /\
    GetExecutor sess1 = GetExecutor sess2 /\
    executor_map_ priv2 = executor_map_ priv1.
Proof.
  intros Hm1 Hpre1 Hm2 Hpre2 Hname HC.
  apply CreateSession_success in HC
    as (m & pre & executor & ex & sess1 & Hm & Hpre & Hmap & Hex & Hs1 & He1 & Hnext).
  rewrite Hm1 in Hm. rewrite Hpre1 in Hpre. injection Hm as <-. injection Hpre as <-.
  rewrite Hname in Hmap.
  unfold CreateSession. rewrite Hm2, Hpre2.
  set (desc' := match postproc desc2 with
                | None => set_postproc desc2 (Some dpost) | Some _ => desc2 end).
  assert (Hm' : model desc' = Some m2) by (subst desc'; by destruct (postproc desc2)).
  assert (Hpre' : preproc desc' = Some pre2) by (subst desc'; by destruct (postproc desc2)).
  assert (Hpost' : postproc desc' = Some (default dpost (postproc desc2)))
    by (subst desc'; by destruct (postproc desc2) eqn:E).
  unfold CreateExecutor. rewrite Hm', Hpre', Hpost', Hmap, Hex.
  eexists _, _, sess1, _. split; [reflexivity|]. simpl.
  rewrite Hnext. unfold Session_t in *.
  rewrite lookup_insert_ne by lia. rewrite lookup_insert_eq.
  split_and!; [done | done | lia | done | done].
Qed.

Lemma CreateSession_shares_on_equal_name_witness :
  split_model_a <> split_model_b /\
  exists session2 priv2 sess1 sess2,
    CreateSession (fun _ => true) 4 (sample_processor "Postprocessor")
      split_server split_desc_b None
    = Returns (Some session2, priv2) /\
    sessions priv2 !! 1 = Some sess1 /\
    sessions priv2 !! session2 = Some sess2 /\
    1 <> session2 /\
    GetExecutor sess1 = GetExecutor sess2 /\
    executor_map_ priv2 = executor_map_ split_server.
Proof.
  split; [discriminate|].
  apply (CreateSession_shares_on_equal_name (fun _ => true) 4
           (sample_processor "Postprocessor") fresh_server split_server
           split_desc_a split_desc_b None None 1
           split_model_a split_model_b (sample_processor "Preproc")
           (sample_processor "Preproc")).
  - reflexivity.
  - reflexivity.
  - reflexivity.
  - reflexivity.
  - reflexivity.
  - vm_compute. reflexivity.
Defined.


(** ** The singleton of a device *)

Lemma Instance_keeps check st device_id d server :
  server_map st !! d = Some server ->
  server_map (Instance check st device_id).2 !! d = Some server.
Proof.
  intros Hd. unfold Instance.
  destruct (server_map st !! device_id) as [p|] eqn:E; [done|].
  destruct (check device_id); simpl; [|done].
  rewrite lookup_insert_ne; [done|]. intros <-. congruence.
Qed.

Lemma later_map_keeps st st' d server :
  later_map st st' ->
  server_map st !! d = Some server -> server_map st' !! d = Some server.
Proof.
  induction 1 as [|st st1 check device_id _ IH]; [done|].
  intros Hd. by apply Instance_keeps, IH.
Qed.

(** X22. Each device has one server: once [Instance] has returned a server
    for a device, every later call for that device returns the same server,
    after any other calls of [Instance], without a new server being made and
    without the device being checked again. *)
Theorem Instance_singleton (check check' : Z -> bool) (st st1 st2 : ServerMap)
    (device_id : Z) (server : nat) :
  Instance check st device_id = (Some server, st1) ->
  later_map st1 st2 ->
  Instance check' st2 device_id = (Some server, st2).
Proof.
  intros HI Hlater.
  assert (H1 : server_map st1 !! device_id = Some server).
  { unfold Instance in HI.
    destruct (server_map st !! device_id) as [p|] eqn:E.
    - by injection HI as <- <-.
    - destruct (check device_id); simpl in HI; [|done].
      injection HI as <- <-. simpl. apply lookup_insert_eq. }
  apply (later_map_keeps _ _ _ _ Hlater) in H1.
  unfold Instance. by rewrite H1.
Qed.

Lemma Instance_singleton_witness :
  Instance (fun _ => false)
           (Instance (fun _ => true) (mkServerMap {[ 0%Z := 0 ]} 1) 1%Z).2 0%Z
  = (Some 0, (Instance (fun _ => true) (mkServerMap {[ 0%Z := 0 ]} 1) 1%Z).2).
Proof.
  apply (Instance_singleton (fun _ => true) (fun _ => false) (mkServerMap ∅ 0)
           (mkServerMap {[ 0%Z := 0 ]} 1)
           (Instance (fun _ => true) (mkServerMap {[ 0%Z := 0 ]} 1) 1%Z).2 0%Z 0).
  - vm_compute. reflexivity.
  - apply later_map_step, later_map_refl.
Defined.

(** * Properties of the decoder *)

Lemma u16_bytes (v : Z) :
  (0 <= v < 2 ^ 16)%Z -> (Z.lor (Z.shiftl (v / 256) 8) (v mod 256) mod 2 ^ 16 = v)%Z.
Proof.
  intros Hv.
  assert (Hland : Z.land (Z.shiftl (v / 256) 8) (v mod 256) = 0%Z).
  { apply Z.bits_inj'. intros n Hn. rewrite Z.land_spec, Z.bits_0.
    destruct (decide (n < 8)%Z).
    - rewrite Z.shiftl_spec_low; [done | lia].
    - change 256%Z with (2 ^ 8)%Z. rewrite Z.mod_pow2_bits_high by lia.
      apply andb_false_r. }
  rewrite <- Z.lxor_lor, <- Z.add_nocarry_lxor by done.
  rewrite Z.shiftl_mul_pow2 by lia. change (2 ^ 8)%Z with 256%Z.
  pose proof (Z.div_mod v 256 ltac:(lia)) as Hdm.
  pose proof (Z.mod_pos_bound v 256 ltac:(lia)) as Hmb.
  rewrite Z.mod_small; lia.
Qed.

Lemma read_u16_at pre hi lo rest :
  read_u16 (pre ++ hi :: lo :: rest) (Z.of_nat (length pre))
  = Some (Z.lor (Z.shiftl hi 8) lo mod 2 ^ 16)%Z.
Proof.
  unfold read_u16. rewrite Nat2Z.id.
  rewrite (list_lookup_middle pre (lo :: rest) hi (length pre)) by done. simpl.
  assert (Z.to_nat (Z.of_nat (length pre) + 1) = length (pre ++ [hi])) as ->
    by (rewrite length_app; simpl; lia).
  rewrite (cons_middle hi pre (lo :: rest)), (assoc_L (++) pre [hi] (lo :: rest)).
  by rewrite (list_lookup_middle (pre ++ [hi]) rest lo) by done.
Qed.

Lemma read_u16_Some data i v :
  (0 <= i)%Z -> read_u16 data i = Some v -> (i + 1 < Z.of_nat (length data))%Z.
Proof.
  intros Hi. unfold read_u16.
  destruct (data !! Z.to_nat i); simpl; [|done].
  destruct (data !! Z.to_nat (i + 1)) eqn:E; simpl; [|done].
  intros _. apply lookup_lt_Some in E. lia.
Qed.

Lemma read_u16_bound data i v : read_u16 data i = Some v -> (0 <= v < 2 ^ 16)%Z.
Proof.
  unfold read_u16.
  destruct (data !! Z.to_nat i); simpl; [|done].
  destruct (data !! Z.to_nat (i + 1)); simpl; [|done].
  intros [= <-]. apply Z.mod_pos_bound. lia.
Qed.

(** The loop ends within the fuel that [CheckProgressiveMode] gives it, and
    returns 0 or 1 when it does not read past the buffer. *)
Lemma CheckProgressiveMode_loop_ends fuel data len i :
  (Z.of_nat (length data) < 2 ^ 64 - 2 ^ 16 - 2)%Z ->
  (0 <= i)%Z ->
  1 <= fuel ->
  (Z.of_nat (length data) - i <= 2 * (Z.of_nat fuel - 1))%Z ->
  CheckProgressiveMode_loop fuel data len i = Returns 0%Z \/
  CheckProgressiveMode_loop fuel data len i = Returns 1%Z \/
  CheckProgressiveMode_loop fuel data len i = Undefined.
Proof.
  intros Hsize. revert i. induction fuel as [|fuel IH]; intros i Hi Hfuel Hm; [lia|].
  simpl. destruct (i <? len)%Z; [|by left].
  destruct (read_u16 data i) as [seg_header|] eqn:H1; [|by right; right].
  destruct (is_progressive seg_header); [by right; left|].
  destruct (read_u16 data (i + 2)) as [step|] eqn:H2; [|by right; right].
  assert (Hi2 : (0 <= i + 2)%Z) by lia.
  pose proof (read_u16_Some _ _ _ Hi2 H2) as Hin.
  pose proof (read_u16_bound _ _ _ H2) as Hstep.
  rewrite Z.mod_small by lia. apply IH; lia.
Qed.

(** X23. [CheckProgressiveMode] ends on every buffer, with -1, 0 or 1
    unless it reads past the buffer, and it returns -1 exactly when the
    first two bytes are there and are not the start-of-image marker FFD8;
    the two bytes are read whatever [length] is. *)
Theorem CheckProgressiveMode_verdict (data : list Z) (len : Z) :
  (Z.of_nat (length data) < 2 ^ 64 - 2 ^ 16 - 2)%Z ->
  (CheckProgressiveMode data len = Returns (-1)%Z \/
   CheckProgressiveMode data len = Returns 0%Z \/
   CheckProgressiveMode data len = Returns 1%Z \/
   CheckProgressiveMode data len = Undefined) /\
  (CheckProgressiveMode data len = Returns (-1)%Z <->
   exists header, read_u16 data 0 = Some header /\ header <> 0xFFD8%Z).
Proof.
  intros Hsize. unfold CheckProgressiveMode.
  destruct (read_u16 data 0) as [header|] eqn:Hh.
  - destruct (decide (header <> 0xFFD8%Z)) as [Hne | Heq].
    + rewrite bool_decide_eq_true_2 by done. split; [by left|]. split; [eauto | done].
    + rewrite bool_decide_eq_false_2 by done.
      assert (Hends := CheckProgressiveMode_loop_ends (S (length data)) data len 2 Hsize).
      destruct Hends as [-> | [-> | ->]]; [lia | lia | lia | | |].
      * split; [by right; left|]. split; [done|]. by intros (h & [= <-] & ?).
      * split; [by right; right; left|]. split; [done|]. by intros (h & [= <-] & ?).
      * split; [by right; right; right|]. split; [done|]. by intros (h & [= <-] & ?).
  - split; [by right; right; right|]. split; [done|]. by intros (h & ? & ?).
Qed.

Lemma CheckProgressiveMode_verdict_witness :
  (CheckProgressiveMode [0x89; 0x50; 0x4e; 0x47]%Z 4 = Returns (-1)%Z \/
   CheckProgressiveMode [0x89; 0x50; 0x4e; 0x47]%Z 4 = Returns 0%Z \/
   CheckProgressiveMode [0x89; 0x50; 0x4e; 0x47]%Z 4 = Returns 1%Z \/
   CheckProgressiveMode [0x89; 0x50; 0x4e; 0x47]%Z 4 = Undefined) /\
  (CheckProgressiveMode [0x89; 0x50; 0x4e; 0x47]%Z 4 = Returns (-1)%Z <->
   exists header, read_u16 [0x89; 0x50; 0x4e; 0x47]%Z 0 = Some header /\ header <> 0xFFD8%Z).
Proof.
  apply (CheckProgressiveMode_verdict [0x89; 0x50; 0x4e; 0x47]%Z 4). simpl. lia.
Defined.

Lemma encode_segment_length s :
  length (encode_segment s) = 4 + length (seg_payload s).
Proof. done. Qed.

(** The start of a segment in a buffer: the marker and the length. *)
Lemma read_segment data pre s rest :
  segment_ok s ->
  data = pre ++ encode_segment s ++ rest ->
  read_u16 data (Z.of_nat (length pre)) = Some (seg_marker s) /\
  read_u16 data (Z.of_nat (length pre) + 2)
  = Some (Z.of_nat (length (seg_payload s)) + 2)%Z.
Proof.
  intros [Hmk Hpl] ->. unfold encode_segment. cbn [app]. split.
  - by rewrite read_u16_at, u16_bytes.
  - rewrite (cons_middle (seg_marker s / 256)%Z pre), (assoc_L (++)).
    rewrite (cons_middle (seg_marker s mod 256)%Z (pre ++ _)), (assoc_L (++)).
    assert ((Z.of_nat (length pre) + 2)%Z
            = Z.of_nat (length ((pre ++ [(seg_marker s / 256)%Z])
                                ++ [(seg_marker s mod 256)%Z]))) as ->
      by (rewrite !length_app; simpl; lia).
    rewrite read_u16_at, u16_bytes; [done | lia].
Qed.

(** The walk over the segments: the loop, at the start of well-formed
    segments, returns 1 at the first progressive one and is at the end of the
    segments when there is none. *)
Lemma CheckProgressiveMode_loop_segments segs data pre tail fuel len :
  Forall segment_ok segs ->
  data = pre ++ concat (encode_segment <$> segs) ++ tail ->
  (Z.of_nat (length data) < 2 ^ 64)%Z ->
  (Z.of_nat (length (pre ++ concat (encode_segment <$> segs))) <= len)%Z ->
  length segs <= fuel ->
  CheckProgressiveMode_loop fuel data len (Z.of_nat (length pre))
  = if has_progressive segs
    then Returns 1%Z
    else CheckProgressiveMode_loop (fuel - length segs) data len
           (Z.of_nat (length (pre ++ concat (encode_segment <$> segs)))).
Proof.
  intros Hok. revert pre fuel. induction Hok as [|s segs Hs _ IH];
    intros pre fuel Hd Hsize Hlen Hfuel.
  - simpl. rewrite Nat.sub_0_r. by rewrite (right_id_L [] (++)).
  - destruct fuel as [|fuel]; [simpl in Hfuel; lia|].
    cbn [fmap list_fmap concat] in Hd, Hlen.
    rewrite <- (assoc_L (++)) in Hd.
    destruct (read_segment data pre s _ Hs Hd) as [Hmarker Hstep].
    assert (Hdl : length data = length pre + (4 + length (seg_payload s))
                  + length (concat (encode_segment <$> segs) ++ tail)).
    { rewrite Hd, !length_app, encode_segment_length. lia. }
    rewrite !length_app, encode_segment_length in Hlen.
    cbn [CheckProgressiveMode_loop].
    assert (Hi : (Z.of_nat (length pre) <? len)%Z = true) by (apply Z.ltb_lt; lia).
    rewrite Hi, Hmarker.
    cbn [has_progressive existsb fmap list_fmap concat length Nat.sub].
    fold (has_progressive segs).
    destruct (is_progressive (seg_marker s)) eqn:Hp; [done|]. simpl orb.
    rewrite Hstep.
    assert (Hnext : ((Z.of_nat (length pre) + 2
                      + (Z.of_nat (length (seg_payload s)) + 2)) mod 2 ^ 64)%Z
                    = Z.of_nat (length (pre ++ encode_segment s))).
    { rewrite length_app, encode_segment_length. rewrite Z.mod_small; lia. }
    rewrite Hnext.
    rewrite (IH (pre ++ encode_segment s) fuel).
    + by rewrite <- !(assoc_L (++)).
    + by rewrite <- !(assoc_L (++)).
    + done.
    + rewrite !length_app, encode_segment_length. lia.
    + simpl in Hfuel. lia.
Qed.

Lemma encode_segments_length segs :
  4 * length segs <= length (concat (encode_segment <$> segs)).
Proof.
  induction segs as [|s segs IH]; [done|].
  cbn [fmap list_fmap concat length]. rewrite length_app, encode_segment_length. lia.
Qed.

(** [CheckProgressiveMode] on a stream that starts with well-formed
    segments: the walk, then what is left. *)
Lemma CheckProgressiveMode_stream segs tail len :
  Forall segment_ok segs ->
  (Z.of_nat (length (jpeg_stream segs ++ tail)) < 2 ^ 64)%Z ->
  (Z.of_nat (length (jpeg_stream segs)) <= len)%Z ->
  CheckProgressiveMode (jpeg_stream segs ++ tail) len
  = if has_progressive segs
    then Returns 1%Z
    else CheckProgressiveMode_loop (S (length (jpeg_stream segs ++ tail)) - length segs)
           (jpeg_stream segs ++ tail) len (Z.of_nat (length (jpeg_stream segs))).
Proof.
  intros Hok Hsize Hlen. unfold CheckProgressiveMode.
  assert (Hh : read_u16 (jpeg_stream segs ++ tail) 0 = Some 0xFFD8%Z).
  { unfold jpeg_stream. cbn [app]. apply (read_u16_at [] 0xff%Z 0xd8%Z). }
  rewrite Hh. rewrite bool_decide_eq_false_2 by (intros H; by apply H).
  apply (CheckProgressiveMode_loop_segments segs _ [0xff; 0xd8]%Z tail); try done.
  pose proof (encode_segments_length segs).
  unfold jpeg_stream. rewrite !length_app. simpl. lia.
Qed.

(** X24. On a buffer that holds the start-of-image marker and then
    well-formed segments, [CheckProgressiveMode] steps from segment to
    segment by the length fields: it returns 1 when one of the segments has
    the marker FFC2 or FFCA, whatever follows the segments, and 0 when none
    has and the buffer ends with the last segment. *)
Theorem CheckProgressiveMode_segments (segs : list Segment) (tail : list Z) :
  Forall segment_ok segs ->
  (Z.of_nat (length (jpeg_stream segs ++ tail)) < 2 ^ 64)%Z ->
  has_progressive segs = true \/ tail = [] ->
  CheckProgressiveMode (jpeg_stream segs ++ tail)
                       (Z.of_nat (length (jpeg_stream segs ++ tail)))
  = Returns (if has_progressive segs then 1 else 0)%Z.
Proof.
  intros Hok Hsize Hcase.
  rewrite CheckProgressiveMode_stream; [|done|done|rewrite length_app; lia].
  destruct (has_progressive segs); [done|].
  destruct Hcase as [? | ->]; [done|].
  rewrite (right_id_L [] (++)).
  pose proof (encode_segments_length segs) as Hl.
  assert (Hf : exists fuel, S (length (jpeg_stream segs)) - length segs = S fuel).
  { exists (length (jpeg_stream segs) - length segs).
    unfold jpeg_stream. rewrite !length_app. simpl. lia. }
  destruct Hf as [fuel ->]. simpl. by rewrite Z.ltb_irrefl.
Qed.

Lemma CheckProgressiveMode_segments_witness :
  CheckProgressiveMode
    (jpeg_stream [mkSegment 0xffe0 [1; 2; 3]%Z; mkSegment 0xffc2 [8]%Z] ++ [7; 7; 7]%Z)
    (Z.of_nat (length (jpeg_stream [mkSegment 0xffe0 [1; 2; 3]%Z; mkSegment 0xffc2 [8]%Z]
                       ++ [7; 7; 7]%Z)))
  = Returns (if has_progressive [mkSegment 0xffe0 [1; 2; 3]%Z; mkSegment 0xffc2 [8]%Z]
             then 1 else 0)%Z.
Proof.
  apply (CheckProgressiveMode_segments
           [mkSegment 0xffe0 [1; 2; 3]%Z; mkSegment 0xffc2 [8]%Z] [7; 7; 7]%Z).
  - repeat constructor; simpl; lia.
  - simpl. lia.
  - left. reflexivity.
Defined.

(** X25. When the segments, none of them progressive, are followed by one
    to three more bytes that do not start with a progressive marker, as by
    the two bytes of the end-of-image marker, [CheckProgressiveMode] takes
    them for the start of a segment and reads the length field past the end
    of the buffer. *)
Theorem CheckProgressiveMode_short_tail (segs : list Segment) (tail : list Z) :
  Forall segment_ok segs ->
  (Z.of_nat (length (jpeg_stream segs ++ tail)) < 2 ^ 64)%Z ->
  has_progressive segs = false ->
  1 <= length tail <= 3 ->
  (forall header, read_u16 tail 0 = Some header -> is_progressive header = false) ->
  CheckProgressiveMode (jpeg_stream segs ++ tail)
                       (Z.of_nat (length (jpeg_stream segs ++ tail)))
  = Undefined.
Proof.
  intros Hok Hsize Hnp Htail Hhead.
  pose proof (encode_segments_length segs) as Hl.
  rewrite CheckProgressiveMode_stream; [|done|done|rewrite length_app; lia].
  rewrite Hnp.
  assert (Hf : exists fuel, S (length (jpeg_stream segs ++ tail)) - length segs = S fuel).
  { exists (length (jpeg_stream segs ++ tail) - length segs).
    unfold jpeg_stream. rewrite !length_app. simpl. lia. }
  destruct Hf as [fuel ->]. cbn [CheckProgressiveMode_loop].
  assert ((Z.of_nat (length (jpeg_stream segs))
           <? Z.of_nat (length (jpeg_stream segs ++ tail)))%Z = true) as ->
    by (apply Z.ltb_lt; rewrite length_app; lia).
  destruct tail as [|a [|b tail]]; [simpl in Htail; lia | |].
  - unfold read_u16 at 1. rewrite Nat2Z.id.
    rewrite (list_lookup_middle _ [] a (length (jpeg_stream segs))) by done.
    rewrite lookup_ge_None_2 by (rewrite length_app; simpl; lia). done.
  - rewrite read_u16_at.
    rewrite (Hhead (Z.lor (Z.shiftl a 8) b mod 2 ^ 16)%Z) by done.
    unfold read_u16.
    rewrite (lookup_ge_None_2 _ (Z.to_nat (Z.of_nat (length (jpeg_stream segs)) + 2 + 1)))
      by (rewrite length_app; simpl in *; lia).
    by destruct (_ !! Z.to_nat (_ + 2)).
Qed.

Lemma CheckProgressiveMode_short_tail_witness :
  CheckProgressiveMode (jpeg_stream [mkSegment 0xffe0 [1; 2; 3]%Z] ++ [0xff; 0xd9]%Z)
    (Z.of_nat (length (jpeg_stream [mkSegment 0xffe0 [1; 2; 3]%Z] ++ [0xff; 0xd9]%Z)))
  = Undefined.
Proof.
  apply (CheckProgressiveMode_short_tail [mkSegment 0xffe0 [1; 2; 3]%Z] [0xff; 0xd9]%Z).
  - repeat constructor; simpl; lia.
  - simpl. lia.
  - reflexivity.
  - simpl. lia.
  - intros header [= <-]. reflexivity.
Defined.

(** ** ALIGN *)

(** X26. For an alignment that is a power of two and a size that leaves
    room below 2^32, [ALIGN] gives the least multiple of the alignment that
    is not below the size. *)
Theorem ALIGN_rounds_up (size k : Z) :
  (0 <= k < 31)%Z ->
  (0 <= size)%Z ->
  (size + 2 ^ k - 1 < 2 ^ 32)%Z ->
  (ALIGN size (2 ^ k) mod 2 ^ k = 0 /\ size <= ALIGN size (2 ^ k) < size + 2 ^ k)%Z.
Proof.
  intros Hk Hsize Hroom.
  assert (Hpow : (0 < 2 ^ k)%Z) by (apply Z.pow_pos_nonneg; lia).
  set (x := (size + 2 ^ k - 1)%Z).
  assert (HA : ALIGN size (2 ^ k) = (2 ^ k * (x / 2 ^ k))%Z).
  { unfold ALIGN. rewrite (Z.mod_small size) by lia. fold x.
    rewrite (Z.mod_small x) by (subst x; lia).
    replace (2 ^ k * (x / 2 ^ k))%Z with (Z.shiftl (Z.shiftr x k) k)
      by (rewrite Z.shiftl_mul_pow2, Z.shiftr_div_pow2 by lia; lia).
    apply Z.bits_inj'. intros n Hn.
    rewrite Z.land_spec.
    destruct (decide (n < k)%Z) as [Hlt | Hge].
    - rewrite Z.shiftl_spec_low by done.
      rewrite Z.mod_pow2_bits_low by lia.
      rewrite Z.lnot_spec by done.
      replace (2 ^ k - 1)%Z with (Z.ones k) by (rewrite Z.ones_equiv; lia).
      rewrite Z.ones_spec_low by lia. apply andb_false_r.
    - rewrite Z.shiftl_spec by done. rewrite Z.shiftr_spec by lia.
      replace (n - k + k)%Z with n by lia.
      destruct (decide (n < 32)%Z) as [Hn32 | Hn32].
      + rewrite Z.mod_pow2_bits_low by lia.
        rewrite Z.lnot_spec by done.
        replace (2 ^ k - 1)%Z with (Z.ones k) by (rewrite Z.ones_equiv; lia).
        rewrite Z.ones_spec_high by lia. apply andb_true_r.
      + rewrite Z.mod_pow2_bits_high by lia. rewrite andb_false_r.
        symmetry. apply Z.bits_above_log2; [subst x; lia|].
        destruct (decide (x = 0%Z)) as [Hx0 | Hx0]; [rewrite Hx0; simpl; lia|].
        apply Z.log2_lt_pow2; [subst x; lia|].
        assert (2 ^ 32 <= 2 ^ n)%Z by (apply Z.pow_le_mono_r; lia). subst x. lia. }
  rewrite HA.
  pose proof (Z.div_mod x (2 ^ k) ltac:(lia)) as Hdm.
  pose proof (Z.mod_pos_bound x (2 ^ k) ltac:(lia)) as Hmb.
  split.
  - rewrite Z.mul_comm. apply Z.mod_mul. lia.
  - subst x. lia.
Qed.

Lemma ALIGN_rounds_up_witness :
  (ALIGN 1000 (2 ^ 7) mod 2 ^ 7 = 0 /\ 1000 <= ALIGN 1000 (2 ^ 7) < 1000 + 2 ^ 7)%Z.
Proof.
  apply (ALIGN_rounds_up 1000 7); lia.
Defined.

(** ** The timestamps kept for the decoder *)

Lemma key_shift_ne (k d : Z) :
  (0 <= k < 2 ^ 32)%Z -> (0 < d < 2 ^ 32)%Z -> ((k + d) mod 2 ^ 32 <> k)%Z.
Proof.
  intros Hk Hd. destruct (decide (k + d < 2 ^ 32)%Z).
  - rewrite Z.mod_small by lia. lia.
  - replace (k + d)%Z with (k + d - 2 ^ 32 + 1 * 2 ^ 32)%Z by lia.
    rewrite Z.mod_add by lia. rewrite Z.mod_small by lia. lia.
Qed.

Lemma key_shift_succ (k : Z) (i : nat) :
  (((k + 1) mod 2 ^ 32 + Z.of_nat i) mod 2 ^ 32 = (k + Z.of_nat (S i)) mod 2 ^ 32)%Z.
Proof.
  rewrite Zplus_mod_idemp_l. f_equal. lia.
Qed.

Lemma SetVpuTimestamps_spec ptss st keys st' :
  (0 <= pts_key_ st < 2 ^ 32)%Z ->
  (Z.of_nat (length ptss) <= 2 ^ 32)%Z ->
  SetVpuTimestamps st ptss = (keys, st') ->
  keys = (fun i => (pts_key_ st + Z.of_nat i) mod 2 ^ 32)%Z <$> seq 0 (length ptss) /\
  (forall k, (forall i, i < length ptss -> k <> ((pts_key_ st + Z.of_nat i) mod 2 ^ 32)%Z) ->
             vpu_pts_map_ st' !! k = vpu_pts_map_ st !! k) /\
  (forall i pts, ptss !! i = Some pts ->
                 vpu_pts_map_ st' !! ((pts_key_ st + Z.of_nat i) mod 2 ^ 32)%Z = Some pts).
Proof.
  revert st keys st'. induction ptss as [|p ptss IH]; intros st keys st' Hkey Hlen.
  - simpl. intros [= <- <-]. split_and!; [done | done |]. by intros i pts.
  - cbn [SetVpuTimestamps]. unfold SetVpuTimestamp.
    remember (set_pts st ((pts_key_ st + 1) mod 2 ^ 32)%Z
                      (<[pts_key_ st := p]> (vpu_pts_map_ st))) as st1 eqn:Hst1.
    assert (Hk1 : pts_key_ st1 = ((pts_key_ st + 1) mod 2 ^ 32)%Z) by (by rewrite Hst1).
    assert (Hm1 : vpu_pts_map_ st1 = <[pts_key_ st := p]> (vpu_pts_map_ st))
      by (by rewrite Hst1).
    clear Hst1.
    destruct (SetVpuTimestamps st1 ptss) as [keys1 st2] eqn:Hrec.
    intros [= <- <-].
    assert (Hkey1 : (0 <= pts_key_ st1 < 2 ^ 32)%Z)
      by (rewrite Hk1; apply Z.mod_pos_bound; lia).
    simpl length in Hlen.
    destruct (IH st1 keys1 st2 Hkey1 ltac:(lia) Hrec) as (Hkeys & Hother & Hmine).
    split_and!.
    + cbn [length seq fmap list_fmap]. f_equal.
      * rewrite Z.add_0_r, Z.mod_small; lia.
      * rewrite Hkeys, <- fmap_S_seq, <- list_fmap_compose. apply list_fmap_ext.
        intros _ i _. simpl. rewrite Hk1. apply key_shift_succ.
    + intros k Hk. rewrite Hother.
      * rewrite Hm1. apply lookup_insert_ne.
        specialize (Hk 0 ltac:(simpl; lia)).
        rewrite Z.add_0_r, Z.mod_small in Hk by lia. done.
      * intros i Hi. rewrite Hk1, key_shift_succ. apply Hk. simpl. lia.
    + intros [|i] pts Hi.
      * injection Hi as ->. rewrite Z.add_0_r, Z.mod_small by lia.
        rewrite Hother; [rewrite Hm1; apply lookup_insert_eq|].
        intros i Hi. rewrite Hk1, key_shift_succ. symmetry.
        apply key_shift_ne; lia.
      * simpl in Hi. rewrite <- key_shift_succ, <- Hk1. by apply Hmine.
Qed.

(** X27. The timestamps of up to 2^32 packets are kept apart: after that
    many calls of [SetVpuTimestamp] at most, [GetVpuTimestamp] with the key
    that the i-th call returned gives back the i-th timestamp and erases the
    record, so that a second call with that key returns false. *)
Theorem VpuTimestamp_round_trip (st st' : DecodeHandler) (ptss keys : list Z)
    (i : nat) (pts : Z) :
  (0 <= pts_key_ st < 2 ^ 32)%Z ->
  (Z.of_nat (length ptss) <= 2 ^ 32)%Z ->
  SetVpuTimestamps st ptss = (keys, st') ->
  ptss !! i = Some pts ->
  exists key st'',
    keys !! i = Some key /\
    GetVpuTimestamp st' key true = (true, Some pts, st'') /\
    GetVpuTimestamp st'' key true = (false, None, st'').
Proof.
  intros Hkey Hlen HS Hi.
  destruct (SetVpuTimestamps_spec _ _ _ _ Hkey Hlen HS) as (Hkeys & _ & Hmine).
  exists ((pts_key_ st + Z.of_nat i) mod 2 ^ 32)%Z. eexists. split_and!.
  - rewrite Hkeys, list_lookup_fmap, lookup_seq_lt; [done|].
    by eapply lookup_lt_Some.
  - unfold GetVpuTimestamp. by rewrite (Hmine _ _ Hi).
  - unfold GetVpuTimestamp. simpl. by rewrite lookup_delete_eq.
Qed.

Lemma VpuTimestamp_round_trip_witness :
  exists key st'',
    [4294967295; 0; 1]%Z !! 1 = Some key /\
    GetVpuTimestamp
      (mkDecodeHandler true false RUNNING false 2
         {[ 4294967295%Z := 100%Z; 0%Z := 200%Z; 1%Z := 300%Z ]} 0)
      key true = (true, Some 200%Z, st'') /\
    GetVpuTimestamp st'' key true = (false, None, st'').
Proof.
  apply (VpuTimestamp_round_trip
           (mkDecodeHandler true false RUNNING false 4294967295 ∅ 0)
           (mkDecodeHandler true false RUNNING false 2
              {[ 4294967295%Z := 100%Z; 0%Z := 200%Z; 1%Z := 300%Z ]} 0)
           [100; 200; 300]%Z [4294967295; 0; 1]%Z 1 200%Z).
  - simpl. lia.
  - simpl. lia.
  - vm_compute. reflexivity.
  - reflexivity.
Defined.

(** ** Feeding the decoder *)

(** X28. [FeedVideoData] records the timestamp under the key it takes and
    calls the codec three times at most, and not again after a success or
    an error: what it does depends on the first three answers only, and on
    none after a success or an error. These answers are, exhaustively, a
    success after timeouts only, three timeouts, or an error after timeouts
    only. On a success it returns, with the timestamp recorded, the key advanced and
    one more packet counted, modulo 2^32. On three timeouts it throws
    TIMEOUT and on an error INTERNAL, and in both cases it has erased the
    record first and has not counted the packet: the map of timestamps is
    what it was before the call when the key was free. *)
Theorem FeedVideoData_outcome (st : DecodeHandler) (pts : Z) (answers : nat -> FeedAnswer) :
  let key := pts_key_ st in
  let recorded :=
    set_pts st ((key + 1) mod 2 ^ 32)%Z (<[key := pts]> (vpu_pts_map_ st)) in
  let erased := set_pts st ((key + 1) mod 2 ^ 32)%Z (delete key (vpu_pts_map_ st)) in
  let success_at n :=
    n < 3 /\ answers n = CNCODEC_SUCCESS /\ forall m, m < n -> answers m = CNCODEC_TIMEOUT in
  let error_at n :=
    n < 3 /\ (exists ecode, answers n = CNCODEC_ERROR ecode) /\
    forall m, m < n -> answers m = CNCODEC_TIMEOUT in
  let timeouts := forall m, m < 3 -> answers m = CNCODEC_TIMEOUT in
  ((exists n, success_at n) \/ timeouts \/ (exists n, error_at n)) /\
  ((exists n, success_at n) ->
   FeedVideoData st pts answers
   = Ok (set_packets_count recorded ((packets_count_ st + 1) mod 2 ^ 32)%Z)) /\
  (timeouts -> FeedVideoData st pts answers = Throw Exception.TIMEOUT erased) /\
  ((exists n, error_at n) ->
   FeedVideoData st pts answers = Throw Exception.INTERNAL erased) /\
  (forall answers',
     (forall m, m < 3 -> answers' m = answers m) ->
     FeedVideoData st pts answers' = FeedVideoData st pts answers) /\
  (forall n answers',
     success_at n \/ error_at n ->
     (forall m, m <= n -> answers' m = answers m) ->
     FeedVideoData st pts answers' = FeedVideoData st pts answers) /\
  (vpu_pts_map_ st !! key = None -> vpu_pts_map_ erased = vpu_pts_map_ st).
Proof.
  intros key recorded erased success_at error_at timeouts.
  assert (Herased : (GetVpuTimestamp recorded key false).2 = erased).
  { unfold GetVpuTimestamp, recorded, erased. simpl. rewrite lookup_insert_eq. simpl.
    unfold set_pts. simpl. by rewrite delete_insert_eq. }
  assert (Hrun : forall a : nat -> FeedAnswer,
    FeedVideoData st pts a
    = match a 0 with
      | CNCODEC_SUCCESS =>
          Ok (set_packets_count recorded ((packets_count_ st + 1) mod 2 ^ 32)%Z)
      | CNCODEC_ERROR _ => Throw Exception.INTERNAL erased
      | CNCODEC_TIMEOUT =>
          match a 1 with
          | CNCODEC_SUCCESS =>
              Ok (set_packets_count recorded ((packets_count_ st + 1) mod 2 ^ 32)%Z)
          | CNCODEC_ERROR _ => Throw Exception.INTERNAL erased
          | CNCODEC_TIMEOUT =>
              match a 2 with
              | CNCODEC_SUCCESS =>
                  Ok (set_packets_count recorded ((packets_count_ st + 1) mod 2 ^ 32)%Z)
              | CNCODEC_ERROR _ => Throw Exception.INTERNAL erased
              | CNCODEC_TIMEOUT => Throw Exception.TIMEOUT erased
              end
          end
      end).
  { intros a. unfold FeedVideoData, SetVpuTimestamp. cbn [Feed_loop Nat.eqb].
    fold key. fold recorded. rewrite Herased.
    destruct (a 0); [done | | done]. destruct (a 1); [done | | done].
    by destruct (a 2). }
  split_and!.
  - destruct (answers 0) eqn:H0.
    { left. exists 0. split_and!; [lia | done | intros m Hm; lia]. }
    2:{ right. right. exists 0. split_and!; [lia | by eexists | intros m Hm; lia]. }
    destruct (answers 1) eqn:H1.
    { left. exists 1. split_and!; [lia | done |].
      intros m Hm. by assert (m = 0) as -> by lia. }
    2:{ right. right. exists 1. split_and!; [lia | by eexists |].
        intros m Hm. by assert (m = 0) as -> by lia. }
    destruct (answers 2) eqn:H2.
    { left. exists 2. split_and!; [lia | done |].
      intros m Hm. assert (m = 0 \/ m = 1) as [-> | ->] by lia; done. }
    2:{ right. right. exists 2. split_and!; [lia | by eexists |].
        intros m Hm. assert (m = 0 \/ m = 1) as [-> | ->] by lia; done. }
    right. left. intros m Hm.
    assert (m = 0 \/ m = 1 \/ m = 2) as [-> | [-> | ->]] by lia; done.
  - intros (n & Hn & Hs & Hto). rewrite Hrun.
    destruct n as [|[|[|n]]]; [ | | | lia].
    + by rewrite Hs.
    + rewrite (Hto 0) by lia. by rewrite Hs.
    + rewrite (Hto 0), (Hto 1) by lia. by rewrite Hs.
  - intros Hall. rewrite Hrun. by rewrite (Hall 0), (Hall 1), (Hall 2) by lia.
  - intros (n & Hn & [ecode He] & Hto). rewrite Hrun.
    destruct n as [|[|[|n]]]; [ | | | lia].
    + by rewrite He.
    + rewrite (Hto 0) by lia. by rewrite He.
    + rewrite (Hto 0), (Hto 1) by lia. by rewrite He.
  - intros answers' Heq. rewrite !Hrun. by rewrite (Heq 0), (Heq 1), (Heq 2) by lia.
  - intros n answers' Hcase Heq. rewrite !Hrun.
    assert (Hstop : n < 3 /\ answers n <> CNCODEC_TIMEOUT /\
                    forall m, m < n -> answers m = CNCODEC_TIMEOUT).
    { destruct Hcase as [(Hn & Hs & Hto) | (Hn & [ecode He] & Hto)];
        (split_and!; [done | congruence | done]). }
    destruct Hstop as (Hn & Hne & Hto).
    destruct n as [|[|[|n]]]; [ | | | lia].
    + rewrite (Heq 0) by lia. by destruct (answers 0).
    + rewrite (Heq 0), (Hto 0) by lia. rewrite (Heq 1) by lia. by destruct (answers 1).
    + rewrite (Heq 0), (Hto 0) by lia. rewrite (Heq 1), (Hto 1) by lia.
      by rewrite (Heq 2) by lia.
  - intros Hfree. simpl. by apply delete_id.
Qed.

Lemma FeedVideoData_outcome_witness :
  FeedVideoData full_count_handler 900
                (fun n => if n =? 1 then CNCODEC_SUCCESS else CNCODEC_TIMEOUT)
  = Ok (mkDecodeHandler true false RUNNING false 6 {[ 5%Z := 900%Z ]} 0) /\
  FeedVideoData fresh_handler 900 (fun _ => CNCODEC_TIMEOUT)
  = Throw Exception.TIMEOUT (mkDecodeHandler true false RUNNING false 6 ∅ 0) /\
  FeedVideoData fresh_handler 900
                (fun n => if n =? 2 then CNCODEC_ERROR (-3) else CNCODEC_TIMEOUT)
  = Throw Exception.INTERNAL (mkDecodeHandler true false RUNNING false 6 ∅ 0).
Proof.
  split_and!.
  - destruct (FeedVideoData_outcome full_count_handler 900
                (fun n => if n =? 1 then CNCODEC_SUCCESS else CNCODEC_TIMEOUT))
      as (_ & H & _).
    rewrite H; [reflexivity|]. exists 1. split_and!; [lia | reflexivity |].
    intros m Hm. by assert (m = 0) as -> by lia.
  - destruct (FeedVideoData_outcome fresh_handler 900 (fun _ => CNCODEC_TIMEOUT))
      as (_ & _ & H & _).
    rewrite H; [reflexivity | done].
  - destruct (FeedVideoData_outcome fresh_handler 900
                (fun n => if n =? 2 then CNCODEC_ERROR (-3) else CNCODEC_TIMEOUT))
      as (_ & _ & _ & H & _).
    rewrite H; [reflexivity|]. exists 2. split_and!; [lia | by eexists |].
    intros m Hm. assert (m = 0 \/ m = 1) as [-> | ->] by lia; done.
Defined.

(** X29. Once the end of the stream has been fed, [SendData] returns false
    whatever it is given, feeds nothing to the codec and leaves the handler as
    it is. *)
Theorem SendData_after_eos (st : DecodeHandler) (packet : CnPacket)
    (eos integral_frame : bool) (answers eos_answers : nat -> FeedAnswer) :
  send_eos_ st = true ->
  SendData st packet eos integral_frame answers eos_answers = Ok (false, st).
Proof.
  intros Heos. unfold SendData, FeedData, FeedEos. rewrite Heos.
  destruct (_ && _); [by destruct (handle_ st)|].
  by destruct eos.
Qed.

Lemma SendData_after_eos_witness :
  SendData (mkDecodeHandler true false RUNNING true 0 ∅ 3)
           (mkCnPacket (Some [0; 0; 1]%Z) 3 40) true false
           (fun _ => CNCODEC_SUCCESS) (fun _ => CNCODEC_SUCCESS)
  = Ok (false, mkDecodeHandler true false RUNNING true 0 ∅ 3).
Proof.
  apply (SendData_after_eos (mkDecodeHandler true false RUNNING true 0 ∅ 3)
           (mkCnPacket (Some [0; 0; 1]%Z) 3 40) true false
           (fun _ => CNCODEC_SUCCESS) (fun _ => CNCODEC_SUCCESS)).
  reflexivity.
Defined.

(** X30. [Pause] succeeds on a running decoder only. While the decoder is
    paused, [FeedData] returns false and feeds nothing, a second [Pause]
    fails, and [Resume] gives the handler back as it was before [Pause]. *)
Theorem Pause_then_Resume (st st1 : DecodeHandler) (packet : CnPacket)
    (integral_frame : bool) (answers : nat -> FeedAnswer) :
  Pause st = (true, st1) ->
  status_ st = RUNNING /\
  FeedData st1 packet integral_frame answers = Ok (false, st1) /\
  Pause st1 = (false, st1) /\
  Resume st1 = (true, st).
Proof.
  unfold Pause. destruct (decide (status_ st = RUNNING)) as [Hr | Hr].
  - rewrite bool_decide_eq_true_2 by done. intros [= <-]. split; [done|].
    unfold FeedData, Pause, Resume. simpl.
    split_and!.
    + destruct (handle_ st); [|done]. simpl. by destruct (send_eos_ st).
    + done.
    + f_equal. destruct st. simpl in *. by subst.
  - by rewrite bool_decide_eq_false_2 by done.
Qed.

Lemma Pause_then_Resume_witness :
  status_ (mkDecodeHandler true false RUNNING false 0 ∅ 0) = RUNNING /\
  FeedData (mkDecodeHandler true false PAUSED false 0 ∅ 0)
           (mkCnPacket (Some [0; 0; 1]%Z) 3 40) false (fun _ => CNCODEC_SUCCESS)
  = Ok (false, mkDecodeHandler true false PAUSED false 0 ∅ 0) /\
  Pause (mkDecodeHandler true false PAUSED false 0 ∅ 0)
  = (false, mkDecodeHandler true false PAUSED false 0 ∅ 0) /\
  Resume (mkDecodeHandler true false PAUSED false 0 ∅ 0)
  = (true, mkDecodeHandler true false RUNNING false 0 ∅ 0).
Proof.
  apply (Pause_then_Resume (mkDecodeHandler true false RUNNING false 0 ∅ 0)
           (mkDecodeHandler true false PAUSED false 0 ∅ 0)
           (mkCnPacket (Some [0; 0; 1]%Z) 3 40) false (fun _ => CNCODEC_SUCCESS)).
  reflexivity.
Defined.
